(** * wr jobqueue client: the runner-side execution supervisor

    A shallow embedding of the jobqueue client (package jobqueue, the file
    holding Connect, Reserve, Execute, Touch, ended, Archive, Release and
    Bury) and the properties of it that the specification states.

    Conventions.
    - Go's [int] is a 64-bit two's-complement integer: values are kept in [Z]
      and [wrap64] is applied where the code computes.
    - Go's [string] is a Rocq [string]; [[]byte] is [list Byte.byte].
    - A Go [error] that may be nil is an [option error].
    - Pointer receivers ([*Job], [*Client]) are threaded explicitly: a method
      that mutates takes the value and returns the new one. *)

From Stdlib Require Import ZArith List String Ascii Bool Lia.
From Stdlib Require Strings.Byte.
Import ListNotations.
Local Open Scope string_scope.
Local Open Scope list_scope.
Local Open Scope Z_scope.

(* ===================================================================== *)
(** ** Machine integers *)

Definition wrap64 (z : Z) : Z := (z + 2 ^ 63) mod 2 ^ 64 - 2 ^ 63.

(* ===================================================================== *)
(** ** strings.Contains *)

Module Strings.

(** [Contains s substr] reports whether [substr] is within [s]. *)
Fixpoint Contains (s substr : string) : bool :=
  if prefix substr s then true
  else match s with
       | EmptyString => false
       | String _ rest => Contains rest substr
       end.

(** The mathematical reading of "s contains substr literally". *)
Definition Substring (sub s : string) : Prop :=
  exists pre post, s = (pre ++ sub ++ post)%string.

End Strings.

(* ===================================================================== *)
(** ** Go error values

    An error is kept as the term that built it.  [Opaque text] is an error
    handed over by a collaborator (mount driver, behaviours, os/exec, the
    socket), named by its message; [Errorf] records a call of fmt.Errorf
    with its format and arguments; [Error] is the package's own struct
    [Error{Op, Item, Err}].  The [Error()] method, where the code calls it,
    is a parameter [errText] of the definitions below. *)

#[local] Unset Elimination Schemes.
Inductive error : Type :=
| Opaque (text : string)
| Errorf (format : string) (args : list fmtarg)
| Error (Op Item Err : string)
with fmtarg : Type :=
| FStr (s : string)
| FInt (z : Z)
| FErr (e : error)
| FOptErr (e : option error)
| FSprintf (format : string) (args : list fmtarg).
#[local] Set Elimination Schemes.

Definition is_nil {A} (e : option A) : bool :=
  match e with None => true | Some _ => false end.

(** FailReason* are the reasons for cmd line failure stored on Jobs *)
Definition FailReasonEnv      := "failed to get environment variables".
Definition FailReasonCwd      := "working directory does not exist".
Definition FailReasonStart    := "command failed to start".
Definition FailReasonCPerm    := "command permission problem".
Definition FailReasonCFound   := "command not found".
Definition FailReasonCExit    := "command invalid exit code".
Definition FailReasonExit     := "command exited non-zero".
Definition FailReasonRAM      := "command used too much RAM".
Definition FailReasonTime     := "command used too much time".
Definition FailReasonAbnormal := "command failed to complete normally".
Definition FailReasonLost     := "lost contact with runner".
Definition FailReasonSignal   := "runner received a signal to stop".
Definition FailReasonResource := "resource requirements cannot be met".
Definition FailReasonMount    := "mounting of remote file system(s) failed".
Definition FailReasonUpload   := "failed to upload files to remote file system".
Definition FailReasonKilled   := "killed by user request".

(* ===================================================================== *)
(** ** Data model *)

Definition bytes := list Byte.byte.
Definition Duration := Z.        (* time.Duration: nanoseconds, int64 *)
Definition Millisecond : Duration := 1000000.
Definition UUID := N.

(** len(b) > 0 *)
Definition nonempty (b : bytes) : bool :=
  match b with [] => false | _ :: _ => true end.

(** Modelled from the spec: the JobState enumeration (declared outside the
    sources at hand); section 3 lists its values. *)
Inductive JobState :=
| JobStateNew | JobStateReady | JobStateReserved | JobStateRunning
| JobStateDelayed | JobStateComplete | JobStateBuried.

Record scheduler_Requirements := {
  RAM   : Z;          (* MiB *)
  Time  : Duration;
  Cores : Z;
  Disk  : Z
}.

(** Modelled from the spec: the Job record (declared outside the sources at
    hand), with the fields that the client methods below read or write.
    The integer width of [UntilBuried] is not visible here; it is kept as a
    signed integer, the reading under which the test [UntilBuried <= 0] of
    Release is not vacuous. *)
Record Job := {
  Cmd         : string;
  Cwd         : string;
  CwdMatters  : bool;
  ChangeHome  : bool;
  Requirements : scheduler_Requirements;
  ReservedBy  : UUID;
  UntilBuried : Z;
  Pid         : Z;
  ActualCwd   : string;
  Exited      : bool;
  Exitcode    : Z;
  PeakRAM     : Z;
  CPUtime     : Duration;
  StdOutC     : bytes;
  StdErrC     : bytes;
  FailReason  : string;
  State       : JobState
}.

(** JobEndState is used to describe the state of a job after it has (tried
    to) execute its Cmd. *)
Record JobEndState := {
  jes_Cwd      : string;
  jes_Exitcode : Z;
  jes_PeakRAM  : Z;
  jes_CPUtime  : Duration;
  jes_Stdout   : bytes;
  jes_Stderr   : bytes;
  jes_Exited   : bool
}.

(** Field updates of a [*Job]. *)
Module JobSet.
Definition ended_fields (j : Job) (e : JobEndState) : Job :=
  {| Cmd := Cmd j; Cwd := Cwd j; CwdMatters := CwdMatters j;
     ChangeHome := ChangeHome j; Requirements := Requirements j; ReservedBy := ReservedBy j;
     UntilBuried := UntilBuried j; Pid := Pid j; ActualCwd := ActualCwd j;
     Exited := true; Exitcode := jes_Exitcode e; PeakRAM := jes_PeakRAM e;
     CPUtime := jes_CPUtime e; StdOutC := StdOutC j; StdErrC := StdErrC j;
     FailReason := FailReason j; State := State j |}.
Definition actualCwd (v : string) (j : Job) : Job :=
  {| Cmd := Cmd j; Cwd := Cwd j; CwdMatters := CwdMatters j;
     ChangeHome := ChangeHome j; Requirements := Requirements j; ReservedBy := ReservedBy j;
     UntilBuried := UntilBuried j; Pid := Pid j; ActualCwd := v;
     Exited := Exited j; Exitcode := Exitcode j; PeakRAM := PeakRAM j;
     CPUtime := CPUtime j; StdOutC := StdOutC j; StdErrC := StdErrC j;
     FailReason := FailReason j; State := State j |}.
Definition stdOutC (v : bytes) (j : Job) : Job :=
  {| Cmd := Cmd j; Cwd := Cwd j; CwdMatters := CwdMatters j;
     ChangeHome := ChangeHome j; Requirements := Requirements j; ReservedBy := ReservedBy j;
     UntilBuried := UntilBuried j; Pid := Pid j; ActualCwd := ActualCwd j;
     Exited := Exited j; Exitcode := Exitcode j; PeakRAM := PeakRAM j;
     CPUtime := CPUtime j; StdOutC := v; StdErrC := StdErrC j;
     FailReason := FailReason j; State := State j |}.
Definition stdErrC (v : bytes) (j : Job) : Job :=
  {| Cmd := Cmd j; Cwd := Cwd j; CwdMatters := CwdMatters j;
     ChangeHome := ChangeHome j; Requirements := Requirements j; ReservedBy := ReservedBy j;
     UntilBuried := UntilBuried j; Pid := Pid j; ActualCwd := ActualCwd j;
     Exited := Exited j; Exitcode := Exitcode j; PeakRAM := PeakRAM j;
     CPUtime := CPUtime j; StdOutC := StdOutC j; StdErrC := v;
     FailReason := FailReason j; State := State j |}.
Definition failReason (v : string) (j : Job) : Job :=
  {| Cmd := Cmd j; Cwd := Cwd j; CwdMatters := CwdMatters j;
     ChangeHome := ChangeHome j; Requirements := Requirements j; ReservedBy := ReservedBy j;
     UntilBuried := UntilBuried j; Pid := Pid j; ActualCwd := ActualCwd j;
     Exited := Exited j; Exitcode := Exitcode j; PeakRAM := PeakRAM j;
     CPUtime := CPUtime j; StdOutC := StdOutC j; StdErrC := StdErrC j;
     FailReason := v; State := State j |}.
Definition state (v : JobState) (j : Job) : Job :=
  {| Cmd := Cmd j; Cwd := Cwd j; CwdMatters := CwdMatters j;
     ChangeHome := ChangeHome j; Requirements := Requirements j; ReservedBy := ReservedBy j;
     UntilBuried := UntilBuried j; Pid := Pid j; ActualCwd := ActualCwd j;
     Exited := Exited j; Exitcode := Exitcode j; PeakRAM := PeakRAM j;
     CPUtime := CPUtime j; StdOutC := StdOutC j; StdErrC := StdErrC j;
     FailReason := FailReason j; State := v |}.
Definition untilBuried (v : Z) (j : Job) : Job :=
  {| Cmd := Cmd j; Cwd := Cwd j; CwdMatters := CwdMatters j;
     ChangeHome := ChangeHome j; Requirements := Requirements j; ReservedBy := ReservedBy j;
     UntilBuried := v; Pid := Pid j; ActualCwd := ActualCwd j;
     Exited := Exited j; Exitcode := Exitcode j; PeakRAM := PeakRAM j;
     CPUtime := CPUtime j; StdOutC := StdOutC j; StdErrC := StdErrC j;
     FailReason := FailReason j; State := State j |}.
Definition recs (v : scheduler_Requirements) (j : Job) : Job :=
  {| Cmd := Cmd j; Cwd := Cwd j; CwdMatters := CwdMatters j;
     ChangeHome := ChangeHome j; Requirements := v; ReservedBy := ReservedBy j;
     UntilBuried := UntilBuried j; Pid := Pid j; ActualCwd := ActualCwd j;
     Exited := Exited j; Exitcode := Exitcode j; PeakRAM := PeakRAM j;
     CPUtime := CPUtime j; StdOutC := StdOutC j; StdErrC := StdErrC j;
     FailReason := FailReason j; State := State j |}.
End JobSet.

(** clientRequest is the struct that clients send to the server.  The fields
    that the methods modelled here never set (Env, GetEnv, GetStd,
    IgnoreComplete, Jobs, Keys, Limit, State, File, Path) stay at Go's zero
    value in every request below and are left out. *)
Record clientRequest := {
  rq_ClientID       : UUID;
  rq_FirstReserve   : bool;
  rq_Job            : option Job;
  rq_JobEndState    : option JobEndState;
  rq_Method         : string;
  rq_SchedulerGroup : string;
  rq_Timeout        : Duration;
  rq_Token          : bytes
}.

(** The zero-valued request with the given method. *)
Definition mkRequest (method : string) : clientRequest :=
  {| rq_ClientID := 0%N; rq_FirstReserve := false; rq_Job := None;
     rq_JobEndState := None; rq_Method := method; rq_SchedulerGroup := "";
     rq_Timeout := 0; rq_Token := [] |}.

(** Modelled from the spec: serverResponse (declared outside the sources at
    hand), with the fields the methods below read. *)
Record serverResponse := {
  sr_Job        : option Job;
  sr_KillCalled : bool;
  sr_Err        : string
}.

(** Client represents the client side of the socket.  The two mutexes are
    modelled in [Locks] below. *)
Record Client := {
  clientid    : UUID;
  hasReserved : bool;
  token       : bytes
}.

(** What the socket and the codec do with one request: where the exchange
    stops, or the response that was decoded. *)
Inductive Exchange :=
| EncodeFailed (e : error)
| SendFailed (e : error)
| RecvFailed (e : error)
| DecodeFailed (e : error)
| Decoded (sr : serverResponse).

(** The (response, error) pair that [request] returns: its three shapes. *)
Inductive Reply :=
| Failed (e : error)                           (* return nil, err *)
| ServerErr (sr : serverResponse) (e : error)  (* return sr, Error{...} *)
| Succeeded (sr : serverResponse).             (* return sr, nil *)

Definition reply_err (r : Reply) : option error :=
  match r with
  | Failed e | ServerErr _ e => Some e
  | Succeeded _ => None
  end.

(* ===================================================================== *)
(** ** The job client API *)

Section ClientAPI.

(** Helpers of the package that live outside the sources at hand, taken as
    parameters:
    - [compress] byte-compresses a slice, returning Go's pair
      (compressed, err);
    - [errText] is the [Error()] method of Go's error values;
    - [key] is [Job.key()], the opaque key of a job;
    - [recsAfterFailure] stands for [Job.updateRecsAfterFailure()], which
      adjusts the job's resource requirements after a failed run: it gives
      the requirements the job has afterwards. *)
Variable compress : bytes -> bytes * option error.
Variable errText : error -> string.
Variable key : Job -> string.
Variable recsAfterFailure : Job -> scheduler_Requirements.

(** request the server do something and get back its response. *)
Definition request (c : Client) (cr : clientRequest) (x : Exchange)
  : clientRequest * Reply :=
  let cr := {| rq_ClientID := clientid c;
               rq_FirstReserve := rq_FirstReserve cr;
               rq_Job := rq_Job cr;
               rq_JobEndState := rq_JobEndState cr;
               rq_Method := rq_Method cr;
               rq_SchedulerGroup := rq_SchedulerGroup cr;
               rq_Timeout := rq_Timeout cr;
               rq_Token := token c |} in
  match x with
  | EncodeFailed e | SendFailed e | RecvFailed e | DecodeFailed e =>
      (cr, Failed e)
  | Decoded sr =>
      if negb (sr_Err sr =? "")%string then
        let k := match rq_Job cr with Some j => key j | None => "" end in
        (cr, ServerErr sr (Error (rq_Method cr) k (sr_Err sr)))
      else (cr, Succeeded sr)
  end.

(** The prologue shared by Reserve and ReserveScheduled:
    [fr := false; if !c.hasReserved { fr = true; c.hasReserved = true }]. *)
Definition firstReserve (c : Client) : bool * Client :=
  if negb (hasReserved c)
  then (true, {| clientid := clientid c; hasReserved := true; token := token c |})
  else (false, c).

(** Reserve takes a job off the jobqueue.  The result is the client
    afterwards, the request as it was handed to the socket, and Go's pair
    (job, err). *)
Definition Reserve (c : Client) (timeout : Duration) (x : Exchange)
  : Client * clientRequest * (option Job * option error) :=
  let '(fr, c) := firstReserve c in
  let '(cr, r) :=
    request c {| rq_ClientID := 0%N; rq_FirstReserve := fr; rq_Job := None;
                 rq_JobEndState := None; rq_Method := "reserve";
                 rq_SchedulerGroup := ""; rq_Timeout := timeout;
                 rq_Token := [] |} x in
  match r with
  | Failed e | ServerErr _ e => (c, cr, (None, Some e))
  | Succeeded sr => (c, cr, (sr_Job sr, None))
  end.

(** ReserveScheduled is like Reserve(), except that it will only return
    jobs from the specified schedulerGroup. *)
Definition ReserveScheduled (c : Client) (timeout : Duration)
           (schedulerGroup : string) (x : Exchange)
  : Client * clientRequest * (option Job * option error) :=
  let '(fr, c) := firstReserve c in
  let '(cr, r) :=
    request c {| rq_ClientID := 0%N; rq_FirstReserve := fr; rq_Job := None;
                 rq_JobEndState := None; rq_Method := "reserve";
                 rq_SchedulerGroup := schedulerGroup; rq_Timeout := timeout;
                 rq_Token := [] |} x in
  match r with
  | Failed e | ServerErr _ e => (c, cr, (None, Some e))
  | Succeeded sr => (c, cr, (sr_Job sr, None))
  end.

(** A request about one job, with or without an end state. *)
Definition jobRequest (method : string) (job : Job) (jes : option JobEndState)
  : clientRequest :=
  {| rq_ClientID := 0%N; rq_FirstReserve := false; rq_Job := Some job;
     rq_JobEndState := jes; rq_Method := method; rq_SchedulerGroup := "";
     rq_Timeout := 0; rq_Token := [] |}.

(** Touch adds to a job's ttr.  If the returned bool is true, Kill() has
    been called for this job. *)
Definition Touch (c : Client) (job : Job) (x : Exchange) : bool * option error :=
  match snd (request c (jobRequest "jtouch" job None) x) with
  | Failed e | ServerErr _ e => (false, Some e)
  | Succeeded sr => (sr_KillCalled sr, None)
  end.

(** ended updates a Job for the benefit of the client only. *)
Definition ended (job : Job) (jes : option JobEndState) : Job * option error :=
  match jes with
  | None => (job, None)
  | Some e =>
      if negb (jes_Exited e) then (job, None)
      else
        let job := JobSet.ended_fields job e in
        let job := if negb (jes_Cwd e =? "")%string
                   then JobSet.actualCwd (jes_Cwd e) job else job in
        let '(job, err) :=
          if nonempty (jes_Stdout e)
          then let '(z, err) := compress (jes_Stdout e) in
               (JobSet.stdOutC z job, err)
          else (job, None) in
        match err with
        | Some _ => (job, err)
        | None =>
            if nonempty (jes_Stderr e)
            then let '(z, err) := compress (jes_Stderr e) in
                 (JobSet.stdErrC z job, err)
            else (job, None)
        end
  end.

(** Archive removes a job from the jobqueue and adds it to the database of
    complete jobs. *)
Definition Archive (c : Client) (job : Job) (jes : option JobEndState)
           (x : Exchange) : Job * option error :=
  let '(job, err) := ended job jes in
  match err with
  | Some _ => (job, err)
  | None =>
      match snd (request c (jobRequest "jarchive" job jes) x) with
      | Failed e | ServerErr _ e => (job, Some e)
      | Succeeded _ => (JobSet.state JobStateComplete job, None)
      end
  end.

(** Release places a job back on the jobqueue. *)
Definition Release (c : Client) (job : Job) (jes : option JobEndState)
           (failreason : string) (x : Exchange) : Job * option error :=
  let '(job, err) := ended job jes in
  match err with
  | Some _ => (job, err)
  | None =>
      let job := JobSet.failReason failreason job in
      match snd (request c (jobRequest "jrelease" job jes) x) with
      | Failed e | ServerErr _ e => (job, Some e)
      | Succeeded _ =>
          (* update our process with what the server would have done *)
          let job :=
            if Exited job && negb (Exitcode job =? 0)%Z
            then let job := JobSet.untilBuried (UntilBuried job - 1) job in
                 JobSet.recs (recsAfterFailure job) job
            else job in
          if (UntilBuried job <=? 0)%Z
          then (JobSet.state JobStateBuried job, None)
          else (JobSet.state JobStateDelayed job, None)
      end
  end.

(** Bury marks a job as unrunnable.  [stderr] is the variadic argument
    [stderr ...error]: a slice of possibly nil errors. *)
Definition Bury (c : Client) (job : Job) (jes : option JobEndState)
           (failreason : string) (stderr : list (option error))
           (x : Exchange) : Job * option error :=
  let '(job, err) := ended job jes in
  match err with
  | Some _ => (job, err)
  | None =>
      let job := JobSet.failReason failreason job in
      let '(job, err) :=
        match stderr with
        | [Some e] =>
            let '(z, err) := compress (list_byte_of_string (errText e)) in
            (JobSet.stdErrC z job, err)
        | _ => (job, None)
        end in
      match err with
      | Some _ => (job, err)
      | None =>
          match snd (request c (jobRequest "jbury" job jes) x) with
          | Failed e | ServerErr _ e => (job, Some e)
          | Succeeded _ => (JobSet.state JobStateBuried job, None)
          end
      end
  end.

End ClientAPI.

(* ===================================================================== *)
(** ** Execute: the command handed to the shell *)

(** [jc := job.Cmd; if strings.Contains(jc, " | ") { jc = "set -o pipefail; " + jc }] *)
Definition pipefailPrefix : string := "set -o pipefail; ".

Definition shellCommand (jobCmd : string) : string :=
  if Strings.Contains jobCmd " | " then (pipefailPrefix ++ jobCmd)%string
  else jobCmd.

(** [exec.Command(shell, "-c", jc)]: the program and its arguments. *)
Definition execCommand (shell : string) (job : Job) : list string :=
  [shell; "-c"; shellCommand (Cmd job)].

(* ===================================================================== *)
(** ** Execute: the supervisory task *)

(** What the supervisor and the post-run code do to the outside world, in
    the order they do it. *)
Inductive EndCall := CallBury | CallRelease | CallArchive.

Inductive Effect :=
| EKill                      (* cmd.Process.Kill() *)
| ETouch                     (* c.Touch(job) *)
| ECloseReaders              (* errReader.Close(); outReader.Close() *)
| ETrigger (success : bool)  (* job.TriggerBehaviours(success) *)
| EUnmount                   (* job.Unmount() *)
| ECall (m : EndCall)        (* c.Bury / c.Release / c.Archive *)
| ESleep (d : Duration).     (* <-time.After(d) *)

(** The variables the supervisory goroutine shares with Execute. *)
Record SupState := {
  peakmem    : Z;
  ranoutMem  : bool;
  ranoutTime : bool;
  signalled  : bool;
  killCalled : bool;
  killErr    : option error;
  closeErr   : option error;
  trace      : list Effect
}.

Definition supInit : SupState :=
  {| peakmem := 0; ranoutMem := false; ranoutTime := false; signalled := false;
     killCalled := false; killErr := None; closeErr := None; trace := [] |}.

(** One receive of the goroutine's select. *)
Inductive SupEvent :=
| Signal                                   (* <-sigs *)
| TouchTick (now : Z) (x : Exchange)       (* <-ticker.C at time [now]; [x] is
                                              what the touch exchange does *)
| MemTick (mem : Z) (errf : option error)  (* <-memTicker.C, with the result of
                                              currentMemory(job.Pid) *)
| StopChecking.                            (* <-stopChecking *)

(** How the child and its pipes answer a kill and a close. *)
Record ProcEnv := {
  killResult     : option error;
  closeErrReader : option error;
  closeOutReader : option error
}.

Section Supervisor.

Variable key : Job -> string.
Variable c : Client.
Variable job : Job.
Variable endT : Z.          (* time.Now().Add(job.Requirements.Time) *)
Variable pe : ProcEnv.

(** [errc := errReader.Close(); if errc != nil { closeErr = errc };
     errc = outReader.Close(); if errc != nil { closeErr = errc }] *)
Definition closeReaders (old : option error) : option error :=
  let ce := match closeErrReader pe with Some e => Some e | None => old end in
  match closeOutReader pe with Some e => Some e | None => ce end.

(** The body of one iteration of the goroutine's [for { select { ... } }]:
    the state afterwards and whether the goroutine goes on (false after
    [return]). *)
Definition supStep (ev : SupEvent) (s : SupState) : SupState * bool :=
  match ev with
  | Signal =>
      ({| peakmem := peakmem s; ranoutMem := ranoutMem s;
          ranoutTime := ranoutTime s; signalled := true;
          killCalled := killCalled s; killErr := killResult pe;
          closeErr := closeReaders (closeErr s);
          trace := trace s ++ [EKill; ECloseReaders] |}, false)
  | TouchTick now x =>
      let rt := if negb (ranoutTime s) && (endT <? now)%Z
                then true else ranoutTime s in
      let '(kc, errf) := Touch key c job x in
      if kc then
        ({| peakmem := peakmem s; ranoutMem := ranoutMem s;
            ranoutTime := rt; signalled := signalled s;
            killCalled := true; killErr := killResult pe;
            closeErr := closeReaders (closeErr s);
            trace := trace s ++ [ETouch; EKill; ECloseReaders] |}, false)
      else
        ({| peakmem := peakmem s; ranoutMem := ranoutMem s;
            ranoutTime := rt; signalled := signalled s;
            killCalled := killCalled s; killErr := killErr s;
            closeErr := closeErr s;
            trace := trace s ++ [ETouch] |}, true)
  | MemTick mem errf =>
      if is_nil errf && (peakmem s <? mem)%Z then
        if (RAM (Requirements job) <? mem)%Z then
          ({| peakmem := mem; ranoutMem := true;
              ranoutTime := ranoutTime s; signalled := signalled s;
              killCalled := killCalled s; killErr := killResult pe;
              closeErr := closeErr s;
              trace := trace s ++ [EKill] |}, false)
        else
          ({| peakmem := mem; ranoutMem := ranoutMem s;
              ranoutTime := ranoutTime s; signalled := signalled s;
              killCalled := killCalled s; killErr := killErr s;
              closeErr := closeErr s; trace := trace s |}, true)
      else (s, true)
  | StopChecking => (s, false)
  end.

(** The goroutine: it handles the events in the order it receives them,
    until one of them makes it return.  Events after that are never
    received. *)
Fixpoint supervise (evs : list SupEvent) (s : SupState) : SupState :=
  match evs with
  | [] => s
  | ev :: rest =>
      let '(s', go) := supStep ev s in
      if go then supervise rest s' else s'
  end.

(** The events that the goroutine did receive. *)
Fixpoint handled (evs : list SupEvent) (s : SupState) : list SupEvent :=
  match evs with
  | [] => []
  | ev :: rest =>
      let '(s', go) := supStep ev s in
      if go then ev :: handled rest s' else [ev]
  end.

End Supervisor.

(** The number of kills in a trace. *)
Fixpoint kills (t : list Effect) : nat :=
  match t with
  | [] => 0
  | EKill :: r => S (kills r)
  | _ :: r => kills r
  end.

(* ===================================================================== *)
(** ** Execute: after the child has exited *)

(** What [cmd.Wait()] returned, with the exit status that Execute reads off
    the process state in each case:
    - [WaitNil status]: err == nil; status is
      cmd.ProcessState.Sys().(syscall.WaitStatus).ExitStatus();
    - [WaitExitError status e]: err is the *exec.ExitError [e]; status is
      exitError.Sys().(syscall.WaitStatus).ExitStatus(), which is -1 when
      the child was ended by a signal;
    - [WaitOther e]: any other error; no exit status is read. *)
Inductive WaitResult :=
| WaitNil (status : Z)
| WaitExitError (status : Z) (e : error)
| WaitOther (e : error).

(** The contract of os/exec: Wait returns nil exactly for a child that
    exited with status 0, and an ExitError carries a status other than 0. *)
Definition waitContract (w : WaitResult) : Prop :=
  match w with
  | WaitNil status => status = 0
  | WaitExitError status _ => status <> 0
  | WaitOther _ => True
  end.

Definition waitErr (w : WaitResult) : option error :=
  match w with
  | WaitNil _ => None
  | WaitExitError _ e | WaitOther e => Some e
  end.


(** What a [cmd.Wait()] that collected the child's exit returned: nil, or
    an *exec.ExitError.  cmd.ProcessState is set in these two cases and in
    no other: Execute gives the command pipes of its own (StdoutPipe,
    StderrPipe) and no Stdin, so Wait has no copying goroutine whose error
    it could return; any other error is that of Process.Wait, which leaves
    cmd.ProcessState nil. *)
Inductive Exit :=
| ExitNil (status : Z)
| ExitErr (status : Z) (e : error).

Definition waitOf (x : Exit) : WaitResult :=
  match x with
  | ExitNil status => WaitNil status
  | ExitErr status e => WaitExitError status e
  end.

(** The local variables of Execute that hold the decision. *)
Record Verdict := {
  exitcode   : Z;
  dobury     : bool;
  dorelease  : bool;
  doarchive  : bool;
  failreason : string;
  myerr      : option error
}.

(** The [if dobury ... else if dorelease ... else if doarchive ...] chain of
    the report loop: the method it calls, if any. *)
Definition dispatch (v : Verdict) : option EndCall :=
  if dobury v then Some CallBury
  else if dorelease v then Some CallRelease
  else if doarchive v then Some CallArchive
  else None.

(** [if peakmem == 0 { ... ru.Maxrss ... }] *)
Definition seedPeakmem (darwin : bool) (maxrss : Z) (pm : Z) : Z :=
  if (pm =? 0)%Z then
    if darwin then Z.quot (Z.quot maxrss 1024) 1024   (* Maxrss values are bytes *)
    else Z.quot maxrss 1024                            (* Maxrss values are kb *)
  else pm.

(** [ourmem, cmerr := currentMemory(os.Getpid()); if cmerr != nil { ourmem = 10 };
     peakmem += ourmem] *)
Definition ourmem (probe : Z * option error) : Z :=
  match snd probe with
  | Some _ => 10
  | None => fst probe
  end.

Definition addOurmem (probe : Z * option error) (pm : Z) : Z :=
  wrap64 (pm + ourmem probe).

(** The peak memory Execute reports, from what the supervisory task left in
    [peakmem]. *)
Definition reportedPeakmem (darwin : bool) (maxrss : Z)
           (probe : Z * option error) (pm : Z) : Z :=
  addOurmem probe (seedPeakmem darwin maxrss pm).

(** get the exit code and figure out what to do with the Job *)
Definition classify (key : Job -> string) (job : Job) (w : WaitResult)
           (s : SupState) : Verdict :=
  let mayBeTemp :=
    if (1 <? UntilBuried job)%Z
    then ", which may be a temporary issue, so it will be tried again"
    else "" in
  match w with
  | WaitExitError code _ =>
      if (code =? 126)%Z then
        {| exitcode := code; dobury := true; dorelease := false;
           doarchive := false; failreason := FailReasonCPerm;
           myerr := Some (Errorf "command [%s] exited with code %d (permission problem, or command is not executable), which seems permanent, so it has been buried"
                                 [FStr (Cmd job); FInt code]) |}
      else if (code =? 127)%Z then
        {| exitcode := code; dobury := true; dorelease := false;
           doarchive := false; failreason := FailReasonCFound;
           myerr := Some (Errorf "command [%s] exited with code %d (command not found), which seems permanent, so it has been buried"
                                 [FStr (Cmd job); FInt code]) |}
      else if (code =? 128)%Z then
        {| exitcode := code; dobury := true; dorelease := false;
           doarchive := false; failreason := FailReasonCExit;
           myerr := Some (Errorf "command [%s] exited with code %d (invalid exit code), which seems permanent, so it has been buried"
                                 [FStr (Cmd job); FInt code]) |}
      else if ranoutMem s then
        {| exitcode := code; dobury := false; dorelease := true;
           doarchive := false; failreason := FailReasonRAM;
           myerr := Some (Error "Execute" (key job) FailReasonRAM) |}
      else if signalled s then
        if ranoutTime s then
          {| exitcode := code; dobury := false; dorelease := true;
             doarchive := false; failreason := FailReasonTime;
             myerr := Some (Error "Execute" (key job) FailReasonTime) |}
        else
          {| exitcode := code; dobury := false; dorelease := true;
             doarchive := false; failreason := FailReasonSignal;
             myerr := Some (Error "Execute" (key job) FailReasonSignal) |}
      else if killCalled s then
        {| exitcode := code; dobury := true; dorelease := true;
           doarchive := false; failreason := FailReasonKilled;
           myerr := Some (Error "Execute" (key job) FailReasonKilled) |}
      else
        {| exitcode := code; dobury := false; dorelease := true;
           doarchive := false; failreason := FailReasonExit;
           myerr := Some (Errorf "command [%s] exited with code %d%s"
                                 [FStr (Cmd job); FInt code; FStr mayBeTemp]) |}
  | WaitOther e =>
      (* some obscure internal error unrelated to the exit code *)
      {| exitcode := 255; dobury := false; dorelease := true;
         doarchive := false; failreason := FailReasonAbnormal;
         myerr := Some (Errorf "command [%s] failed to complete normally (%v)%s"
                               [FStr (Cmd job); FErr e; FStr mayBeTemp]) |}
  | WaitNil status =>
      (* the command worked fine *)
      {| exitcode := status; dobury := false; dorelease := false;
         doarchive := true; failreason := ""; myerr := None |}
  end.

(** What the rest of Execute observes of the outside world once the
    supervisory task has been told to stop, when cmd.Wait() collected the
    child's exit: there is a cmd.ProcessState then, of which [po_maxrss]
    and [po_systemTime] are read. *)
Record PostEnv := {
  po_exit       : Exit;                (* cmd.Wait() *)
  po_darwin     : bool;                (* runtime.GOOS == "darwin" *)
  po_maxrss     : Z;                   (* cmd.ProcessState.SysUsage(): Maxrss *)
  po_systemTime : Duration;            (* cmd.ProcessState.SystemTime() *)
  po_selfmem    : Z * option error;    (* currentMemory(os.Getpid()) *)
  po_stderr     : bytes;               (* stderr.Bytes() *)
  po_stdout     : bytes;               (* stdout.Bytes() *)
  po_errsew     : option error;        (* <-stderrWait *)
  po_errsow     : option error;        (* <-stdoutWait *)
  po_berr       : option error;        (* the first job.TriggerBehaviours *)
  po_unmount    : string * option error;  (* job.Unmount(): logs, error *)
  po_net        : Z -> Exchange;       (* the exchange of report attempt retryNum *)
  po_errt       : option error         (* the second job.TriggerBehaviours *)
}.

(** [err] after [err = cmd.Wait()]. *)
Definition po_wait (po : PostEnv) : WaitResult := waitOf (po_exit po).

(** What cmd.Wait() did: it collected the child's exit, or it failed with
    an error of Process.Wait. *)
Inductive Waited :=
| Collected (po : PostEnv)
| WaitFailed (e : error).

(** How a call of Execute ends: it returns its error, or it panics. *)
Inductive Ending :=
| Returns (err : option error)
| Panics.

Definition maxRetries : Z := 300.

(** The bytes of "\n\n<title>\n", as appended to the captured output. *)
Definition LF : string := String (ascii_of_nat 10) "".
Definition header (title : string) : bytes :=
  list_byte_of_string (LF ++ LF ++ title ++ LF)%string.

Section ExecuteRun.

Variable compress : bytes -> bytes * option error.
Variable errText : error -> string.
Variable key : Job -> string.
Variable recsAfterFailure : Job -> scheduler_Requirements.
(** bytes.TrimSpace *)
Variable TrimSpace : bytes -> bytes.

(** [if other != nil { if myerr != nil { myerr = fmt.Errorf(format,
    myerr.Error(), other.Error()) } else { myerr = other } }] *)
Definition alsoFailed (format : string) (other mine : option error)
  : option error :=
  match other with
  | None => mine
  | Some o =>
      match mine with
      | Some m => Some (Errorf format [FStr (errText m); FStr (errText o)])
      | None => Some o
      end
  end.

Definition withMyerr (e : option error) (v : Verdict) : Verdict :=
  {| exitcode := exitcode v; dobury := dobury v; dorelease := dorelease v;
     doarchive := doarchive v; failreason := failreason v; myerr := e |}.

(** The body of [if strings.Contains(unmountErr.Error(), "failed to upload")]. *)
Definition uploadFailed (v : Verdict) : Verdict :=
  {| exitcode := if (exitcode v =? 0)%Z then -2 else exitcode v;
     dobury := dobury v;
     dorelease := if negb (dobury v) then true else dorelease v;
     doarchive := doarchive v;
     failreason := if (failreason v =? "")%string then FailReasonUpload
                   else failreason v;
     myerr := myerr v |}.

(** [if unmountErr != nil { ... }] *)
Definition afterUnmount (unmountErr : option error) (v : Verdict) : Verdict :=
  match unmountErr with
  | None => v
  | Some ue =>
      let v := if Strings.Contains (errText ue) "failed to upload"
               then uploadFailed v else v in
      withMyerr (alsoFailed "%s; unmounting also caused problem(s): %s"
                            unmountErr (myerr v)) v
  end.

(** One call of the report loop's chain; [err] keeps its value when no
    branch is taken. *)
Definition reportOnce (c : Client) (v : Verdict) (jes : JobEndState)
           (job : Job) (err : option error) (x : Exchange)
  : Job * option error * list Effect :=
  match dispatch v with
  | Some CallBury =>
      let '(job, err) := Bury compress errText key c job (Some jes)
                              (failreason v) [] x in
      (job, err, [ECall CallBury])
  | Some CallRelease =>
      let '(job, err) := Release compress key recsAfterFailure c job
                                 (Some jes) (failreason v) x in
      (job, err, [ECall CallRelease])
  | Some CallArchive =>
      let '(job, err) := Archive compress key c job (Some jes) x in
      (job, err, [ECall CallArchive])
  | None => (job, err, [])
  end.

(** [for retryNum := 0; retryNum < maxRetries; retryNum++ { ... }], with
    [n] the number of iterations still allowed: maxRetries - retryNum.
    The result is the job, the last [err], [worked] and what was done. *)
Fixpoint reportLoop (n : nat) (retryNum : Z) (c : Client) (v : Verdict)
         (jes : JobEndState) (net : Z -> Exchange) (job : Job)
         (err : option error)
  : Job * option error * bool * list Effect :=
  match n with
  | O => (job, err, false, [])
  | S n' =>
      let '(job, err, eff) := reportOnce c v jes job err (net retryNum) in
      match err with
      | Some _ =>
          let d := wrap64 (wrap64 (retryNum * 100)%Z * Millisecond)%Z in
          let '(job, err, worked, rest) :=
            reportLoop n' (retryNum + 1)%Z c v jes net job err in
          (job, err, worked, eff ++ ESleep d :: rest)
      | None => (job, None, true, eff)
      end
  end.

(** The decision as it stands when the behaviours are about to run: the
    classification of what cmd.Wait() returned, with a failed kill and a
    failed close added to [myerr]. *)
Definition decided (w : WaitResult) (job : Job) (s : SupState) : Verdict :=
  let v := classify key job w s in
  let v := withMyerr (alsoFailed "%s; killing the cmd also failed: %s"
                                 (killErr s) (myerr v)) v in
  withMyerr (alsoFailed "%s; closing stderr/out of the cmd also failed: %s"
                        (closeErr s) (myerr v)) v.

Definition beforeBehaviours (job : Job) (s : SupState) (po : PostEnv) : Verdict :=
  decided (po_wait po) job s.

(** ... when Unmount is about to be called. *)
Definition beforeUnmount (job : Job) (s : SupState) (po : PostEnv) : Verdict :=
  let v := beforeBehaviours job s po in
  withMyerr (alsoFailed "%s; behaviour(s) also had problem(s): %s"
                        (po_berr po) (myerr v)) v.

(** ... and when the report loop starts. *)
Definition settled (job : Job) (s : SupState) (po : PostEnv) : Verdict :=
  afterUnmount (snd (po_unmount po)) (beforeUnmount job s po).

(** The captured stderr as it is reported. *)
Definition finalStdErr (job : Job) (s : SupState) (po : PostEnv) : bytes :=
  let out := TrimSpace (po_stderr po) in
  let addMountLogs :=
    dobury (beforeUnmount job s po) || dorelease (beforeUnmount job s po) in
  let logs := fst (po_unmount po) in
  let v := settled job s po in
  let out :=
    if addMountLogs && negb (logs =? "")%string
    then out ++ header "Mount logs:" ++ list_byte_of_string logs
    else out in
  let out :=
    match po_berr po with
    | Some be =>
        if dobury v || dorelease v
        then out ++ header "Behaviour problems:" ++ list_byte_of_string (errText be)
        else out
    | None => out
    end in
  match po_errsew po with
  | Some e => out ++ header "STDERR handling problems:"
                  ++ list_byte_of_string (errText e)
  | None => out
  end.

(** The captured stdout as it is reported. *)
Definition finalStdOut (po : PostEnv) : bytes :=
  let out := TrimSpace (po_stdout po) in
  match po_errsow po with
  | Some e => out ++ header "STDOUT handling problems:"
                  ++ list_byte_of_string (errText e)
  | None => out
  end.

(** The JobEndState that the report loop sends.  It is built from
    cmd.ProcessState, which is there because [po] is what Execute sees
    after a wait that collected the child's exit; after a wait that failed
    Execute panics before it has one (see [ExecuteLaunched]). *)
Definition endState (job : Job) (actualCwd : string) (s : SupState)
           (po : PostEnv) : JobEndState :=
  {| jes_Cwd := actualCwd;
     jes_Exitcode := exitcode (settled job s po);
     jes_PeakRAM := reportedPeakmem (po_darwin po) (po_maxrss po)
                                    (po_selfmem po) (peakmem s);
     jes_CPUtime := po_systemTime po;
     jes_Stdout := finalStdOut po;
     jes_Stderr := finalStdErr job s po;
     jes_Exited := true |}.

(** Execute, from the launch of the supervisory task to its return, when
    cmd.Wait() collected the child's exit (see [ExecuteLaunched] for a wait
    that failed): the job afterwards, the error returned, and what was
    done.  [actualCwd] is
    the working directory chosen before the start ("" when CwdMatters),
    [evs] the events the goroutine is offered before the child has exited.
    The trace lists what the supervisory task did and then what Execute
    itself does.  The goroutine of the second touch ticker, which touches
    the job while behaviours and unmounting run and changes none of the
    variables below, is not in it; its touches are goroutines of [Locks]. *)
Definition ExecuteRun (c : Client) (job : Job) (actualCwd : string)
           (endT : Z) (pe : ProcEnv) (evs : list SupEvent) (po : PostEnv)
  : Job * option error * list Effect :=
  let s := supervise key c job endT pe evs supInit in
  let err := waitErr (po_wait po) in
  (* run behaviours *)
  let success := is_nil (myerr (beforeBehaviours job s po)) in
  (* try and unmount now; then update our job end state, trying many times *)
  let v := settled job s po in
  let jes := endState job actualCwd s po in
  let '(job', err, worked, eff) :=
    reportLoop (Z.to_nat maxRetries) 0 c v jes (po_net po) job err in
  let before := trace s ++ [ETrigger success; EUnmount] ++ eff in
  if negb worked then
    let extra :=
      match po_errt po with
      | Some e => FSprintf " (and triggering behaviours failed: %s)" [FErr e]
      | None => FStr ""
      end in
    (job',
     Some (Errorf "command [%s] finished running, but will need to be rerun due to a jobqueue server error: %s%s"
                  [FStr (Cmd job'); FOptErr err; extra]),
     before ++ [ETrigger false])
  else (job', myerr v, before).

(** Execute, from the launch of the supervisory task on, whatever cmd.Wait()
    returned.  When the wait fails cmd.ProcessState stays nil, and Execute
    panics where it first reads it: at cmd.ProcessState.SysUsage() if no
    memory sample had set [peakmem], else (the behaviours having been
    triggered and the job unmounted) at cmd.ProcessState.SystemTime(), where
    the JobEndState is built.  The job is as it was and the server has been
    told nothing. *)
Definition ExecuteLaunched (c : Client) (job : Job) (actualCwd : string)
           (endT : Z) (pe : ProcEnv) (evs : list SupEvent) (w : Waited)
  : Job * Ending * list Effect :=
  match w with
  | Collected po =>
      let '(job', ret, tr) := ExecuteRun c job actualCwd endT pe evs po in
      (job', Returns ret, tr)
  | WaitFailed e =>
      let s := supervise key c job endT pe evs supInit in
      if (peakmem s =? 0)%Z then (job, Panics, trace s)
      else
        (* run behaviours; try and unmount now *)
        let success := is_nil (myerr (decided (WaitOther e) job s)) in
        (job, Panics, trace s ++ [ETrigger success; EUnmount])
  end.

End ExecuteRun.

(* ===================================================================== *)
(** ** A client making reserve calls in sequence *)

Inductive ReserveCall :=
| DoReserve (timeout : Duration)
| DoReserveScheduled (timeout : Duration) (schedulerGroup : string).

Section ReserveCalls.

Variable key : Job -> string.

(** The calls are made one after the other on the same client; each comes
    with what its exchange does.  The result lists, per call, the request
    handed to the socket and Go's (job, err). *)
Fixpoint reserveCalls (c : Client) (calls : list (ReserveCall * Exchange))
  : Client * list (clientRequest * (option Job * option error)) :=
  match calls with
  | [] => (c, [])
  | (call, x) :: rest =>
      let '(c, cr, res) :=
        match call with
        | DoReserve t => Reserve key c t x
        | DoReserveScheduled t g => ReserveScheduled key c t g x
        end in
      let '(c, out) := reserveCalls c rest in
      (c, (cr, res) :: out)
  end.

End ReserveCalls.

Definition firstReserveFlags
           (out : list (clientRequest * (option Job * option error))) : list bool :=
  map (fun o => rq_FirstReserve (fst o)) out.

(* ===================================================================== *)
(** ** The specification's reading of the outcome

    These definitions follow the words of the specification, not the code;
    the properties below compare them with the code. *)

Inductive Disposition := bury | release | archive.

Definition dispositionOf (m : EndCall) : Disposition :=
  match m with
  | CallBury => bury
  | CallRelease => release
  | CallArchive => archive
  end.

Record Outcome := {
  o_disposition : Disposition;
  o_reason      : string;
  o_exitcode    : Z
}.

(** What the code decided: the method the report loop calls, the fail reason
    and the exit code it reports. *)
Definition outcome (v : Verdict) : option Outcome :=
  match dispatch v with
  | Some m => Some {| o_disposition := dispositionOf m;
                      o_reason := failreason v;
                      o_exitcode := exitcode v |}
  | None => None
  end.



(** A reserve call is successful when it returns no error. *)
Definition reserveSucceeded (res : option Job * option error) : bool :=
  is_nil (snd res).

(** The flags the specification's sentence asks for: true on the first
    successful call and on no other. *)
Fixpoint firstSuccessfulOnly (results : list (option Job * option error))
  : list bool :=
  match results with
  | [] => []
  | r :: rest =>
      if reserveSucceeded r then true :: map (fun _ => false) rest
      else false :: firstSuccessfulOnly rest
  end.

(** The fields of a job that [ended] may write. *)
Definition endFields (j : Job)
  : bool * Z * Z * Duration * string * bytes * bytes :=
  (Exited j, Exitcode j, PeakRAM j, CPUtime j, ActualCwd j, StdOutC j, StdErrC j).

(** A JobEndState that is nil or whose Exited is false. *)
Definition notExited (jes : option JobEndState) : bool :=
  match jes with
  | None => true
  | Some e => negb (jes_Exited e)
  end.

(** Where the supervisory task kills the child: on a signal, on a touch
    that reports a kill request, on a new memory peak above the limit. *)
Definition killSite (key : Job -> string) (c : Client) (job : Job)
           (ev : SupEvent) (s : SupState) : bool :=
  match ev with
  | Signal => true
  | TouchTick _ x => fst (Touch key c job x)
  | MemTick mem errf =>
      is_nil errf && (peakmem s <? mem) && (RAM (Requirements job) <? mem)
  | StopChecking => false
  end.

(** An exchange that the server answered without an error. *)
Definition exchangeOk (x : Exchange) : bool :=
  match x with
  | Decoded sr => (sr_Err sr =? "")%string
  | _ => false
  end.

(** The durations slept in a trace, and its TriggerBehaviours calls. *)
Fixpoint sleeps (t : list Effect) : list Duration :=
  match t with
  | [] => []
  | ESleep d :: r => d :: sleeps r
  | _ :: r => sleeps r
  end.

Fixpoint triggers (t : list Effect) : list bool :=
  match t with
  | [] => []
  | ETrigger b :: r => b :: triggers r
  | _ :: r => triggers r
  end.

Fixpoint endCalls (t : list Effect) : list EndCall :=
  match t with
  | [] => []
  | ECall m :: r => m :: endCalls r
  | _ :: r => endCalls r
  end.

(** [retriesFrom m i k]: k failed attempts at [m], numbered from i, each
    followed by its sleep of retryNum x 100 ms. *)
Definition retriesFrom (m : EndCall) (i k : nat) : list Effect :=
  flat_map (fun n => [ECall m; ESleep (Z.of_nat n * 100 * Millisecond)])
           (seq i k).

Definition retries (m : EndCall) (k : nat) : list Effect := retriesFrom m 0 k.

(* ===================================================================== *)
(** ** Sample instances of the parameters

    Used to run the model on concrete inputs. *)

(** Error text: the message of an opaque error, the format of a formatted
    one, the reason of the package's own. *)
Definition plainText (e : error) : string :=
  match e with
  | Opaque text => text
  | Errorf format _ => format
  | Error _ _ reason => reason
  end.

(** A compressor that stores its input behind a one-byte header and never
    fails. *)
Definition storeCompress (b : bytes) : bytes * option error :=
  (Byte.x78 :: b, None).

Definition cmdKey (j : Job) : string := Cmd j.

Definition sameRecs (j : Job) : scheduler_Requirements := Requirements j.

Definition sampleJob (cmd : string) : Job :=
  {| Cmd := cmd; Cwd := "/tmp"; CwdMatters := false; ChangeHome := false;
     Requirements := {| RAM := 100; Time := 1000000000; Cores := 1; Disk := 0 |};
     ReservedBy := 7%N; UntilBuried := 3; Pid := 4242; ActualCwd := "";
     Exited := false; Exitcode := 0; PeakRAM := 0; CPUtime := 0;
     StdOutC := []; StdErrC := []; FailReason := "";
     State := JobStateRunning |}.

Definition sampleClient : Client :=
  {| clientid := 7%N; hasReserved := false; token := [] |}.

Definition okResponse : serverResponse :=
  {| sr_Job := None; sr_KillCalled := false; sr_Err := "" |}.

Definition idTrim (b : bytes) : bytes := b.

Definition quietProc : ProcEnv :=
  {| killResult := None; closeErrReader := None; closeOutReader := None |}.

(** A run of "sleep 3; exit 0" against a one-second time limit: memory
    ticks of a few MiB, touch ticks after endT answered without a kill
    request, no signal; the child exits 0, the runner's own memory probe
    reports 4 MiB, and the server answers every request. *)
Definition overrunEvents (endT : Z) : list SupEvent :=
  [ MemTick 3 None;
    TouchTick (endT + 1) (Decoded okResponse);
    MemTick 2 None;
    TouchTick (endT + 2) (Decoded okResponse) ].

Definition overrunPost : PostEnv :=
  {| po_exit := ExitNil 0; po_darwin := false; po_maxrss := 2048;
     po_systemTime := 1000; po_selfmem := (4, None);
     po_stderr := []; po_stdout := []; po_errsew := None; po_errsow := None;
     po_berr := None; po_unmount := (""%string, None);
     po_net := fun _ => Decoded okResponse; po_errt := None |}.

(** The same run with an unmount that could not upload its files. *)
Definition uploadFailPost : PostEnv :=
  {| po_exit := ExitNil 0; po_darwin := false; po_maxrss := 2048;
     po_systemTime := 1000; po_selfmem := (4, None);
     po_stderr := []; po_stdout := []; po_errsew := None; po_errsow := None;
     po_berr := None;
     po_unmount := (""%string, Some (Opaque "unmount: failed to upload 3 files"));
     po_net := fun _ => Decoded okResponse; po_errt := None |}.



(** The client as Connect builds it:
    [&Client{sock: sock, ch: ..., token: token, clientid: u}]. *)
Definition newClient (u : UUID) (tok : bytes) : Client :=
  {| clientid := u; hasReserved := false; token := tok |}.

(** A run of "exit 42": the end state Execute would report. *)
Definition exit42 : JobEndState :=
  {| jes_Cwd := "/tmp/w/cwd"; jes_Exitcode := 42; jes_PeakRAM := 14;
     jes_CPUtime := 1000; jes_Stdout := []; jes_Stderr := [];
     jes_Exited := true |}.

(* ===================================================================== *)
(** ** The two mutexes: goroutines calling Touch and the end-state methods

    Each method is unfolded into the steps that matter for the locks and the
    socket, in program order; goroutines interleave at the granularity of
    these steps.  A [sync.Mutex] is kept as the goroutine holding it, if
    any: Lock can only be taken on a free mutex, Unlock frees it. *)

Module Locks.

Inductive Mutex :=
| teMutex      (* c.teMutex *)
| reqMutex.    (* the sync.Mutex embedded in Client, taken by request *)

Inductive Instr :=
| Lock (m : Mutex)
| Unlock (m : Mutex)
| Send (method : string)     (* c.sock.Send(encoded) *)
| Recv (method : string)     (* c.sock.Recv() *)
| Local.                     (* work on the job or on local variables *)

Section Bodies.

Variable compress : bytes -> bytes * option error.
Variable errText : error -> string.

(** request: [c.Lock(); defer c.Unlock()], encode, send, receive, decode;
    an error at any stage returns at once, through the deferred unlock. *)
Definition requestBody (method : string) (x : Exchange) : list Instr :=
  [Lock reqMutex; Local]
    ++ match x with
       | EncodeFailed _ => []
       | SendFailed _ => [Send method]
       | RecvFailed _ => [Send method; Recv method]
       | DecodeFailed _ | Decoded _ => [Send method; Recv method; Local]
       end
    ++ [Unlock reqMutex].

(** Touch: [c.teMutex.Lock(); defer c.teMutex.Unlock(); c.request(...)]. *)
Definition touchBody (x : Exchange) : list Instr :=
  [Lock teMutex] ++ requestBody "jtouch" x ++ [Unlock teMutex].

(** ended: returns before locking for a nil or not exited end state;
    otherwise updates the job under teMutex. *)
Definition endedBody (jes : option JobEndState) : list Instr :=
  if notExited jes then [] else [Lock teMutex; Local; Unlock teMutex].

(** The update of the job's State (and UntilBuried) that follows a request
    the server answered without an error. *)
Definition stateUpdate (x : Exchange) : list Instr :=
  if exchangeOk x then [Local] else [].

(** Archive: ended; then, unless that failed, the request and the update of
    State under teMutex. *)
Definition archiveBody (job : Job) (jes : option JobEndState) (x : Exchange)
  : list Instr :=
  endedBody jes
    ++ match snd (ended compress job jes) with
       | Some _ => []
       | None => [Lock teMutex] ++ requestBody "jarchive" x
                   ++ stateUpdate x ++ [Unlock teMutex]
       end.

(** Release: as Archive, with FailReason set before the request. *)
Definition releaseBody (job : Job) (jes : option JobEndState) (x : Exchange)
  : list Instr :=
  endedBody jes
    ++ match snd (ended compress job jes) with
       | Some _ => []
       | None => [Lock teMutex; Local] ++ requestBody "jrelease" x
                   ++ stateUpdate x ++ [Unlock teMutex]
       end.

(** Bury: as Release; a failing compression of the optional stderr returns
    before the request. *)
Definition buryBody (job : Job) (jes : option JobEndState)
           (stderr : list (option error)) (x : Exchange) : list Instr :=
  endedBody jes
    ++ match snd (ended compress job jes) with
       | Some _ => []
       | None =>
           [Lock teMutex; Local]
             ++ match stderr with
                | [Some e] =>
                    match snd (compress (list_byte_of_string (errText e))) with
                    | Some _ => []
                    | None => requestBody "jbury" x ++ stateUpdate x
                    end
                | _ => requestBody "jbury" x ++ stateUpdate x
                end
             ++ [Unlock teMutex]
       end.

(** A call made by a goroutine, with what its exchange does. *)
Inductive Call :=
| CTouch (x : Exchange)
| CArchive (job : Job) (jes : option JobEndState) (x : Exchange)
| CRelease (job : Job) (jes : option JobEndState) (x : Exchange)
| CBury (job : Job) (jes : option JobEndState) (stderr : list (option error))
        (x : Exchange).

Definition body (call : Call) : list Instr :=
  match call with
  | CTouch x => touchBody x
  | CArchive job jes x => archiveBody job jes x
  | CRelease job jes x => releaseBody job jes x
  | CBury job jes stderr x => buryBody job jes stderr x
  end.

(** A goroutine that makes the given calls one after the other. *)
Definition program (calls : list Call) : list Instr := flat_map body calls.

End Bodies.

(** The client's mutexes and the goroutines, each with the steps it still
    has to make. *)
Record Sys := {
  holder : Mutex -> option nat;
  progs  : nat -> list Instr
}.

Definition mutex_eqb (a b : Mutex) : bool :=
  match a, b with
  | teMutex, teMutex | reqMutex, reqMutex => true
  | _, _ => false
  end.

Definition setHolder (m : Mutex) (o : option nat) (s : Sys) : Mutex -> option nat :=
  fun m' => if mutex_eqb m' m then o else holder s m'.

Definition setProg (i : nat) (p : list Instr) (s : Sys) : nat -> list Instr :=
  fun k => if Nat.eqb k i then p else progs s k.

(** One step of one goroutine. *)
Inductive step (s : Sys) : Sys -> Prop :=
| step_lock (i : nat) (m : Mutex) (rest : list Instr) :
    progs s i = Lock m :: rest ->
    holder s m = None ->
    step s {| holder := setHolder m (Some i) s; progs := setProg i rest s |}
| step_unlock (i : nat) (m : Mutex) (rest : list Instr) :
    progs s i = Unlock m :: rest ->
    step s {| holder := setHolder m None s; progs := setProg i rest s |}
| step_send (i : nat) (method : string) (rest : list Instr) :
    progs s i = Send method :: rest ->
    step s {| holder := holder s; progs := setProg i rest s |}
| step_recv (i : nat) (method : string) (rest : list Instr) :
    progs s i = Recv method :: rest ->
    step s {| holder := holder s; progs := setProg i rest s |}
| step_local (i : nat) (rest : list Instr) :
    progs s i = Local :: rest ->
    step s {| holder := holder s; progs := setProg i rest s |}.

Inductive reachable (s0 : Sys) : Sys -> Prop :=
| reach_init : reachable s0 s0
| reach_step (s s' : Sys) : reachable s0 s -> step s s' -> reachable s0 s'.

(** Both mutexes free, goroutine i about to make the calls [threads i]. *)
Definition init (compress : bytes -> bytes * option error)
           (errText : error -> string) (threads : nat -> list Call) : Sys :=
  {| holder := fun _ => None;
     progs := fun i => program compress errText (threads i) |}.

(** The exchange a goroutine has at the socket: its next step is the send
    or the receive of a request with this method. *)
Definition atSocket (p : list Instr) : option string :=
  match p with
  | Send method :: _ | Recv method :: _ => Some method
  | _ => None
  end.

(** Goroutine i holds teMutex. *)
Definition holdsTe (s : Sys) (i : nat) : bool :=
  match holder s teMutex with
  | Some j => Nat.eqb j i
  | None => false
  end.

(** The steps of a goroutine pair each Lock of teMutex with the next Unlock
    and touch the socket only in between; [held] says whether it holds
    teMutex now. *)
Fixpoint bracketed (held : bool) (p : list Instr) : bool :=
  match p with
  | [] => negb held
  | Lock teMutex :: r => negb held && bracketed true r
  | Unlock teMutex :: r => held && bracketed false r
  | Send _ :: r | Recv _ :: r => held && bracketed held r
  | _ :: r => bracketed held r
  end.

(** Supervisor ticks touching a job while Execute reports its end state. *)
Definition touchAndArchive (x : Exchange) (i : nat) : list Call :=
  match i with
  | O => [CTouch x; CTouch x]
  | S O => [CArchive (sampleJob "true") (Some exit42) x]
  | _ => []
  end.

End Locks.

(* ===================================================================== *)
(** ** More vocabulary for the supervisory task *)

Definition b2n (b : bool) : nat := if b then 1%nat else 0%nat.

(** How many of the three flags that go with a kill are set. *)
Definition killFlags (s : SupState) : nat :=
  (b2n (signalled s) + b2n (killCalled s) + b2n (ranoutMem s))%nat.

(** The touches in a trace. *)
Fixpoint touches (t : list Effect) : nat :=
  match t with
  | [] => 0
  | ETouch :: r => S (touches r)
  | _ :: r => touches r
  end.

Definition isTouchTick (ev : SupEvent) : bool :=
  match ev with
  | TouchTick _ _ => true
  | _ => false
  end.

(** What ties [peakmem] to [ranoutMem] under the job's RAM limit. *)
Definition memInv (job : Job) (s : SupState) : Prop :=
  0 <= peakmem s /\
  (ranoutMem s = true -> Z.max 0 (RAM (Requirements job)) < peakmem s) /\
  (ranoutMem s = false -> peakmem s <= Z.max 0 (RAM (Requirements job))).

(** The largest of the memory samples that were read without an error
    among the events, and 0 when none of them is above 0. *)
Fixpoint largestSample (evs : list SupEvent) : Z :=
  match evs with
  | [] => 0
  | MemTick m None :: rest => Z.max m (largestSample rest)
  | _ :: rest => largestSample rest
  end.

(* ===================================================================== *)
(** ** More vocabulary for the end-state methods *)

(** The State and UntilBuried that a successful call of [m] leaves, for a
    job that had [ub] before. *)
Definition afterCall (m : EndCall) (code ub : Z) (j' : Job) : Prop :=
  match m with
  | CallArchive => State j' = JobStateComplete /\ UntilBuried j' = ub
  | CallBury => State j' = JobStateBuried /\ UntilBuried j' = ub
  | CallRelease =>
      UntilBuried j' = (if (code =? 0) then ub else ub - 1) /\
      State j' = (if (UntilBuried j' <=? 0) then JobStateBuried
                  else JobStateDelayed)
  end.

(** The end state as recorded on a job. *)
Definition recorded (jes : JobEndState) (j : Job) : Prop :=
  Exited j = true /\ Exitcode j = jes_Exitcode jes /\
  PeakRAM j = jes_PeakRAM jes /\ CPUtime j = jes_CPUtime jes.

(* ===================================================================== *)
(** ** Execute: the second touch ticker

    While the behaviours and the unmount run, a second goroutine touches
    the job on every tick of ticker2, unless the run was killed; it returns
    on a signal, on a failed touch and on stopChecking2. *)

Inductive Tick2Event :=
| T2Signal                  (* <-sigs *)
| T2Tick (x : Exchange)     (* <-ticker2.C; [x] is what a touch would do *)
| T2Stop.                   (* <-stopChecking2 *)

Section Ticker2.

Variable key : Job -> string.
Variable c : Client.
Variable job : Job.
Variable s : SupState.      (* the flags as the supervisory task left them *)

(** One iteration of the goroutine's loop: what it does and whether it
    goes on. *)
Definition ticker2Step (ev : Tick2Event) : list Effect * bool :=
  match ev with
  | T2Signal => ([], false)
  | T2Tick x =>
      if negb (killCalled s) && negb (ranoutMem s) && negb (signalled s)
      then match snd (Touch key c job x) with
           | Some _ => ([ETouch], false)
           | None => ([ETouch], true)
           end
      else ([], true)
  | T2Stop => ([], false)
  end.

Fixpoint ticker2 (evs : list Tick2Event) : list Effect :=
  match evs with
  | [] => []
  | ev :: rest =>
      let '(eff, go) := ticker2Step ev in
      if go then eff ++ ticker2 rest else eff
  end.

End Ticker2.

(** An event that makes the second ticker's goroutine return. *)
Definition ends2 (ev : Tick2Event) : bool :=
  match ev with
  | T2Signal | T2Stop => true
  | T2Tick x => negb (exchangeOk x)
  end.

(* ===================================================================== *)
(** ** The two mutexes: lock order *)

Module LockOrder.
Import Locks.

(** Goroutine i holds the request mutex. *)
Definition holdsReq (s : Sys) (i : nat) : bool :=
  match holder s reqMutex with
  | Some j => Nat.eqb j i
  | None => false
  end.

(** The steps of a goroutine take the request mutex only inside teMutex
    and give it back before teMutex, never take a mutex they hold, and
    touch the socket only while holding both. *)
Fixpoint nested (te req : bool) (p : list Instr) : bool :=
  match p with
  | [] => negb te && negb req
  | Lock teMutex :: r => negb te && negb req && nested true false r
  | Unlock teMutex :: r => te && negb req && nested false false r
  | Lock reqMutex :: r => te && negb req && nested te true r
  | Unlock reqMutex :: r => te && req && nested te false r
  | Send _ :: r | Recv _ :: r => te && req && nested te req r
  | Local :: r => nested te req r
  end.

(** A goroutine that still has a step to make. *)
Definition busy (s : Sys) : Prop := exists i, progs s i <> [].

End LockOrder.

(* ===================================================================== *)
(** ** Started, and Execute up to the launch of the supervisory task *)

(** Modelled from the spec: the fields of a Job that only Started writes
    (section 3 lists them), kept apart from the Job record above.  The
    width of Attempts is not visible in the sources at hand; it is kept
    as an unbounded counter. *)
Record HostInfo := {
  Host      : string;
  HostIP    : string;
  Attempts  : Z;
  StartTime : Z
}.

Definition setPid (v : Z) (j : Job) : Job :=
  {| Cmd := Cmd j; Cwd := Cwd j; CwdMatters := CwdMatters j;
     ChangeHome := ChangeHome j; Requirements := Requirements j;
     ReservedBy := ReservedBy j; UntilBuried := UntilBuried j; Pid := v;
     ActualCwd := ActualCwd j; Exited := Exited j; Exitcode := Exitcode j;
     PeakRAM := PeakRAM j; CPUtime := CPUtime j; StdOutC := StdOutC j;
     StdErrC := StdErrC j; FailReason := FailReason j; State := State j |}.

(** What the host answers to Started: os.Hostname(), CurrentIP("") and
    time.Now(). *)
Record HostProbe := {
  hp_hostname : string * option error;
  hp_ip       : string * option error;
  hp_now      : Z
}.

(** What Execute does before the supervisory task is launched, and on its
    way out. *)
Inductive PreEffect :=
| PBury (reason : string) (stderr : option error)  (* c.Bury(job, nil, reason[, err]) *)
| PRelease (reason : string)                       (* c.Release(job, nil, reason) *)
| PMount                                           (* job.Mount() *)
| PWait5s                                          (* <-time.After(5 * time.Second) *)
| PUnmountForce                                    (* job.Unmount(true) *)
| PNotify                                          (* signal.Notify(sigs, ...) *)
| PStart (args : list string) (dir : string) (env : list string)  (* cmd.Start() *)
| PStarted (pid : Z)                               (* c.Started(job, pid) *)
| PKill                                            (* cmd.Process.Kill() *)
| PTriggerFailure                                  (* job.TriggerBehaviours(false) *)
| PSignalStop                                      (* deferred signal.Stop(sigs) *)
| PRemoveAll (dir : string)                        (* deferred os.RemoveAll(tmpDir) *)
| PRun (e : Effect).                               (* what happens from the launch on *)

(** What Execute observes of the outside world before the launch. *)
Record PreEnv := {
  pr_stderrPipe : option error;            (* cmd.StderrPipe() *)
  pr_stdoutPipe : option error;            (* cmd.StdoutPipe() *)
  pr_cwdIsDir   : bool;                    (* os.Stat(job.Cwd) worked and it is a directory *)
  pr_hashedDir  : string * string * option error;  (* mkHashedDir(job.Cwd, job.key()) *)
  pr_mount      : option error;            (* the first job.Mount() *)
  pr_mountAgain : option error;            (* the second job.Mount() *)
  pr_env        : list string * option error;      (* job.Env() *)
  pr_start      : option error;            (* cmd.Start() *)
  pr_pid        : Z;                       (* cmd.Process.Pid *)
  pr_now        : Z;                       (* time.Now() before the start *)
  pr_host       : HostProbe;               (* for Started *)
  pr_startedX   : Exchange;                (* the exchange of Started *)
  pr_failX      : Exchange;                (* the exchange of the Bury or Release of a failure *)
  pr_unmount    : string * option error;   (* job.Unmount(true) *)
  pr_kill       : option error;            (* cmd.Process.Kill() after Started failed *)
  pr_trigger    : option error             (* job.TriggerBehaviours(false) after Started failed *)
}.

Section ExecuteStart.

Variable compress : bytes -> bytes * option error.
Variable errText : error -> string.
Variable key : Job -> string.
Variable recsAfterFailure : Job -> scheduler_Requirements.
Variable TrimSpace : bytes -> bytes.
(** envOverride and the text of ErrMustReserve are declared outside the
    sources at hand. *)
Variable envOverride : list string -> list string -> list string.
Variable ErrMustReserve : string.

(** Started updates a Job on the server with information that you've
    started running the Job's Cmd. *)
Definition Started (c : Client) (job : Job) (h : HostInfo) (pid : Z)
           (hp : HostProbe) (x : Exchange) : Job * HostInfo * option error :=
  let host := match snd (hp_hostname hp) with
              | Some _ => "localhost"
              | None => fst (hp_hostname hp)
              end in
  let '(ip, err) := hp_ip hp in
  match err with
  | Some e =>
      (job, {| Host := host; HostIP := ip; Attempts := Attempts h;
               StartTime := StartTime h |}, Some e)
  | None =>
      let job := setPid pid job in
      (job,
       {| Host := host; HostIP := ip; Attempts := Attempts h + 1;
          StartTime := hp_now hp |},
       reply_err (snd (request key c (jobRequest "jstart" job None) x)))
  end.

(** [extra] of the failure paths: "" or the formatted note. *)
Definition alsoNote (format : string) (e : option error) : fmtarg :=
  match e with
  | Some e => FSprintf format [FErr e]
  | None => FStr ""
  end.

(** [buryErr], with the note about a failed Bury when there is one. *)
Definition withBuryNote (buryErr : error) (errb : option error) : error :=
  match errb with
  | Some e => Errorf "%s (and burying the job failed: %s)"
                     [FStr (errText buryErr); FErr e]
  | None => buryErr
  end.

(** The deferred calls that are registered once the environment is set:
    signal.Stop, then the removal of the temp directory if there is one. *)
Definition deferred (tmpDir : string) : list PreEffect :=
  PSignalStop :: (if (tmpDir =? "")%string then [] else [PRemoveAll tmpDir]).

(** cmd.Env: the job's environment, with TMPDIR and (if the job asks for
    it) HOME overridden when a temp directory was made. *)
Definition cmdEnv (job : Job) (actualCwd tmpDir : string) (env : list string)
  : list string :=
  if (tmpDir =? "")%string then env
  else
    let env := envOverride env [("TMPDIR=" ++ tmpDir)%string] in
    if ChangeHome job
    then envOverride env [("HOME=" ++ actualCwd)%string]
    else env.

(** Execute from the start of the command on: [dir] is cmd.Dir, [env]
    cmd.Env.  The deferred calls are also made when Execute panics. *)
Definition startAndRun (c : Client) (job : Job) (h : HostInfo)
           (shell actualCwd tmpDir dir : string) (env : list string)
           (pr : PreEnv) (pe : ProcEnv) (evs : list SupEvent) (w : Waited)
  : Job * HostInfo * Ending * list PreEffect :=
  let jc := shellCommand (Cmd job) in
  let endT := pr_now pr + Time (Requirements job) in
  let started := [PNotify; PStart (execCommand shell job) dir env] in
  match pr_start pr with
  | Some e =>
      (* some obscure internal error about setting things up *)
      let '(job, errr) := Release compress key recsAfterFailure c job None
                                  FailReasonStart (pr_failX pr) in
      let erru := snd (pr_unmount pr) in
      (job, h,
       Returns
         (Some (Errorf "could not start command [%s]: %s%s"
                       [FStr jc; FErr e;
                        FSprintf "%s%s"
                          [alsoNote " (and releasing the job failed: %s)" errr;
                           alsoNote " (and unmounting the job failed: %s)" erru]])),
       started ++ [PRelease FailReasonStart; PUnmountForce] ++ deferred tmpDir)
  | None =>
      (* update the server that we've started the job *)
      let '(job, h, err) := Started c job h (pr_pid pr) (pr_host pr)
                                    (pr_startedX pr) in
      match err with
      | Some e =>
          let errk := pr_kill pr in
          let errt := pr_trigger pr in
          let erru := snd (pr_unmount pr) in
          (job, h,
           Returns
             (Some (Errorf "command [%s] started running, but I killed it due to a jobqueue server error: %s%s"
                           [FStr (Cmd job); FErr e;
                            FSprintf "%s%s%s"
                              [alsoNote " (and killing the cmd failed: %s)" errk;
                               alsoNote " (and triggering behaviours failed: %s)" errt;
                               alsoNote " (and unmounting the job failed: %s)" erru]])),
           started ++ [PStarted (pr_pid pr); PKill; PTriggerFailure; PUnmountForce]
                   ++ deferred tmpDir)
      | None =>
          let '(job, ending, tr) :=
            ExecuteLaunched compress errText key recsAfterFailure TrimSpace
                            c job actualCwd endT pe evs w in
          (job, h, ending,
           started ++ [PStarted (pr_pid pr)] ++ map PRun tr ++ deferred tmpDir)
      end
  end.

(** Execute from [job.Env()] on, the remote file systems being mounted. *)
Definition envAndRun (c : Client) (job : Job) (h : HostInfo)
           (shell actualCwd tmpDir dir : string)
           (pr : PreEnv) (pe : ProcEnv) (evs : list SupEvent) (w : Waited)
  : Job * HostInfo * Ending * list PreEffect :=
  let '(env, erre) := pr_env pr in
  match erre with
  | Some e =>
      let '(job, errb) := Bury compress errText key c job None FailReasonEnv []
                               (pr_failX pr) in
      let erru := snd (pr_unmount pr) in
      (job, h,
       Returns
         (Some (Errorf "failed to extract environment variables for job [%s]: %s%s"
                       [FStr (key job); FErr e;
                        FSprintf "%s%s"
                          [alsoNote " (and burying the job failed: %s)" errb;
                           alsoNote " (and unmounting the job failed: %s)" erru]])),
       [PBury FailReasonEnv None; PUnmountForce])
  | None =>
      startAndRun c job h shell actualCwd tmpDir dir
                  (cmdEnv job actualCwd tmpDir env) pr pe evs w
  end.

(** Execute from [job.Mount()] on: the mount is tried again, once and
    after five seconds, when it fails with the fusermount error. *)
Definition mountAndRun (c : Client) (job : Job) (h : HostInfo)
           (shell actualCwd tmpDir dir : string)
           (pr : PreEnv) (pe : ProcEnv) (evs : list SupEvent) (w : Waited)
  : Job * HostInfo * Ending * list PreEffect :=
  let '(errm, mounts) :=
    match pr_mount pr with
    | None => (None, [PMount])
    | Some e =>
        if Strings.Contains (errText e) "fusermount exited with code 256"
        then (pr_mountAgain pr, [PMount; PWait5s; PMount])
        else (Some e, [PMount])
    end in
  match errm with
  | Some e =>
      let buryErr := Errorf "failed to mount remote file system(s): %s" [FErr e] in
      let '(job, errb) := Bury compress errText key c job None FailReasonMount
                               [Some buryErr] (pr_failX pr) in
      (job, h, Returns (Some (withBuryNote buryErr errb)),
       mounts ++ [PBury FailReasonMount (Some buryErr)])
  | None =>
      let '(job, h, ending, tr) :=
        envAndRun c job h shell actualCwd tmpDir dir pr pe evs w in
      (job, h, ending, mounts ++ tr)
  end.

(** Execute runs the given Job's Cmd and blocks until it exits. *)
Definition Execute (c : Client) (job : Job) (h : HostInfo) (shell : string)
           (pr : PreEnv) (pe : ProcEnv) (evs : list SupEvent) (w : Waited)
  : Job * HostInfo * Ending * list PreEffect :=
  if negb (N.eqb (clientid c) (ReservedBy job)) then
    (job, h, Returns (Some (Error "Execute" (key job) ErrMustReserve)), [])
  else
  let jc := shellCommand (Cmd job) in
  match pr_stderrPipe pr with
  | Some e =>
      (job, h,
       Returns (Some (Errorf "failed to create a pipe for STDERR from cmd [%s]: %s"
                             [FStr jc; FErr e])), [])
  | None =>
  match pr_stdoutPipe pr with
  | Some e =>
      (job, h,
       Returns (Some (Errorf "failed to create a pipe for STDOUT from cmd [%s]: %s"
                             [FStr jc; FErr e])), [])
  | None =>
  if negb (pr_cwdIsDir pr) then
    let '(job, errb) := Bury compress errText key c job None FailReasonCwd []
                             (pr_failX pr) in
    (job, h,
     Returns (Some (Errorf "working directory [%s] does not exist%s"
                           [FStr (Cwd job);
                            alsoNote " (and burying the job failed: %s)" errb])),
     [PBury FailReasonCwd None])
  else if CwdMatters job then
    mountAndRun c job h shell "" "" (Cwd job) pr pe evs w
  else
    (* we'll create a unique location to work in *)
    let '(actualCwd, tmpDir, errd) := pr_hashedDir pr in
    match errd with
    | Some e =>
        let buryErr := Errorf "could not create working directory: %s" [FErr e] in
        let '(job, errb) := Bury compress errText key c job None FailReasonCwd
                                 [Some buryErr] (pr_failX pr) in
        (job, h, Returns (Some (withBuryNote buryErr errb)),
         [PBury FailReasonCwd (Some buryErr)])
    | None =>
        mountAndRun c (JobSet.actualCwd actualCwd job) h shell actualCwd tmpDir
                    actualCwd pr pe evs w
    end
  end end.

End ExecuteStart.

(** Counting in a trace of Execute. *)
Definition isStart (e : PreEffect) : bool :=
  match e with PStart _ _ _ => true | _ => false end.

Definition isMount (e : PreEffect) : bool :=
  match e with PMount => true | _ => false end.

Definition isUnmount (e : PreEffect) : bool :=
  match e with PUnmountForce | PRun EUnmount => true | _ => false end.

Definition isNotify (e : PreEffect) : bool :=
  match e with PNotify => true | _ => false end.

Definition isSignalStop (e : PreEffect) : bool :=
  match e with PSignalStop => true | _ => false end.

Definition isReport (e : PreEffect) : bool :=
  match e with
  | PBury _ _ | PRelease _ | PRun (ECall _) => true
  | _ => false
  end.

Definition count (f : PreEffect -> bool) (t : list PreEffect) : nat :=
  List.length (filter f t).

(** The mount that Execute ends up with: the first if it worked or if its
    error is not the one that is retried, else the second. *)
Definition mountError (errText : error -> string) (pr : PreEnv) : option error :=
  match pr_mount pr with
  | None => None
  | Some e =>
      if Strings.Contains (errText e) "fusermount exited with code 256"
      then pr_mountAgain pr else Some e
  end.

(** Whether Execute gets as far as mounting, and as far as starting the
    command. *)
Definition reachesMount (c : Client) (job : Job) (pr : PreEnv) : bool :=
  N.eqb (clientid c) (ReservedBy job)
  && is_nil (pr_stderrPipe pr) && is_nil (pr_stdoutPipe pr)
  && pr_cwdIsDir pr
  && (CwdMatters job || is_nil (snd (pr_hashedDir pr))).

Definition reachesStart (errText : error -> string) (c : Client) (job : Job)
           (pr : PreEnv) : bool :=
  reachesMount c job pr
  && is_nil (mountError errText pr) && is_nil (snd (pr_env pr)).

(** A host on which nothing fails. *)
Definition quietHost : HostProbe :=
  {| hp_hostname := ("node1"%string, None);
     hp_ip := ("10.0.0.7"%string, None); hp_now := 5 |}.

Definition quietPre : PreEnv :=
  {| pr_stderrPipe := None; pr_stdoutPipe := None; pr_cwdIsDir := true;
     pr_hashedDir := ("/tmp/a/b/c/key/cwd"%string, "/tmp/a/b/c/key/tmp"%string, None);
     pr_mount := None; pr_mountAgain := None;
     pr_env := (["PATH=/bin"%string; "HOME=/home/u"%string], None);
     pr_start := None; pr_pid := 4242; pr_now := 0;
     pr_host := quietHost; pr_startedX := Decoded okResponse;
     pr_failX := Decoded okResponse; pr_unmount := (""%string, None);
     pr_kill := None; pr_trigger := None |}.

Definition noHost : HostInfo :=
  {| Host := ""; HostIP := ""; Attempts := 0; StartTime := 0 |}.

(** An override that puts the new variables in front. *)
Definition prependEnv (env over : list string) : list string := over ++ env.

(** What the supervisory task can do. *)
Definition supKind (e : Effect) : Prop :=
  e = EKill \/ e = ETouch \/ e = ECloseReaders.

(** Whether Started returns an error. *)
Definition startedFails (hp : HostProbe) (x : Exchange) : bool :=
  negb (is_nil (snd (hp_ip hp))) || negb (exchangeOk x).

(** How often Execute calls job.Mount(). *)
Definition mountCalls (errText : error -> string) (pr : PreEnv) : nat :=
  match pr_mount pr with
  | None => 1
  | Some e =>
      if Strings.Contains (errText e) "fusermount exited with code 256"
      then 2 else 1
  end.

(** A wait that fails: the child was reaped by someone else. *)
Definition lostChild : Waited := WaitFailed (Opaque "wait: no child processes").

(** cmd.Wait() failed. *)
Definition waitFailed (w : Waited) : bool :=
  match w with
  | WaitFailed _ => true
  | Collected _ => false
  end.

(** The state in which the supervisory task leaves its variables, for the
    job as it is when the command is started. *)
Definition runState (key : Job -> string) (c : Client) (job : Job)
           (pr : PreEnv) (pe : ProcEnv) (evs : list SupEvent) : SupState :=
  supervise key c (setPid (pr_pid pr) job)
            (pr_now pr + Time (Requirements job)) pe evs supInit.

(** The command ran, and Execute panics before it has unmounted the job:
    cmd.Wait() failed and [peakmem] was still 0, no memory sample above 0
    having been read. *)
Definition skipsUnmount (key : Job -> string) (c : Client) (job : Job)
           (pr : PreEnv) (pe : ProcEnv) (evs : list SupEvent) (w : Waited)
  : bool :=
  is_nil (pr_start pr) && negb (startedFails (pr_host pr) (pr_startedX pr))
  && waitFailed w && (peakmem (runState key c job pr pe evs) =? 0).

(** Execute returns before it has tried anything for the job. *)
Definition refusedAtOnce (c : Client) (job : Job) (pr : PreEnv) : bool :=
  negb (N.eqb (clientid c) (ReservedBy job))
  || negb (is_nil (pr_stderrPipe pr)) || negb (is_nil (pr_stdoutPipe pr)).

(** cmd.Dir, ActualCwd and the temp directory that Execute settles on. *)
Definition workDir (job : Job) (pr : PreEnv) : string :=
  if CwdMatters job then Cwd job else fst (fst (pr_hashedDir pr)).

Definition actualCwdOf (job : Job) (pr : PreEnv) : string :=
  if CwdMatters job then ""%string else fst (fst (pr_hashedDir pr)).

Definition tmpDirOf (job : Job) (pr : PreEnv) : string :=
  if CwdMatters job then ""%string else snd (fst (pr_hashedDir pr)).

Definition isRemoveAll (e : PreEffect) : bool :=
  match e with PRemoveAll _ => true | _ => false end.

(** What Execute can do before the signals are intercepted ... *)
Definition isEarly (e : PreEffect) : bool :=
  match e with
  | PBury _ _ | PMount | PWait5s | PUnmountForce => true
  | _ => false
  end.

(** ... and between the start of the command and the deferred calls. *)
Definition isMid (e : PreEffect) : bool :=
  match e with
  | PRelease _ | PUnmountForce | PStarted _ | PKill | PTriggerFailure
  | PRun _ => true
  | _ => false
  end.

(** The layout of a trace of Execute: if the command is started, the early
    steps, the interception of the signals and the start, what follows
    it, and the deferred calls; else early steps only. *)
Definition shape (args : list string) (dir : string) (env : list string)
           (tmpDir : string) (started : bool) (tr : list PreEffect) : Prop :=
  if started
  then exists pre mid,
      tr = pre ++ [PNotify; PStart args dir env] ++ mid
               ++ PSignalStop :: (if (tmpDir =? "")%string then []
                                  else [PRemoveAll tmpDir]) /\
      forallb isEarly pre = true /\ forallb isMid mid = true
  else forallb isEarly tr = true.

(** The job as Execute has it when the command is started. *)
Definition jobAtStart (job : Job) (pr : PreEnv) : Job :=
  if CwdMatters job then job
  else JobSet.actualCwd (fst (fst (pr_hashedDir pr))) job.

(** [r], with [pre] having happened before it. *)
Definition prepend (pre : list PreEffect)
           (r : Job * HostInfo * Ending * list PreEffect)
  : Job * HostInfo * Ending * list PreEffect :=
  let '(j, h, ret, tr) := r in (j, h, ret, pre ++ tr).

(** A job for which the working directory matters. *)
Definition inPlaceJob (cmd : string) : Job :=
  {| Cmd := cmd; Cwd := "/data/run1"; CwdMatters := true; ChangeHome := true;
     Requirements := {| RAM := 100; Time := 1000000000; Cores := 1; Disk := 0 |};
     ReservedBy := 7%N; UntilBuried := 3; Pid := 0; ActualCwd := "";
     Exited := false; Exitcode := 0; PeakRAM := 0; CPUtime := 0;
     StdOutC := []; StdErrC := []; FailReason := "";
     State := JobStateRunning |}.

(** A host on which the first mount fails with the fusermount error and
    the second works. *)
Definition remountPre : PreEnv :=
  {| pr_stderrPipe := None; pr_stdoutPipe := None; pr_cwdIsDir := true;
     pr_hashedDir := ("/tmp/a/b/c/key/cwd"%string, "/tmp/a/b/c/key/tmp"%string, None);
     pr_mount := Some (Opaque "fusermount exited with code 256");
     pr_mountAgain := None;
     pr_env := (["PATH=/bin"%string], None);
     pr_start := None; pr_pid := 4242; pr_now := 0;
     pr_host := quietHost; pr_startedX := Decoded okResponse;
     pr_failX := Decoded okResponse; pr_unmount := (""%string, None);
     pr_kill := None; pr_trigger := None |}.

(** A host on which the server does not answer Started. *)
Definition deafPre : PreEnv :=
  {| pr_stderrPipe := None; pr_stdoutPipe := None; pr_cwdIsDir := true;
     pr_hashedDir := ("/tmp/a/b/c/key/cwd"%string, "/tmp/a/b/c/key/tmp"%string, None);
     pr_mount := None; pr_mountAgain := None;
     pr_env := (["PATH=/bin"%string], None);
     pr_start := None; pr_pid := 4242; pr_now := 0;
     pr_host := quietHost;
     pr_startedX := RecvFailed (Opaque "receive time out");
     pr_failX := Decoded okResponse; pr_unmount := (""%string, None);
     pr_kill := None; pr_trigger := None |}.

(* ===================================================================== *)
(** ** Connect, Ping and BackupDB *)

(** What Connect does to the socket. *)
Inductive ConnEffect :=
| CSetMaxRecvSize (v : Z)              (* sock.SetOption(OptionMaxRecvSize, 0) *)
| CSetRecvDeadline (t : Duration)      (* sock.SetOption(OptionRecvDeadline, timeout) *)
| CAddTransport                        (* sock.AddTransport(tlstcp.NewTransport()) *)
| CDial (url serverName : string) (rootCAs : option bytes)  (* sock.DialOptions *)
| CPing (t : Duration)                 (* c.Ping(timeout) *)
| CClose.                              (* sock.Close() *)

(** What Connect observes of the outside world. *)
Record ConnEnv := {
  ce_newSocket : option error;         (* req.NewSocket() *)
  ce_maxRecv   : option error;         (* the first SetOption *)
  ce_deadline  : option error;         (* the second SetOption *)
  ce_readCA    : bytes * option error; (* ioutil.ReadFile(caFile) *)
  ce_dial      : option error;         (* sock.DialOptions *)
  ce_uuid      : UUID * option error;  (* uuid.NewV4() *)
  ce_ping      : Exchange;             (* the exchange of the Ping *)
  ce_close     : option error          (* sock.Close() *)
}.

Definition isClose (e : ConnEffect) : bool :=
  match e with CClose => true | _ => false end.

Definition isPing (e : ConnEffect) : bool :=
  match e with CPing _ => true | _ => false end.

Definition isDial (e : ConnEffect) : bool :=
  match e with CDial _ _ _ => true | _ => false end.

(** The file system as BackupDB sees it: what is stored under a path. *)
Definition FS := string -> option bytes.

Definition writeAt (p : string) (v : option bytes) (fs : FS) : FS :=
  fun q => if (q =? p)%string then v else fs q.

(** What BackupDB observes: the exchange with the server; whether
    ioutil.WriteFile fails, and if so what it leaves under the path; whether
    os.Remove and os.Rename fail, in which case they change nothing. *)
Record BackupEnv := {
  bk_net    : Exchange;
  bk_write  : option (error * option bytes);
  bk_remove : option error;
  bk_rename : option error
}.

Section Connecting.

Variable errText : error -> string.
Variable key : Job -> string.
(** ServerInfo, the SInfo and DB fields of serverResponse and the two error
    texts are declared outside the sources at hand. *)
Variable ServerInfo : Type.
Variable SInfo : serverResponse -> option ServerInfo.
Variable DB : serverResponse -> bytes.
Variable ErrNoServer : string.
Variable ErrPermissionDenied : string.

(** Ping tells you if your connection to the server is working, returning
    static information about the server. *)
Definition Ping (c : Client) (timeout : Duration) (x : Exchange)
  : option ServerInfo * option error :=
  match snd (request key c
               {| rq_ClientID := 0%N; rq_FirstReserve := false; rq_Job := None;
                  rq_JobEndState := None; rq_Method := "ping";
                  rq_SchedulerGroup := ""; rq_Timeout := timeout;
                  rq_Token := [] |} x) with
  | Failed e | ServerErr _ e => (None, Some e)
  | Succeeded resp => (SInfo resp, None)
  end.

(** Connect creates a connection to the jobqueue server.  The result is
    Go's pair (client, err), the client with its ServerInfo, and what was
    done to the socket. *)
Definition Connect (addr caFile certDomain : string) (tok : bytes)
           (timeout : Duration) (ce : ConnEnv)
  : option (Client * option ServerInfo) * option error * list ConnEffect :=
  match ce_newSocket ce with
  | Some e => (None, Some e, [])
  | None =>
  match ce_maxRecv ce with
  | Some e => (None, Some e, [CSetMaxRecvSize 0])
  | None =>
  match ce_deadline ce with
  | Some e => (None, Some e, [CSetMaxRecvSize 0; CSetRecvDeadline timeout])
  | None =>
  let rootCAs := match snd (ce_readCA ce) with
                 | None => Some (fst (ce_readCA ce))
                 | Some _ => None
                 end in
  let dialled := [CSetMaxRecvSize 0; CSetRecvDeadline timeout; CAddTransport;
                  CDial ("tls+tcp://" ++ addr) certDomain rootCAs] in
  match ce_dial ce with
  | Some e => (None, Some e, dialled)
  | None =>
  let '(u, erru) := ce_uuid ce in
  match erru with
  | Some e => (None, Some e, dialled)
  | None =>
  let c := {| clientid := u; hasReserved := false; token := tok |} in
  (* Dial succeeds even when there's no server up, so we test the
     connection works with a Ping() *)
  let '(si, err) := Ping c timeout (ce_ping ce) in
  match err with
  | Some e =>
      match ce_close ce with
      | Some errc => (Some (c, None), Some errc, dialled ++ [CPing timeout; CClose])
      | None =>
          let msg := match e with
                     | Error _ _ reason =>
                         if (reason =? ErrPermissionDenied)%string
                         then ErrPermissionDenied else ErrNoServer
                     | _ => ErrNoServer
                     end in
          (None, Some (Error "Connect" "" msg), dialled ++ [CPing timeout; CClose])
      end
  | None => (Some (c, si), None, dialled ++ [CPing timeout])
  end end end end end end.

(** BackupDB backs up the server's database to the given path. *)
Definition BackupDB (c : Client) (path : string) (be : BackupEnv) (fs : FS)
  : FS * option error :=
  match snd (request key c (mkRequest "backup") (bk_net be)) with
  | Failed e | ServerErr _ e => (fs, Some e)
  | Succeeded resp =>
      let tmpPath := (path ++ ".tmp")%string in
      match bk_write be with
      | Some (e, partial) =>
          let fs := writeAt tmpPath partial fs in
          match bk_remove be with
          | Some rerr =>
              (fs, Some (Errorf ("%s" ++ LF ++ "%s")
                                [FStr (errText e); FStr (errText rerr)]))
          | None => (writeAt tmpPath None fs, Some e)
          end
      | None =>
          let fs := writeAt tmpPath (Some (DB resp)) fs in
          match bk_rename be with
          | Some e => (fs, Some e)
          | None => (writeAt path (fs tmpPath) (writeAt tmpPath None fs), None)
          end
      end
  end.

End Connecting.

(** A server that answers the ping, and one that turns the token down. *)
Definition quietConn : ConnEnv :=
  {| ce_newSocket := None; ce_maxRecv := None; ce_deadline := None;
     ce_readCA := ([], Some (Opaque "open ca.pem: no such file or directory"));
     ce_dial := None; ce_uuid := (7%N, None);
     ce_ping := Decoded okResponse; ce_close := None |}.

Definition deniedConn : ConnEnv :=
  {| ce_newSocket := None; ce_maxRecv := None; ce_deadline := None;
     ce_readCA := ([], None);
     ce_dial := None; ce_uuid := (7%N, None);
     ce_ping := Decoded {| sr_Job := None; sr_KillCalled := false;
                           sr_Err := "permission denied" |};
     ce_close := None |}.

Definition noInfo (sr : serverResponse) : option unit := Some tt.

(** A disk on which the write of the backup works and the rename too. *)
Definition quietBackup : BackupEnv :=
  {| bk_net := Decoded okResponse; bk_write := None; bk_remove := None;
     bk_rename := None |}.

(** A disk that fills up during the write. *)
Definition fullDisk : BackupEnv :=
  {| bk_net := Decoded okResponse;
     bk_write := Some (Opaque "no space left on device", Some [Byte.x00]);
     bk_remove := None; bk_rename := None |}.

Definition dbOf (sr : serverResponse) : bytes := [Byte.x01; Byte.x02].

Definition oldBackup : FS :=
  fun q => if (q =? "/backup/db")%string then Some [Byte.xff] else None.

(* ===================================================================== *)
(** * minfys: the pathfs.FileSystem methods *)

Module Minfys.

(** fuse.Status, with the values that occur here. *)
Inductive Status := OK | ENOENT | EIO | Errno (n : Z).

Definition isOK (s : Status) : bool :=
  match s with OK => true | _ => false end.

(** fuse.S_IFDIR and fuse.S_IFREG (syscall's values). *)
Definition S_IFDIR : Z := 16384.
Definition S_IFREG : Z := 32768.

Definition uint64 (z : Z) : Z := z mod 2 ^ 64.
Definition int64 (z : Z) : Z := (z + 2 ^ 63) mod 2 ^ 64 - 2 ^ 63.

(** fuse.Attr, with the fields that are set here. *)
Record Attr := {
  a_Mode  : Z;
  a_Size  : Z;
  a_Mtime : Z;
  a_Atime : Z;
  a_Ctime : Z
}.

Record DirEntry := {
  d_Name : string;
  d_Mode : Z
}.

(** What ListObjectsV2 sends on its channel. *)
Record ObjectInfo := {
  o_Key          : string;
  o_Size         : Z;      (* int64 *)
  o_LastModified : Z;      (* LastModified.Unix() *)
  o_Err          : option error
}.

(** A Go map with string keys. *)
Definition smap (A : Type) := string -> option A.

Definition put {A : Type} (k : string) (v : A) (m : smap A) : smap A :=
  fun q => if (q =? k)%string then Some v else m q.

(** MinFys, with the fields that are used here; a *fuse.Attr is an
    [option Attr], nil being [None].  The mutex is left out: the methods
    are modelled one call at a time. *)
Record MinFys := {
  basePath    : string;
  bucket      : string;
  maxAttempts : Z;
  fileMode    : Z;
  cacheData   : bool;
  cacheDir    : string;
  dirAttr     : option Attr;
  dirs        : smap bool;
  files       : smap (option Attr);
  dirContents : smap (list DirEntry)
}.

Definition setDir (k : string) (fs : MinFys) : MinFys :=
  {| basePath := basePath fs; bucket := bucket fs;
     maxAttempts := maxAttempts fs; fileMode := fileMode fs;
     cacheData := cacheData fs; cacheDir := cacheDir fs;
     dirAttr := dirAttr fs; dirs := put k true (dirs fs);
     files := files fs; dirContents := dirContents fs |}.

Definition setFile (k : string) (a : Attr) (fs : MinFys) : MinFys :=
  {| basePath := basePath fs; bucket := bucket fs;
     maxAttempts := maxAttempts fs; fileMode := fileMode fs;
     cacheData := cacheData fs; cacheDir := cacheDir fs;
     dirAttr := dirAttr fs; dirs := dirs fs;
     files := put k (Some a) (files fs); dirContents := dirContents fs |}.

Definition setDirContents (k : string) (es : list DirEntry) (fs : MinFys)
  : MinFys :=
  {| basePath := basePath fs; bucket := bucket fs;
     maxAttempts := maxAttempts fs; fileMode := fileMode fs;
     cacheData := cacheData fs; cacheDir := cacheDir fs;
     dirAttr := dirAttr fs; dirs := dirs fs;
     files := files fs; dirContents := put k es (dirContents fs) |}.

(** [fs.dirs[name]] as a value: false when there is no such key. *)
Definition isDirCached (fs : MinFys) (name : string) : bool :=
  match dirs fs name with
  | Some b => b
  | None => false
  end.

(** strings.HasSuffix. *)
Definition HasSuffix (s suffix : string) : bool :=
  (String.length suffix <=? String.length s)%nat
  && (substring (String.length s - String.length suffix)
                (String.length suffix) s =? suffix)%string.

(** How a call ends: it returns, it panics (a slice out of range, a nil
    pointer), or the model ran out of fuel. *)
Inductive Res (A : Type) :=
| Ret (a : A)
| Panic
| OutOfFuel.

Arguments Ret {A} a.
Arguments Panic {A}.
Arguments OutOfFuel {A}.

(** How one pass over the objects of a listing ends. *)
Inductive PassEnd :=
| PassDone                (* the channel was drained *)
| PassErr (e : error)     (* an object with an Err *)
| PassPanic.              (* object.Key is shorter than fullPath *)

Section Methods.

(** filepath.Join (of two elements) and filepath.Dir are the standard
    library's; [remote k prefix] is what the k-th call of ListObjectsV2
    made by this process sends when asked for [prefix]. *)
Variable Join : string -> string -> string.
Variable Dir : string -> string.
Variable remote : nat -> string -> list ObjectInfo.

(** GetPath combines any base path initially configured in Target with the
    current path, to get the real complete remote path. *)
Definition GetPath (fs : MinFys) (relPath : string) : string :=
  Join (basePath fs) relPath.

(** The body of [for object := range objectCh] in openDir; [entries] and
    [isDir] are the function's variables of these names. *)
Fixpoint pass (name fullPath : string) (objs : list ObjectInfo) (fs : MinFys)
         (entries : list DirEntry) (isDir : bool)
  : PassEnd * MinFys * list DirEntry * bool :=
  match objs with
  | [] => (PassDone, fs, entries, isDir)
  | object :: rest =>
      match o_Err object with
      | Some e => (PassErr e, fs, entries, isDir)
      | None =>
          if (o_Key object =? name)%string
          then pass name fullPath rest fs entries isDir
          else if (String.length (o_Key object) <? String.length fullPath)%nat
          then (PassPanic, fs, entries, isDir)
          else
            let dName :=
              substring (String.length fullPath)
                        (String.length (o_Key object) - String.length fullPath)
                        (o_Key object) in
            if HasSuffix dName "/"
            then
              let dName := substring 0 (String.length dName - 1) dName in
              let d := {| d_Name := dName; d_Mode := S_IFDIR |} in
              pass name fullPath rest (setDir (Join name dName) fs)
                   (entries ++ [d]) true
            else
              let d := {| d_Name := dName; d_Mode := S_IFREG |} in
              let thisPath := Join name dName in
              let mTime := uint64 (o_LastModified object) in
              let attr := {| a_Mode := Z.lor S_IFREG (fileMode fs);
                             a_Size := uint64 (o_Size object);
                             a_Mtime := mTime; a_Atime := mTime;
                             a_Ctime := mTime |} in
              pass name fullPath rest (setFile thisPath attr fs)
                   (entries ++ [d]) true
      end
  end.

(** The loop labelled ATTEMPTS and what follows it.  [attempts] cannot
    overflow: it is incremented only while below maxAttempts.  [calls]
    counts the calls of ListObjectsV2 made so far. *)
Fixpoint attemptLoop (fuel : nat) (name fullPath : string) (attempts : Z)
         (fs : MinFys) (calls : nat) (entries : list DirEntry) (isDir : bool)
  : Res (list DirEntry * Status) * MinFys * nat :=
  match fuel with
  | O => (OutOfFuel, fs, calls)
  | S fuel =>
      let attempts := attempts + 1 in
      let objectCh := remote calls fullPath in
      let '(e, fs, entries, isDir) :=
        pass name fullPath objectCh fs entries isDir in
      match e with
      | PassErr _ =>
          if attempts <? maxAttempts fs
          then attemptLoop fuel name fullPath attempts fs (S calls) entries isDir
          else (Ret (entries, EIO), fs, S calls)
      | PassPanic => (Panic, fs, S calls)
      | PassDone =>
          if isDir
          then (Ret (entries, OK),
                setDirContents name entries (setDir name fs), S calls)
          else (Ret ([], ENOENT), fs, S calls)
      end
  end.

(** openDir gets the contents of the given name, treating it as a
    directory, caching the attributes of its contents. *)
Definition openDir (name : string) (fs : MinFys) (calls : nat)
  : Res (list DirEntry * Status) * MinFys * nat :=
  let fullPath := GetPath fs name in
  let fullPath := if negb (fullPath =? "")%string
                  then (fullPath ++ "/")%string else fullPath in
  attemptLoop (Z.to_nat (Z.max 1 (maxAttempts fs))) name fullPath 0 fs calls
              [] false.

(** OpenDir gets the contents of the given directory for eg. `ls`
    purposes. *)
Definition OpenDir (name : string) (fs : MinFys) (calls : nat)
  : Res (list DirEntry * Status) * MinFys * nat :=
  match dirs fs name with
  | None => (Ret ([], ENOENT), fs, calls)
  | Some _ =>
      match dirContents fs name with
      | Some entries => (Ret (entries, OK), fs, calls)
      | None => openDir name fs calls
      end
  end.

(** maybeDir simply calls openDir() and returns the directory attributes if
    'name' was actually a directory. *)
Definition maybeDir (name : string) (fs : MinFys) (calls : nat)
  : Res (option Attr * Status) * MinFys * nat :=
  let '(r, fs, calls) := openDir name fs calls in
  match r with
  | Ret (_, status) =>
      (Ret (if isOK status then dirAttr fs else None, status), fs, calls)
  | Panic => (Panic, fs, calls)
  | OutOfFuel => (OutOfFuel, fs, calls)
  end.

(** maybeFile calls openDir() on the putative file's parent directory, then
    checks to see if that resulted in a file named 'name' being cached. *)
Definition maybeFile (name : string) (fs : MinFys) (calls : nat)
  : Res (option Attr * Status) * MinFys * nat :=
  let parent := Dir name in
  let parent := if (parent =? "/")%string then ""%string else parent in
  match dirContents fs name with
  | None =>
      let '(r, fs, calls) := openDir parent fs calls in
      match r with
      | Ret _ =>
          let attr := match files fs name with
                      | Some a => a
                      | None => None
                      end in
          (Ret (attr, match attr with Some _ => OK | None => ENOENT end),
           fs, calls)
      | Panic => (Panic, fs, calls)
      | OutOfFuel => (OutOfFuel, fs, calls)
      end
  | Some _ => (Ret (None, ENOENT), fs, calls)
  end.

(** The second try of GetAttr: [second] when [first] did not return OK. *)
Definition orElse (first second : string -> MinFys -> nat ->
                                  Res (option Attr * Status) * MinFys * nat)
           (name : string) (fs : MinFys) (calls : nat)
  : Res (option Attr * Status) * MinFys * nat :=
  let '(r, fs1, calls1) := first name fs calls in
  match r with
  | Ret (attr, status) =>
      if negb (isOK status) then second name fs1 calls1
      else (Ret (attr, status), fs1, calls1)
  | Panic => (Panic, fs1, calls1)
  | OutOfFuel => (OutOfFuel, fs1, calls1)
  end.

(** GetAttr finds out about a given object, returning information from a
    permanent cache if possible. *)
Definition GetAttr (name : string) (fs : MinFys) (calls : nat)
  : Res (option Attr * Status) * MinFys * nat :=
  if isDirCached fs name then (Ret (dirAttr fs, OK), fs, calls)
  else
    match files fs name with
    | Some attr => (Ret (attr, OK), fs, calls)
    | None =>
        (* a simple heuristic that if the name contains a '.', it's more
           likely to be a file *)
        if Strings.Contains name "."
        then orElse maybeFile maybeDir name fs calls
        else orElse maybeDir maybeFile name fs calls
    end.

End Methods.

(** What openCached and Open do outside the process. *)
Inductive CacheEffect :=
| EStat (dst : string)                 (* os.Stat(dst) *)
| ERemove (dst : string)               (* os.Remove(dst) *)
| EFGet (remotePath dst : string)      (* fs.client.FGetObject *)
| EOpen (dst : string).                (* os.Open(dst) *)

(** What openCached observes: the size os.Stat reports before and after
    the download, or its error; the error of the download and of
    os.Open. *)
Record CacheEnv := {
  cv_stat1 : Z + error;
  cv_fget  : option error;
  cv_stat2 : Z + error;
  cv_open  : option error
}.

(** The file that Open hands out. *)
Inductive File :=
| LoopbackFile (dst : string)               (* nodefs.NewLoopbackFile(localFile) *)
| S3File (remotePath : string) (size : Z).  (* NewS3File(fs, path, info.Size) *)

Section Opening.

Variable Join : string -> string -> string.
Variable ToStatus : error -> Status.

(** openCached downloads the remotePath to the configure CacheDir, then all
    subsequent read/write operations are deferred to the *os.File for that
    local file.  [info] is read (and must not be nil) where a size is
    compared. *)
Definition openCached (fs : MinFys) (name : string) (info : option Attr)
           (cv : CacheEnv) : Res (option File * Status) * list CacheEffect :=
  let remotePath := GetPath Join fs name in
  let dst := Join (cacheDir fs) remotePath in
  let opened (tr : list CacheEffect) :=
    match cv_open cv with
    | Some err => (Ret (None, ToStatus err), tr ++ [EOpen dst])
    | None => (Ret (Some (LoopbackFile dst), OK), tr ++ [EOpen dst])
    end in
  let downloaded (tr : list CacheEffect) :=
    let tr := tr ++ [EFGet remotePath dst] in
    match cv_fget cv with
    | Some _ => (Ret (None, EIO), tr)
    | None =>
        let tr := tr ++ [EStat dst] in
        match cv_stat2 cv with
        | inr err => (Ret (None, ToStatus err), tr ++ [ERemove dst])
        | inl size =>
            match info with
            | None => (Panic, tr)
            | Some info =>
                if negb (size =? int64 (a_Size info))
                then (Ret (None, EIO), tr ++ [ERemove dst])
                else opened tr
            end
        end
    end in
  (* check cache file doesn't already exist *)
  match cv_stat1 cv with
  | inr _ => downloaded [EStat dst; ERemove dst]
  | inl size =>
      (* check the file is the right size *)
      match info with
      | None => (Panic, [EStat dst])
      | Some info =>
          if negb (size =? int64 (a_Size info))
          then downloaded [EStat dst; ERemove dst]
          else opened [EStat dst]
      end
  end.

(** Open is what is called when any request to read a file is made.  The
    file must already have been stat'ed. *)
Definition Open (fs : MinFys) (name : string) (cv : CacheEnv)
  : Res (option File * Status) * list CacheEffect :=
  match files fs name with
  | None => (Ret (None, ENOENT), [])
  | Some info =>
      if cacheData fs
      then openCached fs name info cv
      else match info with
           | Some info =>
               (Ret (Some (S3File (GetPath Join fs name) (a_Size info)), OK), [])
           | None => (Panic, [])
           end
  end.

End Opening.

(** [fs'] has the configuration of [fs] and caches all that [fs] does: the
    directories known, the files that have attributes (whatever they are
    now) and the directories that have contents. *)
Definition extends (fs fs' : MinFys) : Prop :=
  basePath fs' = basePath fs /\ bucket fs' = bucket fs /\
  maxAttempts fs' = maxAttempts fs /\ fileMode fs' = fileMode fs /\
  cacheData fs' = cacheData fs /\ cacheDir fs' = cacheDir fs /\
  dirAttr fs' = dirAttr fs /\
  (forall k, isDirCached fs k = true -> isDirCached fs' k = true) /\
  (forall k, dirs fs k <> None -> dirs fs' k <> None) /\
  (forall k, files fs k <> None -> files fs' k <> None) /\
  (forall k, files fs' k = Some None -> files fs k = Some None) /\
  (forall k, dirContents fs k <> None -> dirContents fs' k <> None).

(** The calls of FGetObject in a trace. *)
Definition downloads (tr : list CacheEffect) : nat :=
  List.length (filter (fun e => match e with EFGet _ _ => true | _ => false end) tr).

(** Every call of FGetObject in the trace comes right after the removal of
    the file it downloads to. *)
Fixpoint freshDownloads (prev : option CacheEffect) (tr : list CacheEffect)
  : bool :=
  match tr with
  | [] => true
  | e :: rest =>
      match e with
      | EFGet _ dst =>
          match prev with
          | Some (ERemove dst') => (dst' =? dst)%string
          | _ => false
          end
      | _ => true
      end && freshDownloads (Some e) rest
  end.

(** A cache file of the wrong size, and a download that works. *)
Definition staleCache : CacheEnv :=
  {| cv_stat1 := inl 7; cv_fget := None; cv_stat2 := inl 12; cv_open := None |}.

Definition statedFs : MinFys :=
  {| basePath := "base"; bucket := "bkt"; maxAttempts := 3; fileMode := 292;
     cacheData := true; cacheDir := "/cache"; dirAttr := None;
     dirs := fun _ => None;
     files := fun q => if (q =? "data/a.txt")%string
                       then Some (Some {| a_Mode := 33060; a_Size := 12;
                                          a_Mtime := 0; a_Atime := 0;
                                          a_Ctime := 0 |})
                       else None;
     dirContents := fun _ => None |}.

Definition eioStatus (e : error) : Status := EIO.

(** A bucket with a file and a directory under "data/", whose listing
    fails once. *)
Definition sampleFs : MinFys :=
  {| basePath := "base"; bucket := "bkt"; maxAttempts := 3; fileMode := 292;
     cacheData := true; cacheDir := "/cache";
     dirAttr := Some {| a_Mode := 16749; a_Size := 4096; a_Mtime := 0;
                        a_Atime := 0; a_Ctime := 0 |};
     dirs := fun q => if (q =? "")%string then Some true else None;
     files := fun _ => None;
     dirContents := fun _ => None |}.

Definition slashJoin (a b : string) : string :=
  if (a =? "")%string then b
  else if (b =? "")%string then a else (a ++ "/" ++ b)%string.

Definition flakyRemote (k : nat) (prefix : string) : list ObjectInfo :=
  match k with
  | O => [ {| o_Key := ""; o_Size := 0; o_LastModified := 0;
              o_Err := Some (Opaque "connection reset") |} ]
  | _ => [ {| o_Key := "base/data/a.txt"; o_Size := 12; o_LastModified := 1500000000;
              o_Err := None |};
           {| o_Key := "base/data/sub/"; o_Size := 0; o_LastModified := 0;
              o_Err := None |} ]
  end.

Definition parentOf (name : string) : string :=
  if (name =? "data/a.txt")%string then "data"%string else "."%string.

End Minfys.

(* ===================================================================== *)
(** * Properties *)

Lemma wrap64_small (z : Z) : - 2 ^ 63 <= z < 2 ^ 63 -> wrap64 z = z.
Proof.
  intros H. unfold wrap64.
  rewrite Z.mod_small by lia. lia.
Qed.

Module StringsFacts.
Import Strings.

Lemma prefix_app (p s : string) :
  prefix p s = true <-> exists t, s = (p ++ t)%string.
Proof.
  revert s. induction p as [|a p IH]; intros s.
  - split; [intros _; now exists s | now destruct s].
  - destruct s as [|b s]; simpl.
    + split; [discriminate | intros [t Ht]; discriminate].
    + destruct (Ascii.ascii_dec a b) as [->|Hne].
      * rewrite IH. split; intros [t Ht]; exists t; congruence.
      * split; [discriminate | intros [t Ht]; congruence].
Qed.

Lemma Contains_Substring (s sub : string) :
  Contains s sub = true <-> Substring sub s.
Proof.
  unfold Substring. induction s as [|a s IH]; cbn [Contains].
  - destruct (prefix sub "") eqn:Hp.
    + split; [intros _ | reflexivity].
      apply prefix_app in Hp. destruct Hp as [t Ht]. now exists "", t.
    + split; [discriminate|].
      intros [pre [post H]]. destruct pre; simpl in H.
      * assert (prefix sub "" = true) by (apply prefix_app; now exists post).
        congruence.
      * discriminate.
  - destruct (prefix sub (String a s)) eqn:Hp.
    + split; [intros _ | reflexivity].
      apply prefix_app in Hp. destruct Hp as [t Ht]. now exists "", t.
    + rewrite IH. split.
      * intros [pre [post H]]. exists (String a pre), post. simpl. now f_equal.
      * intros [pre [post H]]. destruct pre as [|b pre]; simpl in H.
        -- assert (prefix sub (String a s) = true)
             by (apply prefix_app; now exists post).
           congruence.
        -- exists pre, post. congruence.
Qed.

Lemma length_append (a b : string) :
  String.length (a ++ b)%string = (String.length a + String.length b)%nat.
Proof. induction a; simpl; congruence. Qed.

End StringsFacts.

(* ===================================================================== *)
(** ** The command handed to the shell *)

Lemma append_longer (p s : string) : p <> ""%string -> (p ++ s)%string <> s.
Proof.
  intros Hp Heq.
  assert (H : String.length (p ++ s)%string = String.length s) by congruence.
  rewrite StringsFacts.length_append in H.
  destruct p; [congruence | simpl in H; lia].
Qed.

(** The command is prefixed with "set -o pipefail; " exactly when it
    contains the three characters space, pipe, space, and is left as it is
    otherwise. *)
Lemma shellCommand_prefix (cmd : string) :
  (shellCommand cmd = ("set -o pipefail; " ++ cmd)%string
     <-> Strings.Substring " | " cmd) /\
  (shellCommand cmd = cmd <-> ~ Strings.Substring " | " cmd).
Proof.
  unfold shellCommand.
  destruct (Strings.Contains cmd " | ") eqn:Hc.
  - apply StringsFacts.Contains_Substring in Hc.
    split; split; intros H; try reflexivity; try assumption.
    + exfalso. revert H. apply append_longer. discriminate.
    + contradiction.
  - assert (Hn : ~ Strings.Substring " | " cmd).
    { intros H. apply StringsFacts.Contains_Substring in H. congruence. }
    split; split; intros H; try reflexivity; try assumption.
    + exfalso. symmetry in H. revert H. apply append_longer. discriminate.
    + contradiction.
Qed.

(* ===================================================================== *)
(** ** Classification of the child's exit *)


(** Whatever the wait gave, the classification sets at least one of the
    three flags, so the report loop always has a method to call. *)
Lemma classify_dispatches (key : Job -> string) (job : Job)
      (w : WaitResult) (s : SupState) :
  dispatch (classify key job w s) <> None.
Proof.
  unfold classify. destruct w as [status | status e | e]; try discriminate.
  destruct (status =? 126); [discriminate|].
  destruct (status =? 127); [discriminate|].
  destruct (status =? 128); [discriminate|].
  destruct (ranoutMem s); [discriminate|].
  destruct (signalled s).
  - destruct (ranoutTime s); discriminate.
  - destruct (killCalled s); discriminate.
Qed.

(* ===================================================================== *)
(** ** The unmount after the run *)

Section Unmount.

Variable errText : error -> string.

(** What the body of [if strings.Contains(unmountErr.Error(), "failed to
    upload")] does to the decision. *)
Lemma afterUnmount_upload (ue : error) (v : Verdict) :
  Strings.Contains (errText ue) "failed to upload" = true ->
  let v' := afterUnmount errText (Some ue) v in
  dispatch v' = Some (if dobury v then CallBury else CallRelease) /\
  failreason v' = (if (failreason v =? "")%string then FailReasonUpload
                   else failreason v) /\
  exitcode v' = (if exitcode v =? 0 then -2 else exitcode v).
Proof.
  intros Hc. unfold afterUnmount. rewrite Hc. cbn.
  unfold dispatch. cbn.
  destruct (dobury v); repeat split.
Qed.

End Unmount.

(* ===================================================================== *)
(** ** The supervisory task *)

Lemma kills_app (a b : list Effect) : kills (a ++ b) = (kills a + kills b)%nat.
Proof.
  induction a as [|e a IH]; [reflexivity|].
  destruct e; simpl; rewrite IH; reflexivity.
Qed.

Lemma endCalls_app (a b : list Effect) : endCalls (a ++ b) = endCalls a ++ endCalls b.
Proof.
  induction a as [|e a IH]; [reflexivity|].
  destruct e; simpl; rewrite IH; reflexivity.
Qed.

Lemma triggers_app (a b : list Effect) : triggers (a ++ b) = triggers a ++ triggers b.
Proof.
  induction a as [|e a IH]; [reflexivity|].
  destruct e; simpl; rewrite IH; reflexivity.
Qed.

Lemma sleeps_app (a b : list Effect) : sleeps (a ++ b) = sleeps a ++ sleeps b.
Proof.
  induction a as [|e a IH]; [reflexivity|].
  destruct e; simpl; rewrite IH; reflexivity.
Qed.

Section SupervisorFacts.

Variable key : Job -> string.
Variable c : Client.
Variable job : Job.
Variable endT : Z.
Variable pe : ProcEnv.

Let step := supStep key c job endT pe.
Let run := supervise key c job endT pe.

(** Each iteration kills the child once at a kill site and not at all
    elsewhere. *)
Lemma supStep_kills (ev : SupEvent) (s : SupState) :
  kills (trace (fst (step ev s)))
  = (kills (trace s) + if killSite key c job ev s then 1 else 0)%nat.
Proof.
  unfold step. destruct ev as [|now x|mem errf|]; simpl.
  - rewrite kills_app. reflexivity.
  - destruct (Touch key c job x) as [kc errf]; simpl.
    destruct kc; simpl; rewrite kills_app; reflexivity.
  - destruct (is_nil errf && (peakmem s <? mem)); simpl; [|lia].
    destruct (RAM (Requirements job) <? mem); simpl; [rewrite kills_app; reflexivity | lia].
  - lia.
Qed.

(** A touch tick past endT whose touch reports no kill request: the
    overrun is latched, the child is left alone and the task goes on. *)
Lemma supStep_late_tick (now : Z) (x : Exchange) (s : SupState) :
  endT < now ->
  fst (Touch key c job x) = false ->
  step (TouchTick now x) s
  = ({| peakmem := peakmem s; ranoutMem := ranoutMem s; ranoutTime := true;
        signalled := signalled s; killCalled := killCalled s;
        killErr := killErr s; closeErr := closeErr s;
        trace := trace s ++ [ETouch] |}, true).
Proof.
  intros Hlate Hkc. unfold step. simpl.
  destruct (Touch key c job x) as [kc errf]; simpl in Hkc; subst kc.
  apply Z.ltb_lt in Hlate. rewrite Hlate.
  destruct (ranoutTime s); reflexivity.
Qed.

(** The supervisory task adds no end-state call and no behaviour trigger
    to the trace. *)
Lemma supStep_endCalls (ev : SupEvent) (s : SupState) :
  endCalls (trace (fst (step ev s))) = endCalls (trace s) /\
  triggers (trace (fst (step ev s))) = triggers (trace s) /\
  sleeps (trace (fst (step ev s))) = sleeps (trace s).
Proof.
  unfold step. destruct ev as [|now x|mem errf|]; simpl.
  - rewrite endCalls_app, triggers_app, sleeps_app; simpl.
    rewrite !app_nil_r. auto.
  - destruct (Touch key c job x) as [kc errf]; simpl.
    destruct kc; simpl; rewrite endCalls_app, triggers_app, sleeps_app; simpl;
      rewrite !app_nil_r; auto.
  - destruct (is_nil errf && (peakmem s <? mem)); simpl; [|auto].
    destruct (RAM (Requirements job) <? mem); simpl; [|auto].
    rewrite endCalls_app, triggers_app, sleeps_app; simpl.
    rewrite !app_nil_r. auto.
  - auto.
Qed.

Lemma supervise_endCalls (evs : list SupEvent) (s : SupState) :
  endCalls (trace (run evs s)) = endCalls (trace s) /\
  triggers (trace (run evs s)) = triggers (trace s) /\
  sleeps (trace (run evs s)) = sleeps (trace s).
Proof.
  unfold run. revert s. induction evs as [|ev evs IH]; intros s; simpl; [auto|].
  pose proof (supStep_endCalls ev s) as H. unfold step in H.
  destruct (supStep key c job endT pe ev s) as [s' go]; simpl in H.
  destruct go; [|exact H].
  destruct (IH s') as (A & B & C'). destruct H as (A' & B' & C'').
  repeat split; congruence.
Qed.

(** Without a kill site among the events, the child is never killed and
    none of the three kill flags is set. *)
Lemma supervise_no_kill (evs : list SupEvent) (s : SupState) :
  (forall ev s', In ev evs -> killSite key c job ev s' = false) ->
  kills (trace (run evs s)) = kills (trace s) /\
  signalled (run evs s) = signalled s /\
  killCalled (run evs s) = killCalled s /\
  ranoutMem (run evs s) = ranoutMem s.
Proof.
  unfold run. revert s. induction evs as [|ev evs IH]; intros s Hq; simpl; [auto|].
  assert (Hev : killSite key c job ev s = false) by (apply Hq; now left).
  pose proof (supStep_kills ev s) as Hk. unfold step in Hk. rewrite Hev in Hk.
  assert (Hf : signalled (fst (supStep key c job endT pe ev s)) = signalled s /\
               killCalled (fst (supStep key c job endT pe ev s)) = killCalled s /\
               ranoutMem (fst (supStep key c job endT pe ev s)) = ranoutMem s).
  { destruct ev as [|now x|mem errf|]; simpl in Hev |- *.
    - discriminate.
    - destruct (Touch key c job x) as [kc errf]; simpl in Hev; subst kc.
      simpl. auto.
    - destruct (is_nil errf && (peakmem s <? mem)); simpl in Hev |- *; [|auto].
      rewrite Hev. simpl. auto.
    - auto. }
  destruct (supStep key c job endT pe ev s) as [s' go]; simpl in Hk, Hf.
  destruct go.
  - destruct (IH s') as (A & B & C' & D).
    { intros ev' s'' Hin. apply Hq. now right. }
    destruct Hf as (B' & C'' & D').
    repeat split; try congruence. lia.
  - destruct Hf as (B' & C'' & D'). repeat split; try assumption. lia.
Qed.

End SupervisorFacts.

(* ===================================================================== *)
(** ** The end-state methods and the report loop *)

Section ReportFacts.

Variable compress : bytes -> bytes * option error.
Variable errText : error -> string.
Variable key : Job -> string.
Variable recsAfterFailure : Job -> scheduler_Requirements.

Lemma request_fails (c : Client) (cr : clientRequest) (x : Exchange) :
  exchangeOk x = false -> reply_err (snd (request key c cr x)) <> None.
Proof.
  intros Hx. destruct x as [e|e|e|e|sr]; simpl; try discriminate.
  simpl in Hx. rewrite Hx. simpl. discriminate.
Qed.

Lemma request_succeeds (c : Client) (cr : clientRequest) (x : Exchange) :
  exchangeOk x = true -> exists sr, snd (request key c cr x) = Succeeded sr.
Proof.
  intros Hx. destruct x as [e|e|e|e|sr]; simpl in Hx; try discriminate.
  exists sr. simpl. rewrite Hx. reflexivity.
Qed.

Lemma Archive_fails (c : Client) (job : Job) (jes : option JobEndState)
      (x : Exchange) :
  exchangeOk x = false -> snd (Archive compress key c job jes x) <> None.
Proof.
  intros Hx. unfold Archive.
  destruct (ended compress job jes) as [j1 [e1|]]; simpl; [discriminate|].
  pose proof (request_fails c (jobRequest "jarchive" j1 jes) x Hx) as H.
  destruct (snd (request key c (jobRequest "jarchive" j1 jes) x));
    simpl in *; congruence.
Qed.

Lemma Release_fails (c : Client) (job : Job) (jes : option JobEndState)
      (reason : string) (x : Exchange) :
  exchangeOk x = false ->
  snd (Release compress key recsAfterFailure c job jes reason x) <> None.
Proof.
  intros Hx. unfold Release.
  destruct (ended compress job jes) as [j1 [e1|]]; simpl; [discriminate|].
  pose proof (request_fails c
                (jobRequest "jrelease" (JobSet.failReason reason j1) jes) x Hx) as H.
  destruct (snd (request key c
                   (jobRequest "jrelease" (JobSet.failReason reason j1) jes) x));
    simpl in *; congruence.
Qed.

Lemma Bury_fails (c : Client) (job : Job) (jes : option JobEndState)
      (reason : string) (stderr : list (option error)) (x : Exchange) :
  exchangeOk x = false ->
  snd (Bury compress errText key c job jes reason stderr x) <> None.
Proof.
  intros Hx. unfold Bury.
  destruct (ended compress job jes) as [j1 [e1|]]; simpl; [discriminate|].
  match goal with
  | |- context [let '(_, _) := ?scrut in _] => destruct scrut as [j2 [e2|]]
  end; simpl; [discriminate|].
  pose proof (request_fails c (jobRequest "jbury" j2 jes) x Hx) as H.
  destruct (snd (request key c (jobRequest "jbury" j2 jes) x));
    simpl in *; congruence.
Qed.

Let once := reportOnce compress errText key recsAfterFailure.
Let loop := reportLoop compress errText key recsAfterFailure.

(** With a disposition, one pass through the chain calls its method and
    nothing else. *)
Lemma reportOnce_calls (c : Client) (v : Verdict) (jes : JobEndState)
      (job : Job) (err : option error) (x : Exchange) (m : EndCall) :
  dispatch v = Some m ->
  snd (once c v jes job err x) = [ECall m].
Proof.
  intros Hd. unfold once, reportOnce. rewrite Hd. destruct m.
  - destruct (Bury _ _ _ _ _ _ _ _ _) as [j e]. reflexivity.
  - destruct (Release _ _ _ _ _ _ _ _) as [j e]. reflexivity.
  - destruct (Archive _ _ _ _ _ _) as [j e]. reflexivity.
Qed.

Lemma reportOnce_fails (c : Client) (v : Verdict) (jes : JobEndState)
      (job : Job) (err : option error) (x : Exchange) (m : EndCall) :
  dispatch v = Some m ->
  exchangeOk x = false ->
  snd (fst (once c v jes job err x)) <> None.
Proof.
  intros Hd Hx. unfold once, reportOnce. rewrite Hd. destruct m.
  - pose proof (Bury_fails c job (Some jes) (failreason v) [] x Hx) as H.
    destruct (Bury _ _ _ _ _ _ _ _ _) as [j e]. exact H.
  - pose proof (Release_fails c job (Some jes) (failreason v) x Hx) as H.
    destruct (Release _ _ _ _ _ _ _ _) as [j e]. exact H.
  - pose proof (Archive_fails c job (Some jes) x Hx) as H.
    destruct (Archive _ _ _ _ _ _) as [j e]. exact H.
Qed.

(** The sleep after failed attempt number i, for the attempts the loop can
    make: i x 100 ms, without overflow. *)
Lemma backoff_value (i : nat) :
  (i < 300)%nat ->
  wrap64 (wrap64 (Z.of_nat i * 100) * Millisecond)
  = Z.of_nat i * 100 * Millisecond.
Proof.
  intros Hi. unfold Millisecond.
  rewrite (wrap64_small (Z.of_nat i * 100)) by lia.
  apply wrap64_small. lia.
Qed.

(** The shape of the loop's trace: some number k of failed attempts, each
    followed by its sleep; then either a last attempt that worked, or the
    end of the budget. *)
Lemma reportLoop_shape (c : Client) (v : Verdict) (jes : JobEndState)
      (net : Z -> Exchange) (m : EndCall) :
  dispatch v = Some m ->
  forall (n i : nat) (job : Job) (err : option error),
    (i + n <= 300)%nat ->
    exists k : nat,
      (k <= n)%nat /\
      ((snd (fst (loop n (Z.of_nat i) c v jes net job err)) = true /\
        (k < n)%nat /\
        snd (loop n (Z.of_nat i) c v jes net job err)
        = retriesFrom m i k ++ [ECall m] /\
        snd (fst (fst (loop n (Z.of_nat i) c v jes net job err))) = None)
       \/
       (snd (fst (loop n (Z.of_nat i) c v jes net job err)) = false /\
        k = n /\
        snd (loop n (Z.of_nat i) c v jes net job err) = retriesFrom m i n)).
Proof.
  intros Hd. induction n as [|n IH]; intros i job err Hn.
  - exists 0%nat. split; [lia|]. right. simpl. auto.
  - unfold loop. cbn [reportLoop]. fold loop.
    pose proof (reportOnce_calls c v jes job err (net (Z.of_nat i)) m Hd) as Hc.
    unfold once in Hc.
    destruct (reportOnce compress errText key recsAfterFailure c v jes job err
                         (net (Z.of_nat i))) as [[j1 e1] eff1].
    simpl in Hc. subst eff1.
    destruct e1 as [e1|].
    + replace (Z.of_nat i + 1) with (Z.of_nat (S i)) by lia.
      destruct (IH (S i) j1 (Some e1)) as [k [Hk Hcase]]; [lia|].
      fold loop.
      destruct (loop n (Z.of_nat (S i)) c v jes net j1 (Some e1))
        as [[[j2 e2] w2] eff2].
      simpl in Hcase. simpl.
      rewrite backoff_value by lia.
      exists (S k). split; [lia|].
      destruct Hcase as [(Hw & Hlt & Heff & He) | (Hw & Heq & Heff)].
      * left. repeat split; try assumption; try lia.
        subst eff2. unfold retriesFrom. reflexivity.
      * right. repeat split; try assumption; try lia.
        subst eff2. unfold retriesFrom. reflexivity.
    + exists 0%nat. split; [lia|]. left. simpl.
      repeat split; try reflexivity. lia.
Qed.

(** When no exchange is answered without an error, no attempt works. *)
Lemma reportLoop_all_fail (c : Client) (v : Verdict) (jes : JobEndState)
      (net : Z -> Exchange) (m : EndCall) :
  dispatch v = Some m ->
  forall (n i : nat) (job : Job) (err : option error),
    (forall r, (i <= r < i + n)%nat -> exchangeOk (net (Z.of_nat r)) = false) ->
    snd (fst (loop n (Z.of_nat i) c v jes net job err)) = false /\
    (err <> None \/ (0 < n)%nat ->
     snd (fst (fst (loop n (Z.of_nat i) c v jes net job err))) <> None).
Proof.
  intros Hd. induction n as [|n IH]; intros i job err Hall.
  - simpl. split; [reflexivity|]. intros [H|H]; [exact H | lia].
  - unfold loop. cbn [reportLoop]. fold loop.
    pose proof (reportOnce_fails c v jes job err (net (Z.of_nat i)) m Hd) as Hf.
    unfold once in Hf.
    destruct (reportOnce compress errText key recsAfterFailure c v jes job err
                         (net (Z.of_nat i))) as [[j1 e1] eff1].
    simpl in Hf.
    destruct e1 as [e1|]; [|exfalso; apply Hf; [apply Hall; lia | reflexivity]].
    replace (Z.of_nat i + 1) with (Z.of_nat (S i)) by lia.
    destruct (IH (S i) j1 (Some e1)) as [Hw He].
    { intros r Hr. apply Hall. lia. }
    fold loop.
    destruct (loop n (Z.of_nat (S i)) c v jes net j1 (Some e1))
      as [[[j2 e2] w2] eff2].
    simpl in *. split; [assumption|]. intros _.
    apply He. left. discriminate.
Qed.

End ReportFacts.

(* ===================================================================== *)
(** ** Execute after the child's exit *)

Section ExecuteFacts.

Variable compress : bytes -> bytes * option error.
Variable errText : error -> string.
Variable key : Job -> string.
Variable recsAfterFailure : Job -> scheduler_Requirements.
Variable TrimSpace : bytes -> bytes.

Lemma dispatch_withMyerr (e : option error) (v : Verdict) :
  dispatch (withMyerr e v) = dispatch v.
Proof. reflexivity. Qed.

Lemma dispatch_uploadFailed (v : Verdict) :
  dispatch (uploadFailed v) <> None.
Proof.
  unfold dispatch, uploadFailed. simpl.
  destruct (dobury v); simpl; discriminate.
Qed.

Lemma dispatch_afterUnmount (ue : option error) (v : Verdict) :
  dispatch v <> None -> dispatch (afterUnmount errText ue v) <> None.
Proof.
  intros H. unfold afterUnmount. destruct ue as [ue|]; [|exact H].
  rewrite dispatch_withMyerr.
  destruct (Strings.Contains (errText ue) "failed to upload");
    [apply dispatch_uploadFailed | exact H].
Qed.

Lemma outcome_beforeUnmount (job : Job) (s : SupState) (po : PostEnv) :
  outcome (beforeUnmount errText key job s po)
  = outcome (classify key job (po_wait po) s).
Proof. reflexivity. Qed.

(** When the report loop starts there is a method for it to call. *)
Lemma settled_dispatches (job : Job) (s : SupState) (po : PostEnv) :
  exists m, dispatch (settled errText key job s po) = Some m.
Proof.
  assert (H : dispatch (settled errText key job s po) <> None).
  { unfold settled. apply dispatch_afterUnmount.
    unfold beforeUnmount, beforeBehaviours, decided. rewrite !dispatch_withMyerr.
    apply classify_dispatches. }
  destruct (dispatch (settled errText key job s po)) as [m|];
    [now exists m | congruence].
Qed.

Let Run := ExecuteRun compress errText key recsAfterFailure TrimSpace.

(** What Execute does from the launch of the supervisory task on: the
    supervision, the behaviours, the unmount, k failed reports with their
    sleeps, and then either the report that worked or, with the budget of
    300 spent, the behaviours once more and the error that asks for a
    rerun. *)
Lemma ExecuteRun_trace (c : Client) (job : Job) (actualCwd : string)
      (endT : Z) (pe : ProcEnv) (evs : list SupEvent) (po : PostEnv) :
  let s := supervise key c job endT pe evs supInit in
  let v := settled errText key job s po in
  let success := is_nil (myerr (beforeBehaviours errText key job s po)) in
  let r := Run c job actualCwd endT pe evs po in
  exists (m : EndCall) (k : nat),
    dispatch v = Some m /\
    (((k < 300)%nat /\
      snd r = trace s ++ [ETrigger success; EUnmount] ++ retries m k ++ [ECall m] /\
      snd (fst r) = myerr v)
     \/
     (k = 300%nat /\
      snd r = trace s ++ [ETrigger success; EUnmount] ++ retries m 300
                      ++ [ETrigger false] /\
      exists (err : option error) (extra : fmtarg),
        snd (fst r)
        = Some (Errorf "command [%s] finished running, but will need to be rerun due to a jobqueue server error: %s%s"
                       [FStr (Cmd (fst (fst r))); FOptErr err; extra]))) /\
    ((forall n, (n < 300)%nat -> exchangeOk (po_net po (Z.of_nat n)) = false) ->
     k = 300%nat).
Proof.
  intros s v success r.
  destruct (settled_dispatches job s po) as [m Hm]. fold v in Hm.
  pose proof (reportLoop_shape compress errText key recsAfterFailure c v
                (endState errText key TrimSpace job actualCwd s po)
                (po_net po) m Hm 300 0 job (waitErr (po_wait po))) as Hshape.
  destruct Hshape as [k [Hk Hcase]]; [lia|].
  pose proof (reportLoop_all_fail compress errText key recsAfterFailure c v
                (endState errText key TrimSpace job actualCwd s po)
                (po_net po) m Hm 300 0 job (waitErr (po_wait po))) as Hfail.
  subst r. unfold Run, ExecuteRun. fold s. fold v.
  change (Z.to_nat maxRetries) with 300%nat.
  change (Z.of_nat 0) with 0 in Hcase, Hfail.
  destruct (reportLoop compress errText key recsAfterFailure 300 0 c v
              (endState errText key TrimSpace job actualCwd s po)
              (po_net po) job (waitErr (po_wait po)))
    as [[[j' e'] worked] eff].
  simpl in Hcase, Hfail.
  exists m, k. split; [exact Hm|].
  destruct Hcase as [(Hw & Hlt & Heff & He) | (Hw & Heq & Heff)]; subst worked.
  - split.
    + left. simpl. subst eff. unfold retries. auto.
    + intros Hall. destruct (Hfail (fun n Hn => Hall n ltac:(lia))) as [Hw _].
      discriminate.
  - split; [|auto].
    right. simpl. subst eff. split; [assumption|]. split.
    + unfold retries. rewrite <- !app_assoc. reflexivity.
    + eauto.
Qed.

End ExecuteFacts.

Lemma endCalls_retriesFrom (m : EndCall) (i k : nat) :
  endCalls (retriesFrom m i k) = repeat m k.
Proof.
  unfold retriesFrom. revert i. induction k as [|k IH]; intros i; [reflexivity|].
  simpl. f_equal. apply IH.
Qed.



(* ===================================================================== *)
(** ** The final-state report *)



(* ===================================================================== *)
(** ** Reserve and FirstReserve *)

Section ReserveFacts.

Variable key : Job -> string.

Lemma request_FirstReserve (c : Client) (cr : clientRequest) (x : Exchange) :
  rq_FirstReserve (fst (request key c cr x)) = rq_FirstReserve cr.
Proof.
  destruct x as [e|e|e|e|sr]; simpl; try reflexivity.
  destruct (negb (sr_Err sr =? "")%string); reflexivity.
Qed.

(** One reserve call: the flag it sends is the negation of hasReserved,
    and hasReserved is set afterwards, whatever the exchange does. *)
Lemma reserve_call_flag (c : Client) (call : ReserveCall) (x : Exchange) :
  let r := match call with
           | DoReserve t => Reserve key c t x
           | DoReserveScheduled t g => ReserveScheduled key c t g x
           end in
  rq_FirstReserve (snd (fst r)) = negb (hasReserved c) /\
  hasReserved (fst (fst r)) = true.
Proof.
  destruct call as [t | t g]; unfold Reserve, ReserveScheduled, firstReserve;
    destruct (hasReserved c) eqn:Hh; cbn [negb];
    match goal with
    | |- context [request key ?c' ?cr x] =>
        pose proof (request_FirstReserve c' cr x) as Hf;
        destruct (request key c' cr x) as [cr' rep]
    end;
    simpl in Hf; destruct rep; simpl; auto.
Qed.

Lemma reserveCalls_reserved (c : Client) (calls : list (ReserveCall * Exchange)) :
  hasReserved c = true ->
  firstReserveFlags (snd (reserveCalls key c calls)) = map (fun _ => false) calls.
Proof.
  revert c. induction calls as [|[call x] rest IH]; intros c Hc; [reflexivity|].
  cbn [reserveCalls].
  pose proof (reserve_call_flag c call x) as [Hflag Hres].
  destruct (match call with
            | DoReserve t => Reserve key c t x
            | DoReserveScheduled t g => ReserveScheduled key c t g x
            end) as [[c1 cr] res].
  simpl in Hflag, Hres.
  specialize (IH c1 Hres).
  destruct (reserveCalls key c1 rest) as [c2 out].
  simpl in IH |- *. rewrite Hflag, Hc, IH. reflexivity.
Qed.

End ReserveFacts.

(** C4, as the code has it: of the requests that one client sends through
    Reserve and ReserveScheduled, the first carries FirstReserve=true and
    every later one FirstReserve=false, whether or not the calls succeed. *)
Theorem firstReserve_on_first_call (key : Job -> string) (u : UUID) (tok : bytes)
        (call : ReserveCall) (x : Exchange)
        (rest : list (ReserveCall * Exchange)) :
  firstReserveFlags (snd (reserveCalls key (newClient u tok) ((call, x) :: rest)))
  = true :: map (fun _ => false) rest.
Proof.
  cbn [reserveCalls].
  pose proof (reserve_call_flag key (newClient u tok) call x) as [Hflag Hres].
  destruct (match call with
            | DoReserve t => Reserve key (newClient u tok) t x
            | DoReserveScheduled t g => ReserveScheduled key (newClient u tok) t g x
            end) as [[c1 cr] res].
  simpl in Hflag, Hres.
  pose proof (reserveCalls_reserved key c1 rest Hres) as Hrest.
  destruct (reserveCalls key c1 rest) as [c2 out].
  simpl in Hrest |- *. rewrite Hflag, Hrest. reflexivity.
Qed.

(** C4 as stated fails: when the first reserve call of a client fails and
    its second succeeds, FirstReserve=true went out with the failed call and
    the first successful call carries FirstReserve=false. *)
Lemma firstReserve_not_first_success :
  let calls :=
    [ (DoReserve 1000, RecvFailed (Opaque "receive deadline exceeded"));
      (DoReserveScheduled 1000 "200:30:1:0",
       Decoded {| sr_Job := Some (sampleJob "true"); sr_KillCalled := false;
                  sr_Err := "" |}) ] in
  let out := snd (reserveCalls cmdKey (newClient 7%N []) calls) in
  map (fun o => reserveSucceeded (snd o)) out = [false; true] /\
  firstReserveFlags out = [true; false] /\
  firstReserveFlags out <> firstSuccessfulOnly (map snd out).
Proof.
  intros calls out. split; [reflexivity|]. split; [reflexivity|].
  vm_compute. discriminate.
Qed.

(* ===================================================================== *)
(** ** ended, Archive, Release, Bury *)

Section EndStateFacts.

Variable compress : bytes -> bytes * option error.
Variable errText : error -> string.
Variable key : Job -> string.
Variable recsAfterFailure : Job -> scheduler_Requirements.

Lemma ended_notExited (job : Job) (jes : option JobEndState) :
  notExited jes = true -> ended compress job jes = (job, None).
Proof.
  intros H. destruct jes as [e|]; [|reflexivity].
  simpl in H. unfold ended. rewrite H. reflexivity.
Qed.

(** [ended] leaves the retry budget and the state alone. *)
Lemma ended_budget (job : Job) (jes : option JobEndState) :
  UntilBuried (fst (ended compress job jes)) = UntilBuried job /\
  State (fst (ended compress job jes)) = State job.
Proof.
  unfold ended. destruct jes as [e|]; [|auto].
  destruct (jes_Exited e); cbn [negb]; [|auto].
  destruct (negb (jes_Cwd e =? "")%string);
    destruct (nonempty (jes_Stdout e));
    try destruct (compress (jes_Stdout e)) as [z1 [e1|]];
    try (simpl; auto; fail);
    destruct (nonempty (jes_Stderr e));
    try destruct (compress (jes_Stderr e)) as [z2 e2];
    simpl; auto.
Qed.

End EndStateFacts.



(** C10, as the code has it: with a JobEndState that is nil or whose Exited
    is false, [ended] returns nil and the job as it was, so Archive and
    Release leave Exited, Exitcode, PeakRAM, CPUtime, ActualCwd, StdOutC and
    StdErrC as they were, and so does Bury unless it is given its optional
    stderr error; given one, Bury replaces StdErrC by the compressed error
    text and leaves the other six fields as they were. *)
Theorem ended_not_exited_frame
        (compress : bytes -> bytes * option error) (errText : error -> string)
        (key : Job -> string) (recsAfterFailure : Job -> scheduler_Requirements)
        (c : Client) (job : Job) (jes : option JobEndState)
        (reason : string) (stderr : list (option error)) (x : Exchange) :
  notExited jes = true ->
  let buried := fst (Bury compress errText key c job jes reason stderr x) in
  ended compress job jes = (job, None) /\
  endFields (fst (Archive compress key c job jes x)) = endFields job /\
  endFields (fst (Release compress key recsAfterFailure c job jes reason x))
  = endFields job /\
  ((forall e, stderr <> [Some e]) -> endFields buried = endFields job) /\
  (forall e, stderr = [Some e] ->
     StdErrC buried = fst (compress (list_byte_of_string (errText e))) /\
     (Exited buried, Exitcode buried, PeakRAM buried, CPUtime buried,
      ActualCwd buried, StdOutC buried)
     = (Exited job, Exitcode job, PeakRAM job, CPUtime job,
        ActualCwd job, StdOutC job)).
Proof.
  intros Hne buried. subst buried.
  pose proof (ended_notExited compress job jes Hne) as He.
  split; [exact He|]. split; [|split; [|split]].
  - unfold Archive. rewrite He.
    destruct (snd (request key c (jobRequest "jarchive" job jes) x)); reflexivity.
  - unfold Release. rewrite He.
    destruct (snd (request key c
                     (jobRequest "jrelease" (JobSet.failReason reason job) jes) x));
      try reflexivity.
    destruct (Exited (JobSet.failReason reason job)
              && negb (Exitcode (JobSet.failReason reason job) =? 0));
      match goal with
      | |- context [if ?b then _ else _] => destruct b
      end; reflexivity.
  - intros Hnone. unfold Bury. rewrite He.
    assert (Hskip : match stderr with
                    | [Some e] =>
                        let '(z, err) := compress (list_byte_of_string (errText e)) in
                        (JobSet.stdErrC z (JobSet.failReason reason job), err)
                    | _ => (JobSet.failReason reason job, None)
                    end = (JobSet.failReason reason job, None)).
    { destruct stderr as [|[e|] [|o rest]]; try reflexivity.
      exfalso. apply (Hnone e). reflexivity. }
    rewrite Hskip.
    destruct (snd (request key c
                     (jobRequest "jbury" (JobSet.failReason reason job) jes) x));
      reflexivity.
  - intros e ->. unfold Bury. rewrite He.
    destruct (compress (list_byte_of_string (errText e))) as [z [e2|]];
      [split; reflexivity|].
    destruct (snd (request key c
                     (jobRequest "jbury"
                        (JobSet.stdErrC z (JobSet.failReason reason job)) jes) x));
      split; reflexivity.
Qed.

Lemma ended_not_exited_frame_witness :
  notExited None = true /\
  endFields (fst (Release storeCompress cmdKey sameRecs sampleClient
                          (sampleJob "true") None FailReasonStart
                          (Decoded okResponse)))
  = endFields (sampleJob "true").
Proof.
  split; [reflexivity|].
  exact (proj1 (proj2 (proj2
           (ended_not_exited_frame storeCompress plainText cmdKey sameRecs
              sampleClient (sampleJob "true") None FailReasonStart []
              (Decoded okResponse) eq_refl)))).
Defined.

(** C10 as stated fails for Bury: called with a nil JobEndState and its
    optional stderr error, as Execute does when the working directory
    cannot be created or the mount fails, Bury changes StdErrC. *)
Lemma Bury_nil_changes_StdErrC :
  let job := sampleJob "true" in
  let buried :=
    fst (Bury storeCompress plainText cmdKey sampleClient job None
              FailReasonMount
              [Some (Opaque "failed to mount remote file system(s): x")]
              (Decoded okResponse)) in
  notExited None = true /\
  StdErrC job = [] /\
  StdErrC buried <> StdErrC job /\
  endFields buried <> endFields job.
Proof.
  intros job buried. split; [reflexivity|]. split; [reflexivity|].
  split; vm_compute; discriminate.
Qed.

(* ===================================================================== *)
(** ** Touch against the end-state methods *)

Module LocksFacts.
Import Locks.

Lemma bracketed_app (p q : list Instr) (held : bool) :
  bracketed held p = true ->
  bracketed false q = true ->
  bracketed held (p ++ q) = true.
Proof.
  revert held. induction p as [|ins p IH]; intros held Hp Hq.
  - simpl in Hp. destruct held; [discriminate | exact Hq].
  - destruct ins as [[|]|[|]|m|m|]; destruct held; simpl in Hp |- *;
      try discriminate; apply IH; assumption.
Qed.

Section Bodies.

Variable compress : bytes -> bytes * option error.
Variable errText : error -> string.

Lemma requestBody_bracketed (method : string) (x : Exchange) :
  bracketed true (requestBody method x ++ [Unlock teMutex]) = true /\
  bracketed true (requestBody method x ++ stateUpdate x ++ [Unlock teMutex])
  = true.
Proof.
  unfold stateUpdate. destruct x as [e|e|e|e|sr]; split; try reflexivity.
  simpl. destruct (sr_Err sr =? "")%string; reflexivity.
Qed.

Lemma endedBody_bracketed (jes : option JobEndState) :
  bracketed false (endedBody jes) = true.
Proof. unfold endedBody. destruct (notExited jes); reflexivity. Qed.

(** Every method leaves teMutex as it found it, free, and goes to the
    socket only while holding it. *)
Lemma body_bracketed (call : Call) :
  bracketed false (body compress errText call) = true.
Proof.
  destruct call as [x | job jes x | job jes x | job jes stderr x]; simpl.
  - unfold touchBody. simpl. apply requestBody_bracketed.
  - unfold archiveBody. apply bracketed_app; [apply endedBody_bracketed|].
    destruct (snd (ended compress job jes)); [reflexivity|].
    simpl. apply requestBody_bracketed.
  - unfold releaseBody. apply bracketed_app; [apply endedBody_bracketed|].
    destruct (snd (ended compress job jes)); [reflexivity|].
    simpl. apply requestBody_bracketed.
  - unfold buryBody. apply bracketed_app; [apply endedBody_bracketed|].
    destruct (snd (ended compress job jes)); [reflexivity|].
    simpl.
    assert (Hreq : bracketed true ((requestBody "jbury" x ++ stateUpdate x)
                                     ++ [Unlock teMutex]) = true).
    { rewrite <- app_assoc. apply requestBody_bracketed. }
    destruct stderr as [|[e|] [|o rest]]; try exact Hreq.
    destruct (snd (compress (list_byte_of_string (errText e))));
      [reflexivity | exact Hreq].
Qed.

Lemma program_bracketed (calls : list Call) :
  bracketed false (program compress errText calls) = true.
Proof.
  unfold program. induction calls as [|call calls IH]; [reflexivity|].
  simpl. apply bracketed_app; [apply body_bracketed | exact IH].
Qed.

(** The invariant: each goroutine's remaining steps are bracketed, from
    holding teMutex exactly when it is the holder on record. *)
Definition inv (s : Sys) : Prop :=
  forall i, bracketed (holdsTe s i) (progs s i) = true.

Lemma inv_init (threads : nat -> list Call) :
  inv (init compress errText threads).
Proof. intros i. apply program_bracketed. Qed.

Lemma inv_step (s s' : Sys) : inv s -> step s s' -> inv s'.
Proof.
  intros Hinv Hstep k. pose proof (Hinv k) as Hk.
  destruct Hstep as [i m rest Hp Hfree | i m rest Hp | i meth rest Hp
                    | i meth rest Hp | i rest Hp];
    pose proof (Hinv i) as Hi; rewrite Hp in Hi;
    unfold holdsTe, setHolder, setProg in *; simpl in *.
  - (* Lock *)
    destruct m; simpl in *.
    + rewrite Hfree in *. simpl in Hi.
      destruct (Nat.eqb_spec k i) as [->|Hne].
      * rewrite Nat.eqb_refl. exact Hi.
      * destruct (Nat.eqb_spec i k) as [Heq|_]; [congruence | exact Hk].
    + destruct (Nat.eqb_spec k i) as [->|Hne]; [exact Hi | exact Hk].
  - (* Unlock *)
    destruct m; simpl in *.
    + apply andb_true_iff in Hi. destruct Hi as [Hheld Hi].
      destruct (holder s teMutex) as [j|]; [|discriminate].
      apply Nat.eqb_eq in Hheld. subst j.
      destruct (Nat.eqb_spec k i) as [->|Hne]; [exact Hi|].
      destruct (Nat.eqb_spec i k) as [Heq|_]; [congruence | exact Hk].
    + destruct (Nat.eqb_spec k i) as [->|Hne]; [exact Hi | exact Hk].
  - apply andb_true_iff in Hi. destruct Hi as [_ Hi].
    destruct (Nat.eqb_spec k i) as [->|Hne]; [exact Hi | exact Hk].
  - apply andb_true_iff in Hi. destruct Hi as [_ Hi].
    destruct (Nat.eqb_spec k i) as [->|Hne]; [exact Hi | exact Hk].
  - destruct (Nat.eqb_spec k i) as [->|Hne]; [exact Hi | exact Hk].
Qed.

Lemma inv_reachable (threads : nat -> list Call) (s : Sys) :
  reachable (init compress errText threads) s -> inv s.
Proof.
  induction 1 as [|s s' _ IH Hstep]; [apply inv_init | exact (inv_step s s' IH Hstep)].
Qed.

Lemma atSocket_holds (s : Sys) (i : nat) (m : string) :
  inv s -> atSocket (progs s i) = Some m -> holder s teMutex = Some i.
Proof.
  intros Hinv Hat. specialize (Hinv i). unfold holdsTe in Hinv.
  destruct (progs s i) as [|[mx|mx|meth|meth|] rest]; simpl in Hat; try discriminate;
    simpl in Hinv; apply andb_true_iff in Hinv; destruct Hinv as [Hh _];
    (destruct (holder s teMutex) as [j|]; [|discriminate]);
    apply Nat.eqb_eq in Hh; congruence.
Qed.

End Bodies.

End LocksFacts.

(** C9: with any number of goroutines calling Touch, Archive, Release and
    Bury on one client, in any interleaving, a goroutine is at the socket
    only while it holds teMutex; so while a touch is at the socket no other
    goroutine has a request there, the jbury, jrelease or jarchive of an
    end-state method in particular. *)
Theorem touch_excludes_end_state
        (compress : bytes -> bytes * option error) (errText : error -> string)
        (threads : nat -> list Locks.Call) (s : Locks.Sys) :
  Locks.reachable (Locks.init compress errText threads) s ->
  (forall i m, Locks.atSocket (Locks.progs s i) = Some m ->
               Locks.holder s Locks.teMutex = Some i) /\
  (forall i j m,
      i <> j ->
      Locks.atSocket (Locks.progs s i) = Some "jtouch"%string ->
      Locks.atSocket (Locks.progs s j) = Some m ->
      ~ In m ["jbury"; "jrelease"; "jarchive"]%string).
Proof.
  intros Hreach.
  pose proof (LocksFacts.inv_reachable compress errText threads s Hreach) as Hinv.
  split.
  - intros i m. apply LocksFacts.atSocket_holds. exact Hinv.
  - intros i j m Hne Hi Hj _.
    pose proof (LocksFacts.atSocket_holds s i _ Hinv Hi) as H1.
    pose proof (LocksFacts.atSocket_holds s j _ Hinv Hj) as H2.
    congruence.
Qed.

(** Extending a run by one step of goroutine [i]. *)
Ltac run_lock R i m :=
  match type of R with
  | Locks.reachable ?s0 ?s =>
      let R' := fresh "R" in
      eassert (R' : Locks.reachable s0 _)
        by (eapply Locks.reach_step;
            [exact R | eapply (Locks.step_lock s i m); reflexivity])
  end.

Ltac run_unlock R i m :=
  match type of R with
  | Locks.reachable ?s0 ?s =>
      let R' := fresh "R" in
      eassert (R' : Locks.reachable s0 _)
        by (eapply Locks.reach_step;
            [exact R | eapply (Locks.step_unlock s i m); reflexivity])
  end.

Ltac run_local R i :=
  match type of R with
  | Locks.reachable ?s0 ?s =>
      let R' := fresh "R" in
      eassert (R' : Locks.reachable s0 _)
        by (eapply Locks.reach_step;
            [exact R | eapply (Locks.step_local s i); reflexivity])
  end.

Lemma touch_excludes_end_state_witness :
  exists s : Locks.Sys,
    Locks.reachable
      (Locks.init storeCompress plainText
                  (Locks.touchAndArchive (Decoded okResponse))) s /\
    Locks.atSocket (Locks.progs s 0) = Some "jtouch"%string /\
    Locks.progs s 1
    = Locks.Lock Locks.teMutex
        :: Locks.requestBody "jarchive" (Decoded okResponse)
        ++ [Locks.Local; Locks.Unlock Locks.teMutex] /\
    Locks.holder s Locks.teMutex = Some 0%nat.
Proof.
  pose proof (Locks.reach_init
                (Locks.init storeCompress plainText
                            (Locks.touchAndArchive (Decoded okResponse)))) as R.
  (* goroutine 1 runs ended, then goroutine 0 gets to the socket *)
  run_lock R 1%nat Locks.teMutex.
  run_local R0 1%nat.
  run_unlock R1 1%nat Locks.teMutex.
  run_lock R2 0%nat Locks.teMutex.
  run_lock R3 0%nat Locks.reqMutex.
  run_local R4 0%nat.
  match type of R5 with
  | Locks.reachable _ ?s => exists s
  end.
  split; [exact R5|]. split; [reflexivity|]. split; [reflexivity|].
  exact (proj1 (touch_excludes_end_state storeCompress plainText _ _ R5)
               0%nat "jtouch"%string eq_refl).
Defined.

(* ===================================================================== *)
(** * Further properties of the code *)

(** ** The supervisory task: kills, flags and latches *)

Section SupervisorInvariants.

Variable key : Job -> string.
Variable c : Client.
Variable job : Job.
Variable endT : Z.
Variable pe : ProcEnv.

(** An iteration that lets the task go on has killed nothing and set none
    of the kill flags; one that ends it has killed at most once and set the
    flag that goes with the kill. *)
Lemma supStep_kill_flags (ev : SupEvent) (s : SupState) :
  let r := supStep key c job endT pe ev s in
  (snd r = true ->
   kills (trace (fst r)) = kills (trace s) /\
   signalled (fst r) = signalled s /\ killCalled (fst r) = killCalled s /\
   ranoutMem (fst r) = ranoutMem s /\
   killErr (fst r) = killErr s /\ closeErr (fst r) = closeErr s) /\
  (snd r = false ->
   killFlags s = 0%nat ->
   (kills (trace (fst r)) = kills (trace s) + killFlags (fst r))%nat /\
   (killFlags (fst r) <= 1)%nat /\
   (killFlags (fst r) = 0%nat ->
    killErr (fst r) = killErr s /\ closeErr (fst r) = closeErr s) /\
   (ranoutMem (fst r) = true -> closeErr (fst r) = closeErr s)).
Proof.
  unfold killFlags.
  destruct ev as [|now x|mem errf|]; simpl.
  - split; [discriminate|]. intros _ H0. rewrite kills_app. simpl.
    destruct (signalled s), (killCalled s), (ranoutMem s); simpl in *;
      try discriminate.
    repeat split; try lia; try discriminate.
  - destruct (Touch key c job x) as [kc errf]. destruct kc; simpl.
    + split; [discriminate|]. intros _ H0. rewrite kills_app. simpl.
      destruct (signalled s), (killCalled s), (ranoutMem s); simpl in *;
        try discriminate.
      repeat split; try lia; try discriminate.
    + split; [|discriminate]. intros _. rewrite kills_app. simpl.
      repeat split; lia.
  - destruct (is_nil errf && (peakmem s <? mem)); simpl.
    + destruct (RAM (Requirements job) <? mem); simpl.
      * split; [discriminate|]. intros _ H0. rewrite kills_app. simpl.
        destruct (signalled s), (killCalled s), (ranoutMem s); simpl in *;
          try discriminate.
        repeat split; try lia; try discriminate.
      * split; [|discriminate]. intros _. repeat split; lia.
    + split; [|discriminate]. intros _. repeat split; lia.
  - split; [discriminate|]. intros _ H0. rewrite H0.
    repeat split; lia.
Qed.

Lemma supervise_kill_flags (evs : list SupEvent) (s : SupState) :
  killFlags s = 0%nat ->
  let s' := supervise key c job endT pe evs s in
  (kills (trace s') = kills (trace s) + killFlags s')%nat /\
  (killFlags s' <= 1)%nat /\
  (killFlags s' = 0%nat -> killErr s' = killErr s /\ closeErr s' = closeErr s) /\
  (ranoutMem s' = true -> closeErr s' = closeErr s).
Proof.
  revert s. induction evs as [|ev evs IH]; intros s H0; simpl.
  - rewrite H0. repeat split; lia.
  - pose proof (supStep_kill_flags ev s) as [Hgo Hstop].
    destruct (supStep key c job endT pe ev s) as [s1 go]; simpl in *.
    destruct go.
    + destruct (Hgo eq_refl) as (Hk & Hs & Hc & Hm & Hke & Hce).
      assert (H1 : killFlags s1 = 0%nat)
        by (unfold killFlags in *; rewrite Hs, Hc, Hm; exact H0).
      destruct (IH s1 H1) as (A & B & C' & D).
      rewrite Hk, Hke, Hce in *. auto.
    + apply Hstop; auto.
Qed.

End SupervisorInvariants.

(** X1: whatever events it is offered, the supervisory task kills the child
    at most once; it has killed exactly when one of signalled, killCalled
    and ranoutMem is set, and never more than one of them is; a kill error
    is only there after a kill, and a close error never after a kill for
    memory (the readers are then left open). *)
Theorem supervisor_kills_at_most_once
        (key : Job -> string) (c : Client) (job : Job) (endT : Z)
        (pe : ProcEnv) (evs : list SupEvent) :
  let s := supervise key c job endT pe evs supInit in
  (kills (trace s) <= 1)%nat /\
  kills (trace s) = killFlags s /\
  (kills (trace s) = 0%nat -> killErr s = None /\ closeErr s = None) /\
  (ranoutMem s = true -> closeErr s = None).
Proof.
  intros s.
  destruct (supervise_kill_flags key c job endT pe evs supInit eq_refl)
    as (A & B & C' & D).
  fold s in A, B, C', D. simpl in A, C', D.
  repeat split; try lia; try (apply C'; lia). apply D.
Qed.

Section SupervisorLatches.

Variable key : Job -> string.
Variable c : Client.
Variable job : Job.
Variable endT : Z.
Variable pe : ProcEnv.

Lemma supStep_memInv (ev : SupEvent) (s : SupState) :
  memInv job s -> memInv job (fst (supStep key c job endT pe ev s)).
Proof.
  unfold memInv. intros (Hpos & Hout & Hin).
  destruct ev as [|now x|mem errf|]; simpl; auto.
  - destruct (Touch key c job x) as [kc errf]. destruct kc; simpl; auto.
  - destruct (is_nil errf); simpl; auto.
    destruct (Z.ltb_spec (peakmem s) mem) as [Hlt|Hge]; simpl; auto.
    destruct (Z.ltb_spec (RAM (Requirements job)) mem) as [Hbr|Hok]; simpl.
    + split; [lia|]. split; [intros _; lia | discriminate].
    + split; [lia|]. split; [intros Ht; specialize (Hout Ht); lia | intros _; lia].
Qed.

Lemma supervise_memInv (evs : list SupEvent) (s : SupState) :
  memInv job s -> memInv job (supervise key c job endT pe evs s).
Proof.
  revert s. induction evs as [|ev evs IH]; intros s Hs; simpl; [exact Hs|].
  pose proof (supStep_memInv ev s Hs) as H1.
  destruct (supStep key c job endT pe ev s) as [s1 go]; simpl in H1.
  destruct go; [apply IH|]; exact H1.
Qed.

(** [peakmem] is the largest sample the task took. *)
Lemma supervise_largestSample (evs : list SupEvent) (s : SupState) :
  0 <= peakmem s ->
  peakmem (supervise key c job endT pe evs s)
  = Z.max (peakmem s) (largestSample (handled key c job endT pe evs s)).
Proof.
  revert s. induction evs as [|ev evs IH]; intros s Hs; simpl; [lia|].
  destruct ev as [|now x|mem errf|]; simpl.
  - lia.
  - destruct (Touch key c job x) as [kc errf]. destruct kc; simpl; [lia|].
    rewrite IH by exact Hs. reflexivity.
  - destruct errf as [e|]; simpl.
    + rewrite IH by exact Hs. reflexivity.
    + destruct (Z.ltb_spec (peakmem s) mem) as [Hlt|Hge].
      * destruct (RAM (Requirements job) <? mem); cbn [fst snd peakmem];
          [cbn [largestSample]; lia|].
        rewrite IH by (simpl; lia). cbn [peakmem largestSample]. lia.
      * rewrite IH by exact Hs. cbn [largestSample]. lia.
  - lia.
Qed.

(** [ranoutTime] is set by a handled touch tick that came after endT, and
    by nothing else; once set it stays. *)
Lemma supervise_ranoutTime (evs : list SupEvent) (s : SupState) :
  ranoutTime (supervise key c job endT pe evs s) = true <->
  ranoutTime s = true \/
  exists now x, In (TouchTick now x) (handled key c job endT pe evs s)
                /\ endT < now.
Proof.
  revert s. induction evs as [|ev evs IH]; intros s; simpl.
  - split; [auto | intros [H | (now & x & [] & _)]; exact H].
  - assert (Hstep : ranoutTime (fst (supStep key c job endT pe ev s)) = true <->
                    ranoutTime s = true \/
                    exists now x, ev = TouchTick now x /\ endT < now).
    { destruct ev as [|now x|mem errf|]; simpl.
      - split; [auto | intros [H | (n & x & Hd & _)]; [exact H | discriminate]].
      - assert (Hrt : (if negb (ranoutTime s) && (endT <? now)
                       then true else ranoutTime s) = true <->
                      ranoutTime s = true \/ endT < now).
        { destruct (ranoutTime s); simpl.
          - split; auto.
          - destruct (Z.ltb_spec endT now); split; auto.
            intros [H'|H']; [discriminate | lia]. }
        destruct (Touch key c job x) as [kc errf]. destruct kc; simpl;
          rewrite Hrt; split.
        + intros [H|H]; [auto | right; eauto].
        + intros [H | (n & x' & [= <- <-] & Hl)]; auto.
        + intros [H|H]; [auto | right; eauto].
        + intros [H | (n & x' & [= <- <-] & Hl)]; auto.
      - destruct (is_nil errf && (peakmem s <? mem)); simpl;
          [destruct (RAM (Requirements job) <? mem); simpl|];
          (split; [auto | intros [H | (n & x & Hd & _)];
                          [exact H | discriminate]]).
      - split; [auto | intros [H | (n & x & Hd & _)]; [exact H | discriminate]]. }
    destruct (supStep key c job endT pe ev s) as [s1 go]; simpl in Hstep.
    destruct go.
    + rewrite IH, Hstep. split.
      * intros [[H | (n & x & -> & Hl)] | (n & x & Hin & Hl)]; auto.
        -- right. exists n, x. split; [now left | exact Hl].
        -- right. exists n, x. split; [now right | exact Hl].
      * intros [H | (n & x & [Heq | Hin] & Hl)]; auto.
        -- left. right. eauto.
        -- right. eauto.
    + rewrite Hstep. split.
      * intros [H | (n & x & -> & Hl)]; auto.
        right. exists n, x. split; [now left | exact Hl].
      * intros [H | (n & x & [Heq | []] & Hl)]; auto.
        right. eauto.
Qed.

(** Every handled touch tick touches the job once. *)
Lemma supervise_touches (evs : list SupEvent) (s : SupState) :
  touches (trace (supervise key c job endT pe evs s))
  = (touches (trace s)
     + List.length (filter isTouchTick (handled key c job endT pe evs s)))%nat.
Proof.
  assert (Happ : forall a b, touches (a ++ b) = (touches a + touches b)%nat).
  { induction a as [|e a IHa]; intros b; [reflexivity|].
    destruct e; simpl; rewrite IHa; reflexivity. }
  revert s. induction evs as [|ev evs IH]; intros s; simpl; [lia|].
  assert (Hstep : touches (trace (fst (supStep key c job endT pe ev s)))
                  = (touches (trace s) + b2n (isTouchTick ev))%nat).
  { destruct ev as [|now x|mem errf|]; simpl.
    - rewrite Happ. simpl. lia.
    - destruct (Touch key c job x) as [kc errf]. destruct kc; simpl;
        rewrite Happ; reflexivity.
    - destruct (is_nil errf && (peakmem s <? mem)); simpl;
        [destruct (RAM (Requirements job) <? mem); simpl|]; try lia.
      rewrite Happ. simpl. lia.
    - lia. }
  destruct (supStep key c job endT pe ev s) as [s1 go]; simpl in Hstep.
  destruct go.
  - rewrite IH, Hstep. unfold b2n. simpl. destruct (isTouchTick ev); simpl; lia.
  - rewrite Hstep. unfold b2n. simpl. destruct (isTouchTick ev); simpl; lia.
Qed.

End SupervisorLatches.

Lemma largestSample_above (l : list SupEvent) (t : Z) :
  0 <= t ->
  (t < largestSample l <-> exists m, In (MemTick m None) l /\ t < m).
Proof.
  intros Ht. induction l as [|ev l IH]; simpl.
  - split; [lia | intros (m & [] & _)].
  - assert (Hskip : (t < largestSample l <->
                     exists m, (ev = MemTick m None \/ In (MemTick m None) l)
                               /\ t < m) \/
                    exists m, ev = MemTick m None).
    { destruct ev as [|now x|mem [e|]|]; try (right; eexists; reflexivity);
        left; rewrite IH; split;
          try (intros (m & Hin & Hm); exists m; split; [right; exact Hin | exact Hm]);
          intros (m & [Hd | Hin] & Hm); try discriminate; eauto. }
    destruct Hskip as [Hskip | [m ->]].
    + destruct ev as [|now x|mem [e|]|]; try exact Hskip.
      destruct Hskip as [_ Hc].
      split.
      * intros Hmax. destruct (Z.max_spec mem (largestSample l)) as [[_ Heq]|[_ Heq]];
          rewrite Heq in Hmax.
        -- apply IH in Hmax. destruct Hmax as (m & Hin & Hm). eauto.
        -- exists mem. auto.
      * intros (m & [[= <-] | Hin] & Hm); [lia|].
        assert (t < largestSample l) by (apply IH; eauto). lia.
    + split.
      * intros Hmax. destruct (Z.max_spec m (largestSample l)) as [[_ Heq]|[_ Heq]];
          rewrite Heq in Hmax.
        -- apply IH in Hmax. destruct Hmax as (m' & Hin & Hm). eauto.
        -- exists m. auto.
      * intros (m' & [[= <-] | Hin] & Hm); [lia|].
        assert (t < largestSample l) by (apply IH; eauto). lia.
Qed.

(** What the supervisory task leaves in [peakmem]. *)
Lemma ranoutMem_peak (key : Job -> string) (c : Client) (job : Job) (endT : Z)
      (pe : ProcEnv) (evs : list SupEvent) :
  peakmem (supervise key c job endT pe evs supInit)
  = largestSample (handled key c job endT pe evs supInit) /\
  0 <= peakmem (supervise key c job endT pe evs supInit).
Proof.
  assert (Hnn : forall l, 0 <= largestSample l).
  { induction l as [|ev l IH]; simpl; [lia|].
    destruct ev as [|now x|mem [e|]|]; lia. }
  rewrite supervise_largestSample by (simpl; lia). simpl peakmem.
  specialize (Hnn (handled key c job endT pe evs supInit)). lia.
Qed.

(** X2: the [peakmem] that the supervisory task leaves is the largest
    memory sample it read without an error, and 0 when it read none above
    0.  It sets ranoutMem exactly when it took a sample above both 0 and
    Requirements.RAM, that is exactly when [peakmem] ends above that
    limit; the child is then killed, once. *)
Theorem ranoutMem_iff_over_limit
        (key : Job -> string) (c : Client) (job : Job) (endT : Z)
        (pe : ProcEnv) (evs : list SupEvent) :
  let s := supervise key c job endT pe evs supInit in
  let taken := handled key c job endT pe evs supInit in
  let limit := Z.max 0 (RAM (Requirements job)) in
  peakmem s = largestSample taken /\
  0 <= peakmem s /\
  (ranoutMem s = true <-> limit < peakmem s) /\
  (ranoutMem s = true <->
   exists m, In (MemTick m None) taken /\ limit < m) /\
  (ranoutMem s = true -> kills (trace s) = 1%nat).
Proof.
  intros s taken limit.
  assert (H0 : memInv job supInit).
  { unfold memInv. simpl. repeat split; try lia; discriminate. }
  destruct (supervise_memInv key c job endT pe evs supInit H0) as (A & B & C').
  fold s in A, B, C'. fold limit in B, C'.
  assert (Hpeak : peakmem s = largestSample taken)
    by (exact (proj1 (ranoutMem_peak key c job endT pe evs))).
  assert (Hiff : ranoutMem s = true <-> limit < peakmem s).
  { split; [exact B|]. intros Hover. destruct (ranoutMem s); [reflexivity|].
    specialize (C' eq_refl). lia. }
  split; [exact Hpeak|]. split; [exact A|]. split; [exact Hiff|]. split.
  - rewrite Hiff, Hpeak. apply largestSample_above. unfold limit. lia.
  - intros Hr.
    destruct (supervise_kill_flags key c job endT pe evs supInit eq_refl)
      as (Hk & Hle & _).
    fold s in Hk, Hle. simpl in Hk. unfold killFlags in *. rewrite Hr in *.
    simpl in *. lia.
Qed.

Lemma ranoutMem_iff_over_limit_witness :
  let job := sampleJob "stress --vm 1 --vm-bytes 2G" in
  let s := supervise cmdKey sampleClient job 1000 quietProc
                     [MemTick 60 None; MemTick 250 None; MemTick 900 None]
                     supInit in
  ranoutMem s = true /\ peakmem s = 250 /\ kills (trace s) = 1%nat.
Proof.
  intros job s.
  pose proof (ranoutMem_iff_over_limit cmdKey sampleClient job 1000 quietProc
                [MemTick 60 None; MemTick 250 None; MemTick 900 None])
    as (Hp & _ & Hiff & _ & Hk).
  assert (Hr : ranoutMem s = true) by (apply Hiff; vm_compute; reflexivity).
  split; [exact Hr|]. split; [exact Hp | exact (Hk Hr)].
Defined.

(** X3: ranoutTime is set exactly when the supervisory task handled a touch
    tick that came after endT, and the job is touched once for every touch
    tick handled and at no other time. *)
Theorem ranoutTime_iff_late_tick
        (key : Job -> string) (c : Client) (job : Job) (endT : Z)
        (pe : ProcEnv) (evs : list SupEvent) :
  let s := supervise key c job endT pe evs supInit in
  (ranoutTime s = true <->
   exists now x, In (TouchTick now x) (handled key c job endT pe evs supInit)
                 /\ endT < now) /\
  touches (trace s)
  = List.length (filter isTouchTick (handled key c job endT pe evs supInit)).
Proof.
  intros s. split.
  - unfold s. rewrite supervise_ranoutTime. simpl. split; [|auto].
    intros [H|H]; [discriminate | exact H].
  - unfold s. rewrite supervise_touches. reflexivity.
Qed.

(* ===================================================================== *)
(** ** The end-state methods: what a call leaves on the job *)

Section EndStateEffects.

Variable compress : bytes -> bytes * option error.
Variable errText : error -> string.
Variable key : Job -> string.
Variable recsAfterFailure : Job -> scheduler_Requirements.

(** What [ended] does with an end state whose Exited is true. *)
Lemma ended_exited (job : Job) (e : JobEndState) :
  jes_Exited e = true ->
  let j1 := fst (ended compress job (Some e)) in
  Exited j1 = true /\ Exitcode j1 = jes_Exitcode e /\
  PeakRAM j1 = jes_PeakRAM e /\ CPUtime j1 = jes_CPUtime e /\
  ActualCwd j1 = (if (jes_Cwd e =? "")%string then ActualCwd job else jes_Cwd e) /\
  StdOutC j1 = (if nonempty (jes_Stdout e) then fst (compress (jes_Stdout e))
                else StdOutC job) /\
  (snd (ended compress job (Some e)) = None ->
   StdErrC j1 = (if nonempty (jes_Stderr e) then fst (compress (jes_Stderr e))
                 else StdErrC job)) /\
  UntilBuried j1 = UntilBuried job /\ State j1 = State job /\
  FailReason j1 = FailReason job /\ Requirements j1 = Requirements job /\
  Cmd j1 = Cmd job.
Proof.
  intros He. unfold ended. rewrite He. cbn [negb].
  destruct (jes_Cwd e =? "")%string; cbn [negb];
    destruct (nonempty (jes_Stdout e));
    try destruct (compress (jes_Stdout e)) as [z1 [e1|]];
    try (simpl; repeat split; try reflexivity; discriminate);
    destruct (nonempty (jes_Stderr e));
    try destruct (compress (jes_Stderr e)) as [z2 e2];
    simpl; repeat split; reflexivity.
Qed.

Let once := reportOnce compress errText key recsAfterFailure.
Let loop := reportLoop compress errText key recsAfterFailure.

Lemma reportOnce_job (c : Client) (v : Verdict) (jes : JobEndState)
      (job : Job) (err : option error) (x : Exchange) (m : EndCall) :
  dispatch v = Some m ->
  jes_Exited jes = true ->
  let j' := fst (fst (once c v jes job err x)) in
  let e' := snd (fst (once c v jes job err x)) in
  (Exited j' = true /\ Exitcode j' = jes_Exitcode jes /\
   PeakRAM j' = jes_PeakRAM jes /\ CPUtime j' = jes_CPUtime jes /\
   Cmd j' = Cmd job) /\
  (e' <> None -> UntilBuried j' = UntilBuried job /\ State j' = State job) /\
  (e' = None -> afterCall m (jes_Exitcode jes) (UntilBuried job) j').
Proof.
  intros Hd He. unfold once, reportOnce. rewrite Hd.
  pose proof (ended_exited job jes He)
    as (H1 & H2 & H3 & H4 & _ & _ & _ & H5 & H6 & _ & _ & H7).
  destruct m; simpl.
  - (* Bury *)
    unfold Bury.
    destruct (ended compress job (Some jes)) as [j1 [e1|]]; simpl in *.
    + repeat split; try assumption; congruence.
    + destruct (snd (request key c
                       (jobRequest "jbury" (JobSet.failReason (failreason v) j1)
                                   (Some jes)) x)); simpl;
        repeat split; try assumption; try discriminate; congruence.
  - (* Release *)
    unfold Release.
    destruct (ended compress job (Some jes)) as [j1 [e1|]]; simpl in *.
    + repeat split; try assumption; congruence.
    + destruct (snd (request key c
                       (jobRequest "jrelease" (JobSet.failReason (failreason v) j1)
                                   (Some jes)) x)); simpl;
        try (repeat split; try assumption; try discriminate; congruence).
      rewrite H1, H2. cbn [andb].
      destruct (jes_Exitcode jes =? 0); cbn [negb].
      * simpl. destruct (UntilBuried j1 <=? 0) eqn:Hle;
          repeat split; intros; simpl in *; rewrite ?Hle;
            try assumption; try congruence.
      * simpl. destruct (UntilBuried j1 - 1 <=? 0) eqn:Hle;
          repeat split; intros; simpl in *; rewrite ?Hle;
            try assumption; try congruence.
  - (* Archive *)
    unfold Archive.
    destruct (ended compress job (Some jes)) as [j1 [e1|]]; simpl in *.
    + repeat split; try assumption; congruence.
    + destruct (snd (request key c (jobRequest "jarchive" j1 (Some jes)) x));
        simpl; repeat split; try assumption; try discriminate; congruence.
Qed.

(** The job that the report loop leaves. *)
Lemma reportLoop_job (c : Client) (v : Verdict) (jes : JobEndState)
      (net : Z -> Exchange) (m : EndCall) (ub : Z) (st : JobState)
      (cmd : string) :
  dispatch v = Some m ->
  jes_Exited jes = true ->
  forall (n : nat) (r : Z) (job : Job) (err : option error),
    UntilBuried job = ub -> State job = st -> Cmd job = cmd ->
    let j' := fst (fst (fst (loop n r c v jes net job err))) in
    let worked := snd (fst (loop n r c v jes net job err)) in
    Cmd j' = cmd /\
    ((0 < n)%nat \/ recorded jes job -> recorded jes j') /\
    (worked = false -> UntilBuried j' = ub /\ State j' = st) /\
    (worked = true -> afterCall m (jes_Exitcode jes) ub j').
Proof.
  intros Hd He. induction n as [|n IH]; intros r job err Hub Hst Hcmd.
  - simpl. split; [assumption|]. split; [|split].
    + intros [H|H]; [lia | exact H].
    + auto.
    + discriminate.
  - unfold loop. cbn [reportLoop]. fold loop.
    pose proof (reportOnce_job c v jes job err (net r) m Hd He)
      as (Hcore & Hfail & Hok).
    unfold once in Hcore, Hfail, Hok.
    destruct (reportOnce compress errText key recsAfterFailure c v jes job err
                         (net r)) as [[j1 e1] eff1].
    simpl in Hcore, Hfail, Hok.
    destruct Hcore as (C1 & C2 & C3 & C4 & C5).
    assert (Hrec : recorded jes j1) by (unfold recorded; auto).
    destruct e1 as [e1|].
    + destruct (Hfail ltac:(discriminate)) as [Hub1 Hst1].
      specialize (IH (r + 1) j1 (Some e1) ltac:(congruence) ltac:(congruence)
                     ltac:(congruence)).
      fold loop.
      destruct (loop n (r + 1) c v jes net j1 (Some e1)) as [[[j2 e2] w2] eff2].
      simpl in IH |- *.
      destruct IH as (I0 & I1 & I2 & I3).
      split; [exact I0|]. split; [|split; assumption].
      intros _. apply I1. right. exact Hrec.
    + simpl. rewrite Hub in Hok.
      split; [congruence|]. split; [intros _; exact Hrec|].
      split; [discriminate|]. intros _. apply Hok. reflexivity.
Qed.

End EndStateEffects.

Section ExecuteResult.

Variable compress : bytes -> bytes * option error.
Variable errText : error -> string.
Variable key : Job -> string.
Variable recsAfterFailure : Job -> scheduler_Requirements.
Variable TrimSpace : bytes -> bytes.

Lemma alsoFailed_nil (format : string) (other mine : option error) :
  alsoFailed errText format other mine = None <-> other = None /\ mine = None.
Proof.
  unfold alsoFailed. destruct other, mine; split;
    try discriminate; try (intros [? ?]; discriminate); auto.
Qed.

Lemma classify_myerr_nil (job : Job) (w : WaitResult) (s : SupState) :
  myerr (classify key job w s) = None <-> exists status, w = WaitNil status.
Proof.
  unfold classify. destruct w as [status | status e | e].
  - split; [eauto | reflexivity].
  - split; [|intros [st H]; discriminate].
    destruct (status =? 126); [discriminate|].
    destruct (status =? 127); [discriminate|].
    destruct (status =? 128); [discriminate|].
    destruct (ranoutMem s); [discriminate|].
    destruct (signalled s); [destruct (ranoutTime s); discriminate|].
    destruct (killCalled s); discriminate.
  - split; [discriminate | intros [st H]; discriminate].
Qed.

(** [myerr] is nil when the report loop starts exactly when the wait, the
    kill, the close, the behaviours and the unmount all went without
    error. *)
Lemma settled_myerr_nil (job : Job) (s : SupState) (po : PostEnv) :
  myerr (settled errText key job s po) = None <->
  (exists status, po_wait po = WaitNil status) /\
  killErr s = None /\ closeErr s = None /\
  po_berr po = None /\ snd (po_unmount po) = None.
Proof.
  clear compress recsAfterFailure TrimSpace.
  unfold settled, afterUnmount.
  assert (Hb : myerr (beforeUnmount errText key job s po) = None <->
               (exists status, po_wait po = WaitNil status) /\
               killErr s = None /\ closeErr s = None /\ po_berr po = None).
  { unfold beforeUnmount, beforeBehaviours, decided. cbn [myerr withMyerr].
    rewrite !alsoFailed_nil, classify_myerr_nil. tauto. }
  destruct (snd (po_unmount po)) as [ue|].
  - cbn [myerr withMyerr]. rewrite alsoFailed_nil.
    split; [intros [H _]; discriminate | intros (_ & _ & _ & _ & H); discriminate].
  - rewrite Hb. split; [tauto | tauto].
Qed.

Lemma endState_exited (job : Job) (actualCwd : string) (s : SupState)
      (po : PostEnv) :
  jes_Exited (endState errText key TrimSpace job actualCwd s po) = true.
Proof. reflexivity. Qed.

(** The job and the error that Execute returns, in terms of its report
    loop. *)
Lemma ExecuteRun_result (c : Client) (job : Job) (actualCwd : string)
      (endT : Z) (pe : ProcEnv) (evs : list SupEvent) (po : PostEnv) :
  let s := supervise key c job endT pe evs supInit in
  let v := settled errText key job s po in
  let l := reportLoop compress errText key recsAfterFailure 300 0 c v
                      (endState errText key TrimSpace job actualCwd s po)
                      (po_net po) job (waitErr (po_wait po)) in
  let r := ExecuteRun compress errText key recsAfterFailure TrimSpace
                      c job actualCwd endT pe evs po in
  fst (fst r) = fst (fst (fst l)) /\
  (snd (fst l) = true -> snd (fst r) = myerr v) /\
  (snd (fst l) = false -> snd (fst r) <> None).
Proof.
  intros s v l r. subst r. unfold ExecuteRun. fold s. fold v.
  change (Z.to_nat maxRetries) with 300%nat. fold l.
  destruct l as [[[j' e'] worked] eff]. simpl.
  destruct worked; simpl; repeat split; try discriminate; auto.
Qed.

End ExecuteResult.

(** X4: as the documentation of Execute promises, when Execute returns no
    error the command's wait returned nil, nothing went wrong with the
    kill, the readers, the behaviours or the unmount, every end-state call
    made was Archive, and the job is left Complete with the wait's exit
    status (0 under os/exec's contract) and an untouched retry budget. *)
Theorem Execute_nil_means_archived
        (compress : bytes -> bytes * option error) (errText : error -> string)
        (key : Job -> string) (recsAfterFailure : Job -> scheduler_Requirements)
        (TrimSpace : bytes -> bytes)
        (c : Client) (job : Job) (actualCwd : string) (endT : Z)
        (pe : ProcEnv) (evs : list SupEvent) (po : PostEnv) :
  let s := supervise key c job endT pe evs supInit in
  let r := ExecuteRun compress errText key recsAfterFailure TrimSpace
                      c job actualCwd endT pe evs po in
  let job' := fst (fst r) in
  snd (fst r) = None ->
  exists status,
    po_wait po = WaitNil status /\
    (waitContract (po_wait po) -> status = 0) /\
    killErr s = None /\ closeErr s = None /\
    po_berr po = None /\ snd (po_unmount po) = None /\
    (forall m, In m (endCalls (snd r)) -> m = CallArchive) /\
    State job' = JobStateComplete /\
    Exited job' = true /\ Exitcode job' = status /\
    UntilBuried job' = UntilBuried job.
Proof.
  intros s r job' Hret.
  pose proof (ExecuteRun_trace compress errText key recsAfterFailure TrimSpace
                c job actualCwd endT pe evs po) as Htr.
  fold s in Htr. fold r in Htr. cbv zeta in Htr.
  destruct Htr as (m & k & Hm & Hcase & _).
  destruct (supervise_endCalls key c job endT pe evs supInit) as (Hec & _).
  fold s in Hec. simpl in Hec.
  pose proof (endState_exited errText key TrimSpace job actualCwd s po) as Hex.
  pose proof (reportLoop_job compress errText key recsAfterFailure c
                (settled errText key job s po)
                (endState errText key TrimSpace job actualCwd s po)
                (po_net po) m (UntilBuried job) (State job) (Cmd job) Hm Hex
                300 0 job (waitErr (po_wait po)) eq_refl eq_refl eq_refl)
    as (_ & Hrec & _ & Hok).
  pose proof (ExecuteRun_result compress errText key recsAfterFailure TrimSpace
                c job actualCwd endT pe evs po) as (Hjob & Hwork & Hnot).
  fold s in Hjob, Hwork, Hnot. fold r in Hjob, Hwork, Hnot.
  cbv zeta in Hrec, Hok. fold job' in Hjob. rewrite <- Hjob in Hrec, Hok.
  destruct (snd (fst (reportLoop compress errText key recsAfterFailure 300 0 c
                        (settled errText key job s po)
                        (endState errText key TrimSpace job actualCwd s po)
                        (po_net po) job (waitErr (po_wait po))))) eqn:Hworked;
    [|exfalso; apply Hnot; [reflexivity | exact Hret]].
  rewrite (Hwork eq_refl) in Hret.
  apply settled_myerr_nil in Hret.
  destruct Hret as ([status Hw] & Hk & Hc & Hb & Hu).
  assert (Hout : outcome (settled errText key job s po)
                 = Some {| o_disposition := archive; o_reason := "";
                           o_exitcode := status |}).
  { unfold settled. rewrite Hu. cbn [afterUnmount].
    rewrite (outcome_beforeUnmount errText key), Hw. reflexivity. }
  assert (m = CallArchive) as ->.
  { unfold outcome in Hout. rewrite Hm in Hout. destruct m; simpl in Hout; congruence. }
  assert (Hcode : exitcode (settled errText key job s po) = status).
  { unfold outcome in Hout. rewrite Hm in Hout. simpl in Hout. congruence. }
  destruct (Hok eq_refl) as [Hst Hub].
  assert (H300 : (0 < 300)%nat) by lia.
  destruct (Hrec (or_introl H300)) as (R1 & R2 & _).
  exists status. split; [exact Hw|]. split.
  { rewrite Hw. simpl. auto. }
  repeat split; try assumption.
  - intros m Hin.
    destruct Hcase as [(_ & Heq & _) | (_ & Heq & _)];
      rewrite Heq in Hin; rewrite !endCalls_app, Hec in Hin; unfold retries in Hin;
      rewrite endCalls_retriesFrom in Hin; cbn [endCalls app] in Hin;
      apply in_app_or in Hin; destruct Hin as [Hin | Hin];
      try (apply repeat_spec in Hin; exact Hin);
      simpl in Hin; intuition congruence.
  - rewrite R2. simpl. exact Hcode.
Qed.

Lemma Execute_nil_means_archived_witness :
  let job := sampleJob "sleep 3; exit 0" in
  let r := ExecuteRun storeCompress plainText cmdKey sameRecs idTrim
                      sampleClient job "/tmp/w/cwd" 1000 quietProc
                      (overrunEvents 1000) overrunPost in
  snd (fst r) = None /\
  State (fst (fst r)) = JobStateComplete /\
  UntilBuried (fst (fst r)) = UntilBuried job.
Proof.
  intros job r.
  assert (Hret : snd (fst r) = None) by reflexivity.
  split; [exact Hret|].
  destruct (Execute_nil_means_archived storeCompress plainText cmdKey sameRecs
              idTrim sampleClient job "/tmp/w/cwd" 1000 quietProc
              (overrunEvents 1000) overrunPost Hret)
    as (status & _ & _ & _ & _ & _ & _ & _ & Hst & _ & _ & Hub).
  split; [exact Hst | exact Hub].
Defined.

(** X5: when the wait collected the child's exit, then whatever the
    server does with the reports, Execute leaves the end state on the local
    job (Exited, the exit code, the peak memory and the CPU time it
    reported), never changes the job's Cmd, and takes at most one off
    UntilBuried however many times the report was retried; when no report
    gets through, UntilBuried and State are as they were.  When the wait
    failed, Execute panics before it has an end state: the job is as it
    was and no end-state call is made. *)
Theorem Execute_records_end_state
        (compress : bytes -> bytes * option error) (errText : error -> string)
        (key : Job -> string) (recsAfterFailure : Job -> scheduler_Requirements)
        (TrimSpace : bytes -> bytes)
        (c : Client) (job : Job) (actualCwd : string) (endT : Z)
        (pe : ProcEnv) (evs : list SupEvent) (w : Waited) :
  let s := supervise key c job endT pe evs supInit in
  let r := ExecuteLaunched compress errText key recsAfterFailure TrimSpace
                           c job actualCwd endT pe evs w in
  let job' := fst (fst r) in
  match w with
  | Collected po =>
      (exists ret, snd (fst r) = Returns ret) /\
      recorded (endState errText key TrimSpace job actualCwd s po) job' /\
      Cmd job' = Cmd job /\
      UntilBuried job - 1 <= UntilBuried job' <= UntilBuried job /\
      ((forall n, (n < 300)%nat -> exchangeOk (po_net po (Z.of_nat n)) = false) ->
       UntilBuried job' = UntilBuried job /\ State job' = State job)
  | WaitFailed _ =>
      snd (fst r) = Panics /\ job' = job /\ endCalls (snd r) = []
  end.
Proof.
  intros s r job'. destruct w as [po | e].
  2:{ subst job' r. unfold ExecuteLaunched. fold s.
      destruct (supervise_endCalls key c job endT pe evs supInit) as (Hec & _).
      fold s in Hec. simpl in Hec.
      destruct (peakmem s =? 0); cbn [fst snd];
        (split; [reflexivity|]; split; [reflexivity|]);
        [exact Hec | rewrite endCalls_app, Hec; reflexivity]. }
  assert (Hr : r = (let '(j, ret, tr) :=
                      ExecuteRun compress errText key recsAfterFailure TrimSpace
                                 c job actualCwd endT pe evs po in
                    (j, Returns ret, tr))) by reflexivity.
  assert (Hjob' : job' = fst (fst (ExecuteRun compress errText key recsAfterFailure
                                      TrimSpace c job actualCwd endT pe evs po))).
  { subst job'. rewrite Hr.
    destruct (ExecuteRun compress errText key recsAfterFailure TrimSpace
                         c job actualCwd endT pe evs po) as [[j ret] tr].
    reflexivity. }
  split.
  { rewrite Hr.
    destruct (ExecuteRun compress errText key recsAfterFailure TrimSpace
                         c job actualCwd endT pe evs po) as [[j ret] tr].
    eexists. reflexivity. }
  destruct (settled_dispatches errText key job s po) as [m Hm].
  pose proof (endState_exited errText key TrimSpace job actualCwd s po) as Hex.
  pose proof (reportLoop_job compress errText key recsAfterFailure c
                (settled errText key job s po)
                (endState errText key TrimSpace job actualCwd s po)
                (po_net po) m (UntilBuried job) (State job) (Cmd job) Hm Hex
                300 0 job (waitErr (po_wait po)) eq_refl eq_refl eq_refl)
    as (Hcmd & Hrec & Hfail & Hok).
  pose proof (reportLoop_all_fail compress errText key recsAfterFailure c
                (settled errText key job s po)
                (endState errText key TrimSpace job actualCwd s po)
                (po_net po) m Hm 300 0 job (waitErr (po_wait po))) as Hall.
  pose proof (ExecuteRun_result compress errText key recsAfterFailure TrimSpace
                c job actualCwd endT pe evs po) as (Hjob & _ & _).
  fold s in Hjob. rewrite <- Hjob' in Hjob.
  cbv zeta in Hcmd, Hrec, Hfail, Hok. rewrite <- Hjob in Hcmd, Hrec, Hfail, Hok.
  change (Z.of_nat 0) with 0 in Hall.
  assert (H300 : (0 < 300)%nat) by lia.
  split; [apply Hrec; left; exact H300|]. split; [exact Hcmd|]. split.
  - destruct (snd (fst (reportLoop compress errText key recsAfterFailure 300 0 c
                          (settled errText key job s po)
                          (endState errText key TrimSpace job actualCwd s po)
                          (po_net po) job (waitErr (po_wait po))))).
    + specialize (Hok eq_refl). destruct m; simpl in Hok.
      * destruct Hok as [_ ->]. lia.
      * destruct Hok as [-> _].
        destruct (exitcode (settled errText key job s po) =? 0); lia.
      * destruct Hok as [_ ->]. lia.
    + destruct (Hfail eq_refl) as [-> _]. lia.
  - intros Hnone. apply Hfail.
    apply (Hall (fun r Hr => Hnone r ltac:(lia))).
Qed.

(** X6: [ended] is idempotent: applied again with the same end state to the
    job it returned, it returns the same job and the same error.  A report
    that is retried therefore prepares the job exactly as the first attempt
    did. *)
Theorem ended_idempotent
        (compress : bytes -> bytes * option error)
        (job : Job) (jes : option JobEndState) :
  ended compress (fst (ended compress job jes)) jes = ended compress job jes.
Proof.
  unfold ended. destruct jes as [e|]; [|reflexivity].
  destruct (jes_Exited e) eqn:He; cbn [negb]; [|reflexivity].
  destruct (negb (jes_Cwd e =? "")%string);
    destruct (nonempty (jes_Stdout e)) eqn:Ho;
    try destruct (compress (jes_Stdout e)) as [z1 [e1|]] eqn:Hc1;
    destruct (nonempty (jes_Stderr e)) eqn:Hr;
    try destruct (compress (jes_Stderr e)) as [z2 e2] eqn:Hc2;
    cbn [fst snd]; rewrite ?He, ?Ho, ?Hr, ?Hc1, ?Hc2; reflexivity.
Qed.

(** X7: what [ended] keeps.  With an end state whose Exited is true it
    overwrites Exited, Exitcode, PeakRAM and CPUtime, but it replaces
    ActualCwd only by a non-empty Cwd and StdOutC and StdErrC only by the
    compression of a non-empty Stdout and Stderr: after a run without
    output the job still carries the output of its previous run.  It never
    changes UntilBuried, State, FailReason, the requirements or Cmd. *)
Theorem ended_keeps_on_empty
        (compress : bytes -> bytes * option error)
        (job : Job) (e : JobEndState) :
  jes_Exited e = true ->
  let j1 := fst (ended compress job (Some e)) in
  (Exited j1 = true /\ Exitcode j1 = jes_Exitcode e /\
   PeakRAM j1 = jes_PeakRAM e /\ CPUtime j1 = jes_CPUtime e) /\
  (jes_Cwd e = ""%string -> ActualCwd j1 = ActualCwd job) /\
  (jes_Cwd e <> ""%string -> ActualCwd j1 = jes_Cwd e) /\
  (jes_Stdout e = [] -> StdOutC j1 = StdOutC job) /\
  (jes_Stdout e <> [] -> StdOutC j1 = fst (compress (jes_Stdout e))) /\
  (jes_Stderr e = [] -> StdErrC j1 = StdErrC job) /\
  (jes_Stdout e = [] -> jes_Stderr e = [] ->
   snd (ended compress job (Some e)) = None) /\
  UntilBuried j1 = UntilBuried job /\ State j1 = State job /\
  FailReason j1 = FailReason job /\ Requirements j1 = Requirements job /\
  Cmd j1 = Cmd job.
Proof.
  intros He j1.
  pose proof (ended_exited compress job e He)
    as (H1 & H2 & H3 & H4 & H5 & H6 & H7 & H8 & H9 & H10 & H11 & H12).
  fold j1 in H1, H2, H3, H4, H5, H6, H7, H8, H9, H10, H11, H12.
  split; [auto|].
  split. { intros Hc. rewrite H5, Hc. reflexivity. }
  split. { intros Hc. rewrite H5. destruct (String.eqb_spec (jes_Cwd e) "");
           [contradiction | reflexivity]. }
  split. { intros Ho. rewrite H6, Ho. reflexivity. }
  split. { intros Ho. rewrite H6. destruct (jes_Stdout e);
           [contradiction | reflexivity]. }
  split.
  { intros Hr. subst j1. unfold ended. rewrite He, Hr. cbn [negb nonempty].
    destruct (negb (jes_Cwd e =? "")%string);
      destruct (nonempty (jes_Stdout e));
      try destruct (compress (jes_Stdout e)) as [z1 [e1|]]; reflexivity. }
  split.
  { intros Ho Hr. unfold ended. rewrite He, Ho, Hr. cbn [negb nonempty].
    destruct (negb (jes_Cwd e =? "")%string); reflexivity. }
  auto 10.
Qed.

Lemma ended_keeps_on_empty_witness :
  let job := JobSet.stdOutC [Byte.x6f; Byte.x6c; Byte.x64] (sampleJob "true") in
  let e := {| jes_Cwd := ""; jes_Exitcode := 1; jes_PeakRAM := 12;
              jes_CPUtime := 5; jes_Stdout := []; jes_Stderr := [];
              jes_Exited := true |} in
  jes_Exited e = true /\
  StdOutC (fst (ended storeCompress job (Some e)))
  = [Byte.x6f; Byte.x6c; Byte.x64].
Proof.
  intros job e. split; [reflexivity|].
  destruct (ended_keeps_on_empty storeCompress job e eq_refl)
    as (_ & _ & _ & Hout & _).
  exact (Hout eq_refl).
Defined.

Section EndStateStates.

Variable compress : bytes -> bytes * option error.
Variable errText : error -> string.
Variable key : Job -> string.
Variable recsAfterFailure : Job -> scheduler_Requirements.

Lemma ended_FailReason (job : Job) (jes : option JobEndState) :
  FailReason (fst (ended compress job jes)) = FailReason job.
Proof.
  unfold ended. destruct jes as [e|]; [|reflexivity].
  destruct (jes_Exited e); cbn [negb]; [|reflexivity].
  destruct (negb (jes_Cwd e =? "")%string);
    destruct (nonempty (jes_Stdout e));
    try destruct (compress (jes_Stdout e)) as [z1 [e1|]];
    try reflexivity;
    destruct (nonempty (jes_Stderr e));
    try destruct (compress (jes_Stderr e)) as [z2 e2]; reflexivity.
Qed.

Lemma Archive_state (c : Client) (job : Job) (jes : option JobEndState)
      (x : Exchange) :
  let a := Archive compress key c job jes x in
  (snd a = None -> State (fst a) = JobStateComplete) /\
  (snd a <> None -> State (fst a) = State job) /\
  UntilBuried (fst a) = UntilBuried job /\
  FailReason (fst a) = FailReason job /\
  (snd (ended compress job jes) <> None -> snd a = snd (ended compress job jes)).
Proof.
  intros a. subst a. unfold Archive.
  pose proof (ended_FailReason job jes) as Hfr.
  pose proof (ended_budget compress job jes) as [Hub Hst].
  destruct (ended compress job jes) as [j1 [e1|]]; simpl in Hfr, Hub, Hst |- *.
  - repeat split; intros; try assumption; congruence.
  - destruct (snd (request key c (jobRequest "jarchive" j1 jes) x)); simpl;
      repeat split; intros; try assumption; congruence.
Qed.

Lemma Bury_state (c : Client) (job : Job) (jes : option JobEndState)
      (reason : string) (stderr : list (option error)) (x : Exchange) :
  let b := Bury compress errText key c job jes reason stderr x in
  (snd b = None -> State (fst b) = JobStateBuried) /\
  (snd b <> None -> State (fst b) = State job) /\
  UntilBuried (fst b) = UntilBuried job /\
  (snd (ended compress job jes) = None -> FailReason (fst b) = reason) /\
  (snd (ended compress job jes) <> None ->
   FailReason (fst b) = FailReason job /\ snd b = snd (ended compress job jes)).
Proof.
  intros b. subst b. unfold Bury.
  pose proof (ended_FailReason job jes) as Hfr.
  pose proof (ended_budget compress job jes) as [Hub Hst].
  destruct (ended compress job jes) as [j1 [e1|]]; simpl in Hfr, Hub, Hst |- *.
  - repeat split; intros; try assumption; congruence.
  - destruct stderr as [|[e|] [|o rest]]; simpl;
      try destruct (compress (list_byte_of_string (errText e))) as [z [e2|]];
      simpl;
      try (repeat split; intros; try assumption; congruence);
      match goal with
      | |- context [snd (request key c ?cr x)] =>
          destruct (snd (request key c cr x))
      end; simpl; repeat split; intros; try assumption; congruence.
Qed.

Lemma Release_FailReason (c : Client) (job : Job) (jes : option JobEndState)
      (reason : string) (x : Exchange) :
  let r := Release compress key recsAfterFailure c job jes reason x in
  (snd (ended compress job jes) = None -> FailReason (fst r) = reason) /\
  (snd (ended compress job jes) <> None ->
   FailReason (fst r) = FailReason job /\ snd r = snd (ended compress job jes)).
Proof.
  intros r. subst r. unfold Release.
  pose proof (ended_FailReason job jes) as Hfr.
  destruct (ended compress job jes) as [j1 [e1|]]; simpl in Hfr |- *.
  - split; intros; [congruence | auto].
  - split; [intros _ | congruence].
    destruct (snd (request key c
                     (jobRequest "jrelease" (JobSet.failReason reason j1) jes) x));
      try reflexivity.
    repeat match goal with
           | |- context [if ?t then _ else _] => destruct t
           end; reflexivity.
Qed.

End EndStateStates.

(** X8: Archive and Bury move the local job to Complete and to Buried
    exactly when they return no error, and leave State as it was when they
    return one; neither touches UntilBuried.  Bury and Release write the
    fail reason on the job before the request is made, so it is there even
    if the request fails, unless [ended] failed first; Archive never
    changes it. *)
Theorem end_state_methods_state
        (compress : bytes -> bytes * option error) (errText : error -> string)
        (key : Job -> string) (recsAfterFailure : Job -> scheduler_Requirements)
        (c : Client) (job : Job) (jes : option JobEndState)
        (reason : string) (stderr : list (option error)) (x : Exchange) :
  let a := Archive compress key c job jes x in
  let b := Bury compress errText key c job jes reason stderr x in
  let r := Release compress key recsAfterFailure c job jes reason x in
  (snd a = None -> State (fst a) = JobStateComplete) /\
  (snd a <> None -> State (fst a) = State job) /\
  UntilBuried (fst a) = UntilBuried job /\
  FailReason (fst a) = FailReason job /\
  (snd b = None -> State (fst b) = JobStateBuried) /\
  (snd b <> None -> State (fst b) = State job) /\
  UntilBuried (fst b) = UntilBuried job /\
  (snd (ended compress job jes) = None ->
   FailReason (fst b) = reason /\ FailReason (fst r) = reason) /\
  (snd (ended compress job jes) <> None ->
   FailReason (fst b) = FailReason job /\ FailReason (fst r) = FailReason job /\
   snd b = snd (ended compress job jes) /\ snd r = snd (ended compress job jes) /\
   snd a = snd (ended compress job jes)).
Proof.
  intros a b r.
  destruct (Archive_state compress key c job jes x) as (A1 & A2 & A3 & A4 & A5).
  destruct (Bury_state compress errText key c job jes reason stderr x)
    as (B1 & B2 & B3 & B4 & B5).
  destruct (Release_FailReason compress key recsAfterFailure c job jes reason x)
    as (R1 & R2).
  fold a in A1, A2, A3, A4, A5. fold b in B1, B2, B3, B4, B5. fold r in R1, R2.
  split; [exact A1|]. split; [exact A2|]. split; [exact A3|].
  split; [exact A4|]. split; [exact B1|]. split; [exact B2|].
  split; [exact B3|]. split.
  - intros Hok. split; [exact (B4 Hok) | exact (R1 Hok)].
  - intros Hko. destruct (B5 Hko) as [Hb1 Hb2]. destruct (R2 Hko) as [Hr1 Hr2].
    repeat split; try assumption. exact (A5 Hko).
Qed.

(* ===================================================================== *)
(** ** Touches *)

Lemma Touch_result (key : Job -> string) (c : Client) (job : Job) (x : Exchange) :
  (fst (Touch key c job x) = true <->
   exists sr, x = Decoded sr /\ sr_Err sr = ""%string /\ sr_KillCalled sr = true) /\
  (snd (Touch key c job x) = None <-> exchangeOk x = true).
Proof.
  unfold Touch. destruct x as [e|e|e|e|sr]; simpl;
    try (split; split; [discriminate | intros (sr & H & _); discriminate
                       | discriminate | discriminate]).
  destruct (String.eqb_spec (sr_Err sr) ""); simpl.
  - split; split; auto.
    + intros H. exists sr. auto.
    + intros (sr' & [= <-] & _ & H). exact H.
  - split; split; try discriminate.
    intros (sr' & [= <-] & H & _). contradiction.
Qed.

(** X9: losing contact with the server is tolerated while the command
    runs.  A touch kills only on a reply that the server sent without an
    error and with KillCalled set; a touch tick whose exchange fails in any
    way (also with an error reply that has KillCalled set) does not kill,
    sets no kill flag, records no error and lets the supervisory task go
    on; only the overrun latch may change. *)
Theorem failed_touch_is_tolerated
        (key : Job -> string) (c : Client) (job : Job) (endT : Z)
        (pe : ProcEnv) (now : Z) (x : Exchange) (s : SupState) :
  exchangeOk x = false ->
  let r := supStep key c job endT pe (TouchTick now x) s in
  fst (Touch key c job x) = false /\
  snd r = true /\
  trace (fst r) = trace s ++ [ETouch] /\
  (peakmem (fst r), ranoutMem (fst r), signalled (fst r), killCalled (fst r),
   killErr (fst r), closeErr (fst r))
  = (peakmem s, ranoutMem s, signalled s, killCalled s, killErr s, closeErr s) /\
  ranoutTime (fst r) = ranoutTime s || (endT <? now).
Proof.
  intros Hx r.
  assert (Hkc : fst (Touch key c job x) = false).
  { destruct (fst (Touch key c job x)) eqn:Hk; [|reflexivity].
    apply (proj1 (Touch_result key c job x)) in Hk.
    destruct Hk as (sr & -> & He & _). simpl in Hx. rewrite He in Hx. discriminate. }
  split; [exact Hkc|]. subst r. simpl.
  destruct (Touch key c job x) as [kc errf]. simpl in Hkc. subst kc. simpl.
  repeat split. destruct (ranoutTime s), (endT <? now); reflexivity.
Qed.

Lemma failed_touch_is_tolerated_witness :
  let x := Decoded {| sr_Job := None; sr_KillCalled := true;
                      sr_Err := "job not found" |} in
  let r := supStep cmdKey sampleClient (sampleJob "sleep 60") 1000 quietProc
                   (TouchTick 10 x) supInit in
  exchangeOk x = false /\ snd r = true /\ killCalled (fst r) = false /\
  trace (fst r) = [ETouch].
Proof.
  intros x r.
  assert (Hx : exchangeOk x = false) by reflexivity.
  split; [exact Hx|].
  destruct (failed_touch_is_tolerated cmdKey sampleClient (sampleJob "sleep 60")
              1000 quietProc 10 x supInit Hx) as (_ & Hgo & Htr & Hflags & _).
  split; [exact Hgo|]. split; [|exact Htr].
  exact (f_equal (fun t => snd (fst (fst t))) Hflags).
Defined.

Section Ticker2Facts.

Variable key : Job -> string.
Variable c : Client.
Variable job : Job.
Variable s : SupState.

Lemma ticker2_touches_only (evs : list Tick2Event) :
  exists n, ticker2 key c job s evs = repeat ETouch n /\
            (n <= List.length evs)%nat.
Proof.
  induction evs as [|ev evs (n & IH & Hn)].
  - exists 0%nat. split; [reflexivity | simpl; lia].
  - simpl. destruct ev as [|x|]; simpl.
    + exists 0%nat. split; [reflexivity | lia].
    + destruct (negb (killCalled s) && negb (ranoutMem s) && negb (signalled s)).
      * destruct (snd (Touch key c job x)).
        -- exists 1%nat. split; [reflexivity | lia].
        -- exists (S n). rewrite IH. split; [reflexivity | lia].
      * exists n. rewrite IH. split; [reflexivity | lia].
    + exists 0%nat. split; [reflexivity | lia].
Qed.

Lemma ticker2_killed (evs : list Tick2Event) :
  killCalled s || ranoutMem s || signalled s = true ->
  ticker2 key c job s evs = [].
Proof.
  intros Hk.
  assert (Hf : negb (killCalled s) && negb (ranoutMem s) && negb (signalled s)
               = false)
    by (destruct (killCalled s), (ranoutMem s), (signalled s);
        simpl in *; congruence).
  induction evs as [|ev evs IH]; [reflexivity|].
  simpl. destruct ev as [|x|]; simpl; try reflexivity.
  rewrite Hf. exact IH.
Qed.

Lemma ticker2_ends (before after : list Tick2Event) (ev : Tick2Event) :
  killCalled s || ranoutMem s || signalled s = false ->
  ends2 ev = true ->
  ticker2 key c job s (before ++ ev :: after)
  = ticker2 key c job s (before ++ [ev]).
Proof.
  intros Hk Hend.
  assert (Hf : negb (killCalled s) && negb (ranoutMem s) && negb (signalled s)
               = true)
    by (destruct (killCalled s), (ranoutMem s), (signalled s);
        simpl in *; congruence).
  induction before as [|b before IH]; simpl.
  - destruct ev as [|x|]; simpl; try reflexivity.
    rewrite Hf. simpl in Hend. apply negb_true_iff in Hend.
    pose proof (proj2 (Touch_result key c job x)) as Hr.
    destruct (snd (Touch key c job x)) as [e|]; [reflexivity|].
    rewrite (proj1 Hr eq_refl) in Hend. discriminate.
  - destruct (ticker2Step key c job s b) as [eff go].
    destruct go; [rewrite IH|]; reflexivity.
Qed.

End Ticker2Facts.

(** X10: the second touch ticker, which runs while the behaviours and the
    unmount do, only ever touches the job: it never kills, whatever the
    touches answer (a kill request that arrives after the command has
    exited is ignored).  It does not touch at all once the run was killed
    (killCalled, ranoutMem or signalled), and it makes no touch after a
    touch that failed, nor after a signal or the stop. *)
Theorem ticker2_only_touches
        (key : Job -> string) (c : Client) (job : Job) (s : SupState)
        (evs : list Tick2Event) :
  (exists n, ticker2 key c job s evs = repeat ETouch n /\
             (n <= List.length evs)%nat) /\
  (killCalled s || ranoutMem s || signalled s = true ->
   ticker2 key c job s evs = []) /\
  (killCalled s || ranoutMem s || signalled s = false ->
   forall before ev after,
     evs = before ++ ev :: after -> ends2 ev = true ->
     ticker2 key c job s evs = ticker2 key c job s (before ++ [ev])).
Proof.
  split; [apply ticker2_touches_only|]. split; [apply ticker2_killed|].
  intros Hk before ev after -> Hend. apply ticker2_ends; assumption.
Qed.

Lemma ticker2_only_touches_witness :
  let lost := SendFailed (Opaque "connection refused") in
  let evs := [T2Tick (Decoded okResponse); T2Tick lost;
              T2Tick (Decoded okResponse); T2Stop] in
  killCalled supInit || ranoutMem supInit || signalled supInit = false /\
  ends2 (T2Tick lost) = true /\
  ticker2 cmdKey sampleClient (sampleJob "true") supInit evs = [ETouch; ETouch].
Proof.
  intros lost evs.
  assert (Hk : killCalled supInit || ranoutMem supInit || signalled supInit = false)
    by reflexivity.
  assert (He : ends2 (T2Tick lost) = true) by reflexivity.
  split; [exact Hk|]. split; [exact He|].
  destruct (ticker2_only_touches cmdKey sampleClient (sampleJob "true") supInit evs)
    as (_ & _ & Hends).
  rewrite (Hends Hk [T2Tick (Decoded okResponse)] (T2Tick lost)
                 [T2Tick (Decoded okResponse); T2Stop] eq_refl He).
  reflexivity.
Defined.

(* ===================================================================== *)
(** ** Touch and the end-state methods never deadlock *)

Module LockOrderFacts.
Import Locks LockOrder.

Lemma nested_app (p q : list Instr) (te req : bool) :
  nested te req p = true ->
  nested false false q = true ->
  nested te req (p ++ q) = true.
Proof.
  revert te req. induction p as [|ins p IH]; intros te req Hp Hq.
  - simpl in Hp. destruct te, req; try discriminate. exact Hq.
  - destruct ins as [[|]|[|]|m|m|]; destruct te, req; simpl in Hp |- *;
      try discriminate; apply IH; assumption.
Qed.

Lemma nested_req_needs_te (p : list Instr) : nested false true p = false.
Proof.
  induction p as [|ins p IH]; [reflexivity|].
  destruct ins as [[|]|[|]|m|m|]; simpl; try reflexivity. exact IH.
Qed.

Section Bodies.

Variable compress : bytes -> bytes * option error.
Variable errText : error -> string.

Lemma requestBody_nested (method : string) (x : Exchange) (rest : list Instr) :
  nested true false rest = true ->
  nested true false (requestBody method x ++ rest) = true.
Proof.
  intros Hr. unfold requestBody. destruct x; simpl; exact Hr.
Qed.

Lemma stateUpdate_nested (x : Exchange) :
  nested true false (stateUpdate x ++ [Unlock teMutex]) = true.
Proof. unfold stateUpdate. destruct (exchangeOk x); reflexivity. Qed.

Lemma endedBody_nested (jes : option JobEndState) :
  nested false false (endedBody jes) = true.
Proof. unfold endedBody. destruct (notExited jes); reflexivity. Qed.

Lemma body_nested (call : Call) :
  nested false false (body compress errText call) = true.
Proof.
  destruct call as [x | job jes x | job jes x | job jes stderr x]; simpl.
  - unfold touchBody. simpl. apply requestBody_nested. reflexivity.
  - unfold archiveBody. apply nested_app; [apply endedBody_nested|].
    destruct (snd (ended compress job jes)); [reflexivity|].
    simpl. apply requestBody_nested. apply stateUpdate_nested.
  - unfold releaseBody. apply nested_app; [apply endedBody_nested|].
    destruct (snd (ended compress job jes)); [reflexivity|].
    simpl. apply requestBody_nested. apply stateUpdate_nested.
  - unfold buryBody. apply nested_app; [apply endedBody_nested|].
    destruct (snd (ended compress job jes)); [reflexivity|].
    simpl.
    assert (Hreq : nested true false ((requestBody "jbury" x ++ stateUpdate x)
                                        ++ [Unlock teMutex]) = true).
    { rewrite <- app_assoc. apply requestBody_nested. apply stateUpdate_nested. }
    destruct stderr as [|[e|] [|o rest]]; try exact Hreq.
    destruct (snd (compress (list_byte_of_string (errText e))));
      [reflexivity | exact Hreq].
Qed.

Lemma program_nested (calls : list Call) :
  nested false false (program compress errText calls) = true.
Proof.
  unfold program. induction calls as [|call calls IH]; [reflexivity|].
  simpl. apply nested_app; [apply body_nested | exact IH].
Qed.

Definition ordered (s : Sys) : Prop :=
  forall i, nested (holdsTe s i) (holdsReq s i) (progs s i) = true.

Lemma ordered_init (threads : nat -> list Call) :
  ordered (init compress errText threads).
Proof. intros i. apply program_nested. Qed.

Lemma ordered_step (s s' : Sys) : ordered s -> step s s' -> ordered s'.
Proof.
  intros Hinv Hstep k. pose proof (Hinv k) as Hk.
  destruct Hstep as [i m rest Hp Hfree | i m rest Hp | i meth rest Hp
                    | i meth rest Hp | i rest Hp];
    pose proof (Hinv i) as Hi; rewrite Hp in Hi;
    unfold holdsTe, holdsReq, setHolder, setProg in *; simpl in *.
  - (* Lock *)
    destruct m; simpl in *; rewrite Hfree in *; simpl in *.
    + apply andb_true_iff in Hi. destruct Hi as [Hnr Hi].
      destruct (Nat.eqb_spec k i) as [->|Hne].
      * rewrite Nat.eqb_refl.
        destruct (holder s reqMutex) as [j|]; [|exact Hi].
        destruct (Nat.eqb j i); [discriminate | exact Hi].
      * destruct (Nat.eqb_spec i k) as [Heq|_]; [congruence | exact Hk].
    + destruct (holder s teMutex) as [j|]; [|discriminate].
      destruct (Nat.eqb_spec j i) as [->|Hji]; [|discriminate]. simpl in Hi.
      destruct (Nat.eqb_spec k i) as [->|Hne].
      * rewrite Nat.eqb_refl. exact Hi.
      * destruct (Nat.eqb_spec i k) as [Heq|_]; [congruence | exact Hk].
  - (* Unlock *)
    destruct m; simpl in *.
    + destruct (holder s teMutex) as [j|]; [|discriminate].
      destruct (Nat.eqb_spec j i) as [->|Hji]; [|discriminate]. simpl in Hi.
      apply andb_true_iff in Hi. destruct Hi as [Hnr Hi].
      destruct (Nat.eqb_spec k i) as [->|Hne].
      * destruct (holder s reqMutex) as [j|]; [|exact Hi].
        destruct (Nat.eqb j i); [discriminate | exact Hi].
      * destruct (Nat.eqb_spec i k) as [Heq|_]; [congruence | exact Hk].
    + destruct (holder s teMutex) as [j|]; [|discriminate].
      destruct (Nat.eqb_spec j i) as [->|Hji]; [|discriminate]. simpl in Hi.
      destruct (holder s reqMutex) as [j|]; [|discriminate].
      destruct (Nat.eqb_spec j i) as [->|Hji]; [|discriminate]. simpl in Hi.
      destruct (Nat.eqb_spec k i) as [->|Hne];
        [rewrite ?Nat.eqb_refl; exact Hi|].
      destruct (Nat.eqb_spec i k) as [Heq|_]; [congruence | exact Hk].
  - destruct (Nat.eqb_spec k i) as [->|Hne]; [|exact Hk].
    apply andb_true_iff in Hi. destruct Hi as [_ Hi]. exact Hi.
  - destruct (Nat.eqb_spec k i) as [->|Hne]; [|exact Hk].
    apply andb_true_iff in Hi. destruct Hi as [_ Hi]. exact Hi.
  - destruct (Nat.eqb_spec k i) as [->|Hne]; [exact Hi | exact Hk].
Qed.

Lemma ordered_reachable (threads : nat -> list Call) (s : Sys) :
  reachable (init compress errText threads) s -> ordered s.
Proof.
  induction 1 as [|s s' _ IH Hstep];
    [apply ordered_init | exact (ordered_step s s' IH Hstep)].
Qed.

End Bodies.

(** Whoever holds the request mutex holds teMutex. *)
Lemma ordered_req_in_te (s : Sys) (j : nat) :
  ordered s -> holder s reqMutex = Some j -> holder s teMutex = Some j.
Proof.
  intros Hinv Hreq. specialize (Hinv j). unfold holdsTe, holdsReq in Hinv.
  rewrite Hreq, Nat.eqb_refl in Hinv.
  destruct (holder s teMutex) as [k|].
  - destruct (Nat.eqb_spec k j) as [Heq|Hne]; [congruence|].
    rewrite nested_req_needs_te in Hinv. discriminate.
  - rewrite nested_req_needs_te in Hinv. discriminate.
Qed.

(** A goroutine whose remaining steps are in order, and that holds
    teMutex or sees both mutexes free, can make its next step. *)
Lemma ordered_can_step (s : Sys) (i : nat) :
  ordered s ->
  progs s i <> [] ->
  holder s teMutex = Some i \/
  (holder s teMutex = None /\ holder s reqMutex = None) ->
  exists s', step s s'.
Proof.
  intros Hinv Hbusy Hwho. pose proof (Hinv i) as Hi.
  destruct (progs s i) as [|ins rest] eqn:Hp; [contradiction|].
  destruct ins as [[|]|[|]|m|m|].
  - (* Lock teMutex *)
    destruct Hwho as [Hte | [Hte Hreq]].
    + unfold holdsTe in Hi. rewrite Hte, Nat.eqb_refl in Hi. discriminate.
    + eexists. eapply (step_lock s i teMutex); eassumption.
  - (* Lock reqMutex *)
    destruct (holder s reqMutex) as [j|] eqn:Hreq.
    + pose proof (ordered_req_in_te s j Hinv Hreq) as Hj.
      destruct Hwho as [Hte | [Hte _]]; [|congruence].
      assert (j = i) by congruence. subst j.
      unfold holdsTe, holdsReq in Hi. rewrite Hte, Hreq, Nat.eqb_refl in Hi.
      discriminate.
    + eexists. eapply (step_lock s i reqMutex); eassumption.
  - eexists. eapply (step_unlock s i teMutex); eassumption.
  - eexists. eapply (step_unlock s i reqMutex); eassumption.
  - eexists. eapply (step_send s i m); eassumption.
  - eexists. eapply (step_recv s i m); eassumption.
  - eexists. eapply (step_local s i); eassumption.
Qed.

End LockOrderFacts.

(** X11: goroutines that call Touch, Archive, Release and Bury on one
    client never deadlock.  In every state they can reach, the request
    mutex is held only by the goroutine that holds teMutex; as long as some
    goroutine has steps left, some goroutine can make a step; and when all
    have finished both mutexes are free. *)
Theorem end_state_locks_never_deadlock
        (compress : bytes -> bytes * option error) (errText : error -> string)
        (threads : nat -> list Locks.Call) (s : Locks.Sys) :
  Locks.reachable (Locks.init compress errText threads) s ->
  (forall j, Locks.holder s Locks.reqMutex = Some j ->
             Locks.holder s Locks.teMutex = Some j) /\
  (LockOrder.busy s -> exists s', Locks.step s s') /\
  ((forall i, Locks.progs s i = []) ->
   Locks.holder s Locks.teMutex = None /\ Locks.holder s Locks.reqMutex = None).
Proof.
  intros Hreach.
  pose proof (LockOrderFacts.ordered_reachable compress errText threads s Hreach)
    as Hinv.
  split; [intros j; apply LockOrderFacts.ordered_req_in_te; exact Hinv|].
  split.
  - intros [i Hbusy].
    destruct (Locks.holder s Locks.teMutex) as [j|] eqn:Hte.
    + (* the holder of teMutex can go on *)
      apply (LockOrderFacts.ordered_can_step s j Hinv); [|now left].
      intros Hnil. specialize (Hinv j).
      unfold Locks.holdsTe in Hinv. rewrite Hte, Nat.eqb_refl, Hnil in Hinv.
      discriminate.
    + apply (LockOrderFacts.ordered_can_step s i Hinv Hbusy). right.
      split; [exact Hte|].
      destruct (Locks.holder s Locks.reqMutex) as [k|] eqn:Hreq; [|reflexivity].
      pose proof (LockOrderFacts.ordered_req_in_te s k Hinv Hreq). congruence.
  - intros Hdone.
    assert (Hte : Locks.holder s Locks.teMutex = None).
    { destruct (Locks.holder s Locks.teMutex) as [j|] eqn:Hte; [|reflexivity].
      specialize (Hinv j). unfold Locks.holdsTe in Hinv.
      rewrite Hte, Nat.eqb_refl, (Hdone j) in Hinv. discriminate. }
    split; [exact Hte|].
    destruct (Locks.holder s Locks.reqMutex) as [k|] eqn:Hreq; [|reflexivity].
    pose proof (LockOrderFacts.ordered_req_in_te s k Hinv Hreq). congruence.
Qed.

Lemma end_state_locks_never_deadlock_witness :
  exists s : Locks.Sys,
    Locks.reachable
      (Locks.init storeCompress plainText
                  (Locks.touchAndArchive (Decoded okResponse))) s /\
    Locks.holder s Locks.teMutex = Some 0%nat /\
    LockOrder.busy s /\
    exists s', Locks.step s s'.
Proof.
  pose proof (Locks.reach_init
                (Locks.init storeCompress plainText
                            (Locks.touchAndArchive (Decoded okResponse)))) as R.
  run_lock R 1%nat Locks.teMutex.
  run_local R0 1%nat.
  run_unlock R1 1%nat Locks.teMutex.
  run_lock R2 0%nat Locks.teMutex.
  match type of R3 with
  | Locks.reachable _ ?s => exists s
  end.
  split; [exact R3|]. split; [reflexivity|].
  match goal with
  | |- LockOrder.busy ?s /\ _ =>
      assert (Hbusy : LockOrder.busy s) by (exists 1%nat; discriminate)
  end.
  split; [exact Hbusy|].
  exact (proj1 (proj2 (end_state_locks_never_deadlock storeCompress plainText
                         _ _ R3)) Hbusy).
Defined.

(* ===================================================================== *)
(** ** Execute as a whole *)

Lemma supervise_kinds (key : Job -> string) (c : Client) (job : Job)
      (endT : Z) (pe : ProcEnv) (evs : list SupEvent) (s : SupState) :
  Forall supKind (trace s) ->
  Forall supKind (trace (supervise key c job endT pe evs s)).
Proof.
  revert s. induction evs as [|ev evs IH]; intros s Hs; simpl; [exact Hs|].
  assert (H1 : Forall supKind (trace (fst (supStep key c job endT pe ev s)))).
  { assert (Hl : forall l, (forall e, In e l -> supKind e) ->
                            Forall supKind (trace s ++ l)).
    { intros l Hl. apply Forall_app. split; [exact Hs|].
      apply Forall_forall. exact Hl. }
    destruct ev as [|now x|mem errf|]; simpl; auto.
    - apply Hl. unfold supKind. simpl. intuition.
    - destruct (Touch key c job x) as [kc errf]. destruct kc; simpl;
        apply Hl; unfold supKind; simpl; intuition.
    - destruct (is_nil errf && (peakmem s <? mem)); simpl; auto.
      destruct (RAM (Requirements job) <? mem); simpl; auto.
      apply Hl. unfold supKind. simpl. intuition. }
  destruct (supStep key c job endT pe ev s) as [s1 go]; simpl in H1.
  destruct go; [apply IH|]; exact H1.
Qed.

Lemma filter_none {A} (g : A -> bool) (l : list A) :
  (forall a, In a l -> g a = false) -> filter g l = [].
Proof.
  induction l as [|a l IH]; intros H; [reflexivity|].
  simpl. rewrite (H a (or_introl eq_refl)). apply IH.
  intros b Hb. apply H. now right.
Qed.

Lemma filter_retriesFrom (g : Effect -> bool) (m : EndCall) (i k : nat) :
  (forall d, g (ESleep d) = false) ->
  filter g (retriesFrom m i k) = if g (ECall m) then repeat (ECall m) k else [].
Proof.
  intros Hs. unfold retriesFrom. revert i.
  induction k as [|k IH]; intros i; simpl.
  - destruct (g (ECall m)); reflexivity.
  - rewrite Hs, IH. destruct (g (ECall m)); reflexivity.
Qed.

Section ExecuteWhole.

Variable compress : bytes -> bytes * option error.
Variable errText : error -> string.
Variable key : Job -> string.
Variable recsAfterFailure : Job -> scheduler_Requirements.
Variable TrimSpace : bytes -> bytes.
Variable envOverride : list string -> list string -> list string.
Variable ErrMustReserve : string.

(** How often an effect of some kind occurs from the launch on: kinds that
    the supervisory task, the sleeps and the triggers are not of occur once
    if the unmount is of the kind, plus once per report if the report is. *)
Lemma ExecuteRun_count (g : Effect -> bool)
      (c : Client) (job : Job) (actualCwd : string) (endT : Z)
      (pe : ProcEnv) (evs : list SupEvent) (po : PostEnv) :
  (forall e, supKind e -> g e = false) ->
  (forall d, g (ESleep d) = false) ->
  (forall b, g (ETrigger b) = false) ->
  let r := ExecuteRun compress errText key recsAfterFailure TrimSpace
                      c job actualCwd endT pe evs po in
  exists (m : EndCall) (n : nat),
    (1 <= n <= 300)%nat /\
    List.length (filter g (snd r))
    = (b2n (g EUnmount) + if g (ECall m) then n else 0)%nat.
Proof.
  intros Hsup Hsleep Htrig r.
  destruct (ExecuteRun_trace compress errText key recsAfterFailure TrimSpace
              c job actualCwd endT pe evs po) as (m & k & Hm & Hcase & _).
  fold r in Hcase.
  pose proof (supervise_kinds key c job endT pe evs supInit (Forall_nil _)) as Hk.
  assert (Hnone : filter g (trace (supervise key c job endT pe evs supInit)) = []).
  { apply filter_none. intros a Ha. apply Hsup.
    rewrite Forall_forall in Hk. apply Hk. exact Ha. }
  destruct Hcase as [(Hlt & Heq & _) | (Hk300 & Heq & _)]; rewrite Heq.
  - exists m, (S k). split; [lia|].
    rewrite !filter_app, Hnone. unfold retries.
    rewrite (filter_retriesFrom g m 0 k Hsleep). cbn [filter app].
    rewrite Htrig. unfold b2n.
    destruct (g EUnmount), (g (ECall m)); simpl;
      rewrite ?length_app, ?repeat_length; simpl; lia.
  - exists m, 300%nat. split; [lia|].
    rewrite !filter_app, Hnone. unfold retries.
    rewrite (filter_retriesFrom g m 0 300 Hsleep). cbn [filter app].
    rewrite !Htrig. unfold b2n.
    destruct (g EUnmount), (g (ECall m)); cbn [app List.length];
      rewrite ?length_app, ?repeat_length; simpl; lia.
Qed.

(** The same from the launch on, whatever the wait returned: when it
    failed nothing is reported, and the unmount is only reached if a memory
    sample had been taken. *)
Lemma ExecuteLaunched_count (g : Effect -> bool)
      (c : Client) (job : Job) (actualCwd : string) (endT : Z)
      (pe : ProcEnv) (evs : list SupEvent) (w : Waited) :
  (forall e, supKind e -> g e = false) ->
  (forall d, g (ESleep d) = false) ->
  (forall b, g (ETrigger b) = false) ->
  let r := ExecuteLaunched compress errText key recsAfterFailure TrimSpace
                           c job actualCwd endT pe evs w in
  let s := supervise key c job endT pe evs supInit in
  exists (m : EndCall) (n : nat),
    (1 <= n <= 300)%nat /\
    List.length (filter g (snd r))
    = if waitFailed w
      then (if (peakmem s =? 0)%Z then 0%nat else b2n (g EUnmount))
      else (b2n (g EUnmount) + if g (ECall m) then n else 0)%nat.
Proof.
  intros Hsup Hsleep Htrig r s. subst r. unfold ExecuteLaunched.
  destruct w as [po | e]; cbn [waitFailed].
  - destruct (ExecuteRun_count g c job actualCwd endT pe evs po Hsup Hsleep Htrig)
      as (m & n & Hn & Hlen).
    destruct (ExecuteRun compress errText key recsAfterFailure TrimSpace
                         c job actualCwd endT pe evs po) as [[j ret] tr].
    exists m, n. split; [exact Hn | exact Hlen].
  - pose proof (supervise_kinds key c job endT pe evs supInit (Forall_nil _)) as Hk.
    fold s in Hk.
    assert (Hnone : filter g (trace s) = []).
    { apply filter_none. intros a Ha. apply Hsup.
      rewrite Forall_forall in Hk. apply Hk. exact Ha. }
    exists CallArchive, 1%nat. split; [lia|]. fold s.
    destruct (peakmem s =? 0); cbn [snd].
    + rewrite Hnone. reflexivity.
    + rewrite filter_app, Hnone. cbn [filter app]. rewrite Htrig.
      destruct (g EUnmount); reflexivity.
Qed.

Lemma count_app (f : PreEffect -> bool) (a b : list PreEffect) :
  count f (a ++ b) = (count f a + count f b)%nat.
Proof. unfold count. rewrite filter_app, length_app. reflexivity. Qed.

Lemma count_map_PRun (f : PreEffect -> bool) (tr : list Effect) :
  count f (map PRun tr) = List.length (filter (fun e => f (PRun e)) tr).
Proof.
  unfold count. induction tr as [|e tr IH]; [reflexivity|].
  simpl. destruct (f (PRun e)); simpl; rewrite IH; reflexivity.
Qed.

Lemma count_deferred (tmpDir : string) :
  count isStart (deferred tmpDir) = 0%nat /\
  count isMount (deferred tmpDir) = 0%nat /\
  count isUnmount (deferred tmpDir) = 0%nat /\
  count isNotify (deferred tmpDir) = 0%nat /\
  count isSignalStop (deferred tmpDir) = 1%nat /\
  count isReport (deferred tmpDir) = 0%nat.
Proof.
  unfold deferred, count. destruct (tmpDir =? "")%string; simpl; auto 10.
Qed.

Lemma count_map_PRun_none (f : PreEffect -> bool) (tr : list Effect) :
  (forall e, f (PRun e) = false) -> count f (map PRun tr) = 0%nat.
Proof.
  intros H. rewrite count_map_PRun, filter_none; [reflexivity|].
  intros e _. apply H.
Qed.

(** Started returns an error exactly when CurrentIP fails or the server
    does not answer the request without an error. *)
Lemma Started_error (c : Client) (job : Job) (h : HostInfo) (pid : Z)
      (hp : HostProbe) (x : Exchange) :
  is_nil (snd (Started key c job h pid hp x)) = negb (startedFails hp x).
Proof.
  unfold Started, startedFails.
  destruct (hp_ip hp) as [ip [e|]]; simpl; [reflexivity|].
  destruct x as [e|e|e|e|sr]; simpl; try reflexivity.
  destruct (sr_Err sr =? "")%string; reflexivity.
Qed.

Let SR := startAndRun compress errText key recsAfterFailure TrimSpace.

(** From the start of the command on: it is started once, the signals are
    subscribed to once and the subscription is stopped once, the job is
    not mounted, and it is unmounted once unless Execute panics before
    that; the server is told the job's fate unless Started failed, in
    which case the command is killed, or the wait failed. *)
Lemma startAndRun_counts (c : Client) (job : Job) (h : HostInfo)
      (shell actualCwd tmpDir dir : string) (env : list string)
      (pr : PreEnv) (pe : ProcEnv) (evs : list SupEvent) (w : Waited) :
  let tr := snd (SR c job h shell actualCwd tmpDir dir env pr pe evs w) in
  count isStart tr = 1%nat /\
  count isMount tr = 0%nat /\
  count isUnmount tr = b2n (negb (skipsUnmount key c job pr pe evs w)) /\
  count isNotify tr = 1%nat /\
  count isSignalStop tr = 1%nat /\
  (count isReport tr = 0%nat <->
   pr_start pr = None /\
   (startedFails (pr_host pr) (pr_startedX pr) = true \/ waitFailed w = true)) /\
  (pr_start pr = None -> startedFails (pr_host pr) (pr_startedX pr) = true ->
   In PKill tr /\ In PTriggerFailure tr).
Proof.
  intros tr. subst tr. unfold SR, startAndRun, skipsUnmount, runState.
  destruct (count_deferred tmpDir) as (D1 & D2 & D3 & D4 & D5 & D6).
  destruct (pr_start pr) as [e|]; cbn [is_nil andb negb b2n].
  - destruct (Release compress key recsAfterFailure c job None FailReasonStart
                      (pr_failX pr)) as [j1 errr].
    cbn [snd]. rewrite !count_app, D1, D2, D3, D4, D5, D6.
    do 5 (split; [reflexivity|]). split.
    + split; [discriminate | intros [Hn _]; discriminate].
    + intros Hn. discriminate.
  - pose proof (Started_error c job h (pr_pid pr) (pr_host pr) (pr_startedX pr))
      as Hst.
    assert (Hjob : snd (Started key c job h (pr_pid pr) (pr_host pr)
                                (pr_startedX pr)) = None ->
                   fst (fst (Started key c job h (pr_pid pr) (pr_host pr)
                                     (pr_startedX pr)))
                   = setPid (pr_pid pr) job).
    { unfold Started. destruct (hp_ip (pr_host pr)) as [ip [e|]];
        [discriminate | reflexivity]. }
    destruct (Started key c job h (pr_pid pr) (pr_host pr) (pr_startedX pr))
      as [[j1 h1] [e|]]; cbn [fst snd is_nil] in Hst, Hjob.
    + assert (Hf : startedFails (pr_host pr) (pr_startedX pr) = true)
        by (destruct (startedFails (pr_host pr) (pr_startedX pr));
            [reflexivity | discriminate]).
      rewrite Hf. cbn [negb andb b2n].
      cbn [snd]. rewrite !count_app, D1, D2, D3, D4, D5, D6.
      do 5 (split; [reflexivity|]). split.
      * split; auto.
      * intros _ _. split; apply in_or_app; right; apply in_or_app; left;
          simpl; auto.
    + assert (Hf : startedFails (pr_host pr) (pr_startedX pr) = false)
        by (destruct (startedFails (pr_host pr) (pr_startedX pr));
            [discriminate | reflexivity]).
      rewrite Hf, (Hjob eq_refl). cbn [negb andb].
      pose proof (ExecuteLaunched_count (fun e => isUnmount (PRun e)) c
                    (setPid (pr_pid pr) job) actualCwd
                    (pr_now pr + Time (Requirements job)) pe evs w) as Hu.
      pose proof (ExecuteLaunched_count (fun e => isReport (PRun e)) c
                    (setPid (pr_pid pr) job) actualCwd
                    (pr_now pr + Time (Requirements job)) pe evs w) as Hr.
      cbv zeta in Hu, Hr.
      destruct (ExecuteLaunched compress errText key recsAfterFailure TrimSpace
                                c (setPid (pr_pid pr) job) actualCwd
                                (pr_now pr + Time (Requirements job))
                                pe evs w) as [[j2 ret] rt].
      cbn [snd] in *.
      destruct Hu as (m1 & n1 & Hn1 & Hu);
        [intros e0 [-> | [-> | ->]]; reflexivity | reflexivity | reflexivity |].
      destruct Hr as (m2 & n2 & Hn2 & Hr);
        [intros e0 [-> | [-> | ->]]; reflexivity | reflexivity | reflexivity |].
      rewrite <- (count_map_PRun isUnmount) in Hu.
      rewrite <- (count_map_PRun isReport) in Hr.
      cbn [isUnmount isReport b2n Nat.add] in Hu, Hr.
      rewrite !count_app, D1, D2, D3, D4, D5, D6, Hu, Hr.
      rewrite (count_map_PRun_none isStart), (count_map_PRun_none isMount),
        (count_map_PRun_none isNotify), (count_map_PRun_none isSignalStop)
        by reflexivity.
      split; [reflexivity|]. split; [reflexivity|]. split.
      { destruct (waitFailed w); cbn [andb negb b2n];
          [destruct (peakmem _ =? 0)|]; reflexivity. }
      split; [reflexivity|]. split; [reflexivity|]. split.
      * destruct (waitFailed w).
        -- split; [intros _; split; [reflexivity | right; reflexivity]
                  | intros _; destruct (peakmem _ =? 0); reflexivity].
        -- split; [simpl; lia | intros [_ [Hc | Hc]]; congruence].
      * intros _ Hc. congruence.
Qed.

Let ER := envAndRun compress errText key recsAfterFailure TrimSpace envOverride.
Let MR := mountAndRun compress errText key recsAfterFailure TrimSpace envOverride.
Let Exec := Execute compress errText key recsAfterFailure TrimSpace
                    envOverride ErrMustReserve.

Lemma envAndRun_counts (c : Client) (job : Job) (h : HostInfo)
      (shell actualCwd tmpDir dir : string)
      (pr : PreEnv) (pe : ProcEnv) (evs : list SupEvent) (w : Waited) :
  let tr := snd (ER c job h shell actualCwd tmpDir dir pr pe evs w) in
  let started := is_nil (snd (pr_env pr)) in
  count isStart tr = b2n started /\
  count isMount tr = 0%nat /\
  count isUnmount tr
  = b2n (negb (started && skipsUnmount key c job pr pe evs w)) /\
  count isNotify tr = b2n started /\
  count isSignalStop tr = b2n started /\
  (count isReport tr = 0%nat <->
   started = true /\ pr_start pr = None /\
   (startedFails (pr_host pr) (pr_startedX pr) = true \/ waitFailed w = true)).
Proof.
  intros tr started. subst tr started. unfold ER, envAndRun.
  destruct (pr_env pr) as [env [e|]]; cbn [snd is_nil andb negb].
  - destruct (Bury compress errText key c job None FailReasonEnv []
                   (pr_failX pr)) as [j1 errb].
    cbn. repeat split; try discriminate. intros (H & _). discriminate.
  - pose proof (startAndRun_counts c job h shell actualCwd tmpDir dir
                                   (cmdEnv envOverride job actualCwd tmpDir env)
                                   pr pe evs w)
      as (S1 & S2 & S3 & S4 & S5 & S6 & _).
    unfold SR in S1, S2, S3, S4, S5, S6. cbv zeta in S1, S2, S3, S4, S5, S6.
    rewrite S1, S2, S3, S4, S5. cbn [b2n].
    do 5 (split; [reflexivity|]).
    split.
    + intros Hz. split; [reflexivity | apply S6; exact Hz].
    + intros (_ & Hz). apply S6. exact Hz.
Qed.

Lemma mountAndRun_counts (c : Client) (job : Job) (h : HostInfo)
      (shell actualCwd tmpDir dir : string)
      (pr : PreEnv) (pe : ProcEnv) (evs : list SupEvent) (w : Waited) :
  let tr := snd (MR c job h shell actualCwd tmpDir dir pr pe evs w) in
  let started := is_nil (mountError errText pr) && is_nil (snd (pr_env pr)) in
  count isStart tr = b2n started /\
  count isMount tr = mountCalls errText pr /\
  count isUnmount tr
  = b2n (is_nil (mountError errText pr)
         && negb (started && skipsUnmount key c job pr pe evs w)) /\
  count isNotify tr = b2n started /\
  count isSignalStop tr = b2n started /\
  (count isReport tr = 0%nat <->
   started = true /\ pr_start pr = None /\
   (startedFails (pr_host pr) (pr_startedX pr) = true \/ waitFailed w = true)).
Proof.
  intros tr started. subst tr started. unfold MR, mountAndRun.
  assert (Hm : forall (mounts : list PreEffect) (errm : option error),
             count isStart mounts = 0%nat -> count isUnmount mounts = 0%nat ->
             count isNotify mounts = 0%nat -> count isSignalStop mounts = 0%nat ->
             count isReport mounts = 0%nat ->
             let tr :=
               snd (match errm with
                    | Some e =>
                        let buryErr :=
                          Errorf "failed to mount remote file system(s): %s" [FErr e] in
                        let '(job0, errb) :=
                          Bury compress errText key c job None FailReasonMount
                               [Some buryErr] (pr_failX pr) in
                        (job0, h, Returns (Some (withBuryNote errText buryErr errb)),
                         mounts ++ [PBury FailReasonMount (Some buryErr)])
                    | None =>
                        let '(job0, h0, ending, tr) :=
                          envAndRun compress errText key recsAfterFailure TrimSpace
                                    envOverride c job h shell actualCwd tmpDir dir
                                    pr pe evs w in
                        (job0, h0, ending, mounts ++ tr)
                    end) in
             let started := is_nil errm && is_nil (snd (pr_env pr)) in
             count isStart tr = b2n started /\
             count isMount tr = count isMount mounts /\
             count isUnmount tr
             = b2n (is_nil errm
                    && negb (started && skipsUnmount key c job pr pe evs w)) /\
             count isNotify tr = b2n started /\
             count isSignalStop tr = b2n started /\
             (count isReport tr = 0%nat <->
              started = true /\ pr_start pr = None /\
              (startedFails (pr_host pr) (pr_startedX pr) = true \/
               waitFailed w = true))).
  { intros mounts errm M2 M3 M4 M5 M6. cbv zeta.
    destruct errm as [e|]; cbn [is_nil andb negb].
    - destruct (Bury compress errText key c job None FailReasonMount
                     [Some (Errorf "failed to mount remote file system(s): %s" [FErr e])]
                     (pr_failX pr)) as [j1 errb].
      cbn [snd]. rewrite !count_app, M2, M3, M4, M5, M6. cbn.
      do 5 (split; [lia|]).
      split; [discriminate | intros (H & _); discriminate].
    - pose proof (envAndRun_counts c job h shell actualCwd tmpDir dir pr pe evs w)
        as (S1 & S2 & S3 & S4 & S5 & S6).
      unfold ER in S1, S2, S3, S4, S5, S6. cbv zeta in S1, S2, S3, S4, S5, S6.
      destruct (envAndRun compress errText key recsAfterFailure TrimSpace envOverride
                          c job h shell actualCwd tmpDir dir pr pe evs w)
        as [[[j1 h1] ret] tr].
      cbn [snd] in *. rewrite !count_app, M2, M3, M4, M5, M6.
      rewrite S1, S2, S3, S4, S5. cbn [b2n Nat.add].
      do 5 (split; [lia|]). split; intros Hz; apply S6; exact Hz. }
  unfold mountError, mountCalls.
  destruct (pr_mount pr) as [e|].
  - destruct (Strings.Contains (errText e) "fusermount exited with code 256").
    + exact (Hm [PMount; PWait5s; PMount] (pr_mountAgain pr)
                eq_refl eq_refl eq_refl eq_refl eq_refl).
    + exact (Hm [PMount] (Some e) eq_refl eq_refl eq_refl eq_refl eq_refl).
  - exact (Hm [PMount] None eq_refl eq_refl eq_refl eq_refl eq_refl).
Qed.

Lemma jobAtStart_same (job : Job) (pr : PreEnv) :
  Cmd (jobAtStart job pr) = Cmd job /\
  Requirements (jobAtStart job pr) = Requirements job /\
  ChangeHome (jobAtStart job pr) = ChangeHome job.
Proof. unfold jobAtStart. destruct (CwdMatters job); repeat split. Qed.

(** The bookkeeping of a whole Execute. *)
Lemma Execute_counts (c : Client) (job : Job) (h : HostInfo) (shell : string)
      (pr : PreEnv) (pe : ProcEnv) (evs : list SupEvent) (w : Waited) :
  let tr := snd (Exec c job h shell pr pe evs w) in
  count isStart tr = b2n (reachesStart errText c job pr) /\
  count isMount tr
  = (if reachesMount c job pr then mountCalls errText pr else 0%nat) /\
  count isUnmount tr
  = b2n (reachesMount c job pr && is_nil (mountError errText pr)
         && negb (is_nil (snd (pr_env pr))
                  && skipsUnmount key c (jobAtStart job pr) pr pe evs w)) /\
  count isNotify tr = b2n (reachesStart errText c job pr) /\
  count isSignalStop tr = b2n (reachesStart errText c job pr) /\
  (count isReport tr = 0%nat <->
   refusedAtOnce c job pr = true \/
   (reachesStart errText c job pr = true /\ pr_start pr = None /\
    (startedFails (pr_host pr) (pr_startedX pr) = true \/ waitFailed w = true))).
Proof.
  intros tr. subst tr. unfold Exec, Execute.
  unfold reachesStart, reachesMount, refusedAtOnce, jobAtStart.
  destruct (N.eqb (clientid c) (ReservedBy job)); cbn [negb andb orb];
    [|repeat split; auto].
  destruct (pr_stderrPipe pr) as [e|]; cbn [negb andb orb is_nil];
    [repeat split; auto|].
  destruct (pr_stdoutPipe pr) as [e|]; cbn [negb andb orb is_nil];
    [repeat split; auto|].
  destruct (pr_cwdIsDir pr); cbn [negb andb orb].
  2:{ destruct (Bury compress errText key c job None FailReasonCwd []
                     (pr_failX pr)) as [j1 errb].
      cbn. repeat split; try discriminate.
      intros [H|(H & _)]; discriminate. }
  destruct (CwdMatters job); cbn [orb andb].
  - destruct (mountAndRun_counts c job h shell ""%string ""%string (Cwd job)
                                 pr pe evs w) as (H1 & H2 & H3 & H4 & H5 & H6).
    unfold MR in H1, H2, H3, H4, H5, H6. cbv zeta in H3.
    rewrite H3.
    split; [exact H1|]. split; [exact H2|]. split.
    { destruct (is_nil (mountError errText pr)); reflexivity. }
    split; [exact H4|]. split; [exact H5|]. split.
    + intros Hz. right. apply H6 in Hz. exact Hz.
    + intros [Hz | Hz]; [discriminate|]. apply H6. exact Hz.
  - destruct (pr_hashedDir pr) as [[actualCwd tmpDir] [e|]]; cbn [fst snd is_nil andb].
    + destruct (Bury compress errText key c job None FailReasonCwd
                     [Some (Errorf "could not create working directory: %s" [FErr e])]
                     (pr_failX pr)) as [j1 errb].
      cbn. repeat split; try discriminate.
      intros [H|(H & _)]; discriminate.
    + destruct (mountAndRun_counts c (JobSet.actualCwd actualCwd job) h shell
                                   actualCwd tmpDir actualCwd pr pe evs w)
        as (H1 & H2 & H3 & H4 & H5 & H6).
      unfold MR in H1, H2, H3, H4, H5, H6. cbv zeta in H3.
      rewrite H3.
      split; [exact H1|]. split; [exact H2|]. split.
      { destruct (is_nil (mountError errText pr)); reflexivity. }
      split; [exact H4|]. split; [exact H5|]. split.
      * intros Hz. right. apply H6 in Hz. exact Hz.
      * intros [Hz | Hz]; [discriminate|]. apply H6. exact Hz.
Qed.

Lemma forallb_map_PRun (tr : list Effect) :
  forallb isMid (map PRun tr) = true.
Proof. induction tr as [|e tr IH]; [reflexivity | exact IH]. Qed.

Lemma startAndRun_shape (c : Client) (job : Job) (h : HostInfo)
      (shell actualCwd tmpDir dir : string) (env : list string)
      (pr : PreEnv) (pe : ProcEnv) (evs : list SupEvent) (w : Waited) :
  shape [shell; "-c"%string; shellCommand (Cmd job)] dir env tmpDir true
        (snd (SR c job h shell actualCwd tmpDir dir env pr pe evs w)).
Proof.
  unfold shape, SR, startAndRun, deferred. exists [].
  destruct (pr_start pr) as [e|].
  - destruct (Release compress key recsAfterFailure c job None FailReasonStart
                      (pr_failX pr)) as [j1 errr].
    exists [PRelease FailReasonStart; PUnmountForce].
    repeat split; reflexivity.
  - destruct (Started key c job h (pr_pid pr) (pr_host pr) (pr_startedX pr))
      as [[j1 h1] [e|]].
    + exists [PStarted (pr_pid pr); PKill; PTriggerFailure; PUnmountForce].
      repeat split; reflexivity.
    + destruct (ExecuteLaunched compress errText key recsAfterFailure TrimSpace
                                c j1 actualCwd
                                (pr_now pr + Time (Requirements job)) pe evs w)
        as [[j2 ret] tr].
      exists (PStarted (pr_pid pr) :: map PRun tr).
      split; [|split; [reflexivity|]].
      * reflexivity.
      * cbn [forallb isMid andb]. apply forallb_map_PRun.
Qed.

Lemma shape_early (args : list string) (dir : string) (env : list string)
      (tmpDir : string) (started : bool) (pre tr : list PreEffect) :
  forallb isEarly pre = true ->
  shape args dir env tmpDir started tr ->
  shape args dir env tmpDir started (pre ++ tr).
Proof.
  intros Hpre. unfold shape. destruct started.
  - intros (pre' & mid & -> & Hp & Hm). exists (pre ++ pre'), mid.
    split; [apply app_assoc|]. split; [|exact Hm].
    rewrite forallb_app, Hpre, Hp. reflexivity.
  - intros Htr. rewrite forallb_app, Hpre, Htr. reflexivity.
Qed.

Lemma envAndRun_shape (c : Client) (job : Job) (h : HostInfo)
      (shell actualCwd tmpDir dir : string)
      (pr : PreEnv) (pe : ProcEnv) (evs : list SupEvent) (w : Waited) :
  shape [shell; "-c"%string; shellCommand (Cmd job)] dir
        (cmdEnv envOverride job actualCwd tmpDir (fst (pr_env pr))) tmpDir
        (is_nil (snd (pr_env pr)))
        (snd (ER c job h shell actualCwd tmpDir dir pr pe evs w)).
Proof.
  unfold ER, envAndRun.
  destruct (pr_env pr) as [env [e|]]; cbn [fst snd is_nil].
  - destruct (Bury compress errText key c job None FailReasonEnv []
                   (pr_failX pr)) as [j1 errb].
    reflexivity.
  - apply startAndRun_shape.
Qed.

Lemma mountAndRun_shape (c : Client) (job : Job) (h : HostInfo)
      (shell actualCwd tmpDir dir : string)
      (pr : PreEnv) (pe : ProcEnv) (evs : list SupEvent) (w : Waited) :
  shape [shell; "-c"%string; shellCommand (Cmd job)] dir
        (cmdEnv envOverride job actualCwd tmpDir (fst (pr_env pr))) tmpDir
        (is_nil (mountError errText pr) && is_nil (snd (pr_env pr)))
        (snd (MR c job h shell actualCwd tmpDir dir pr pe evs w)).
Proof.
  unfold MR, mountAndRun.
  assert (Hm : forall (mounts : list PreEffect) (errm : option error),
             forallb isEarly mounts = true ->
             shape [shell; "-c"%string; shellCommand (Cmd job)] dir
                   (cmdEnv envOverride job actualCwd tmpDir (fst (pr_env pr)))
                   tmpDir (is_nil errm && is_nil (snd (pr_env pr)))
               (snd (match errm with
                     | Some e =>
                         let buryErr :=
                           Errorf "failed to mount remote file system(s): %s" [FErr e] in
                         let '(job0, errb) :=
                           Bury compress errText key c job None FailReasonMount
                                [Some buryErr] (pr_failX pr) in
                         (job0, h, Returns (Some (withBuryNote errText buryErr errb)),
                          mounts ++ [PBury FailReasonMount (Some buryErr)])
                     | None =>
                         let '(job0, h0, ending, tr) :=
                           envAndRun compress errText key recsAfterFailure TrimSpace
                                     envOverride c job h shell actualCwd tmpDir dir
                                     pr pe evs w in
                         (job0, h0, ending, mounts ++ tr)
                     end))).
  { intros mounts errm Hmounts.
    destruct errm as [e|]; cbn [is_nil andb].
    - destruct (Bury compress errText key c job None FailReasonMount
                     [Some (Errorf "failed to mount remote file system(s): %s" [FErr e])]
                     (pr_failX pr)) as [j1 errb].
      cbn [snd shape]. rewrite forallb_app, Hmounts. reflexivity.
    - pose proof (envAndRun_shape c job h shell actualCwd tmpDir dir pr pe evs w)
        as Hs.
      unfold ER in Hs.
      destruct (envAndRun compress errText key recsAfterFailure TrimSpace envOverride
                          c job h shell actualCwd tmpDir dir pr pe evs w)
        as [[[j1 h1] ret] tr].
      cbn [snd] in *. apply shape_early; assumption. }
  unfold mountError.
  destruct (pr_mount pr) as [e|].
  - destruct (Strings.Contains (errText e) "fusermount exited with code 256").
    + exact (Hm [PMount; PWait5s; PMount] (pr_mountAgain pr) eq_refl).
    + exact (Hm [PMount] (Some e) eq_refl).
  - exact (Hm [PMount] None eq_refl).
Qed.

(** The layout of the trace of a whole Execute. *)
Lemma Execute_shape (c : Client) (job : Job) (h : HostInfo) (shell : string)
      (pr : PreEnv) (pe : ProcEnv) (evs : list SupEvent) (w : Waited) :
  shape [shell; "-c"%string; shellCommand (Cmd job)] (workDir job pr)
        (cmdEnv envOverride job (actualCwdOf job pr) (tmpDirOf job pr)
                (fst (pr_env pr)))
        (tmpDirOf job pr) (reachesStart errText c job pr)
        (snd (Exec c job h shell pr pe evs w)).
Proof.
  unfold Exec, Execute, reachesStart, reachesMount, workDir, actualCwdOf, tmpDirOf.
  destruct (N.eqb (clientid c) (ReservedBy job)); cbn [negb andb];
    [|reflexivity].
  destruct (pr_stderrPipe pr) as [e|]; cbn [is_nil andb]; [reflexivity|].
  destruct (pr_stdoutPipe pr) as [e|]; cbn [is_nil andb]; [reflexivity|].
  destruct (pr_cwdIsDir pr); cbn [negb andb].
  2:{ destruct (Bury compress errText key c job None FailReasonCwd []
                     (pr_failX pr)) as [j1 errb].
      reflexivity. }
  destruct (CwdMatters job) eqn:Hcm; cbn [orb andb].
  - apply mountAndRun_shape.
  - destruct (pr_hashedDir pr) as [[actualCwd tmpDir] [e|]]; cbn [fst snd is_nil andb].
    + destruct (Bury compress errText key c job None FailReasonCwd
                     [Some (Errorf "could not create working directory: %s" [FErr e])]
                     (pr_failX pr)) as [j1 errb].
      reflexivity.
    + exact (mountAndRun_shape c (JobSet.actualCwd actualCwd job) h shell
                               actualCwd tmpDir actualCwd pr pe evs w).
Qed.

(** When the start and Started work, what follows is the run as modelled
    by [ExecuteLaunched], with endT the time limit counted from just before
    the start; else an error is returned. *)
Lemma startAndRun_stage (c : Client) (job : Job) (h : HostInfo)
      (shell actualCwd tmpDir dir : string) (env : list string)
      (pr : PreEnv) (pe : ProcEnv) (evs : list SupEvent) (w : Waited) :
  let r := SR c job h shell actualCwd tmpDir dir env pr pe evs w in
  if is_nil (pr_start pr) && negb (startedFails (pr_host pr) (pr_startedX pr))
  then
    let run := ExecuteLaunched compress errText key recsAfterFailure TrimSpace
                               c (setPid (pr_pid pr) job) actualCwd
                               (pr_now pr + Time (Requirements job)) pe evs w in
    fst (fst (fst r)) = fst (fst run) /\
    snd (fst r) = snd (fst run) /\
    snd r = [PNotify; PStart [shell; "-c"%string; shellCommand (Cmd job)] dir env;
             PStarted (pr_pid pr)]
              ++ map PRun (snd run) ++ deferred tmpDir
  else exists e, snd (fst r) = Returns (Some e).
Proof.
  intros r. subst r. unfold SR, startAndRun.
  destruct (pr_start pr) as [e|]; cbn [is_nil andb].
  - destruct (Release compress key recsAfterFailure c job None FailReasonStart
                      (pr_failX pr)) as [j1 errr].
    eexists. reflexivity.
  - pose proof (Started_error c job h (pr_pid pr) (pr_host pr) (pr_startedX pr))
      as Hst.
    assert (Hjob : snd (Started key c job h (pr_pid pr) (pr_host pr)
                                (pr_startedX pr)) = None ->
                   fst (fst (Started key c job h (pr_pid pr) (pr_host pr)
                                     (pr_startedX pr)))
                   = setPid (pr_pid pr) job).
    { unfold Started. destruct (hp_ip (pr_host pr)) as [ip [e|]];
        [discriminate | reflexivity]. }
    destruct (Started key c job h (pr_pid pr) (pr_host pr) (pr_startedX pr))
      as [[j1 h1] [e|]]; cbn [snd fst is_nil] in Hst, Hjob.
    + destruct (startedFails (pr_host pr) (pr_startedX pr));
        [|discriminate]. eexists. reflexivity.
    + destruct (startedFails (pr_host pr) (pr_startedX pr));
        [discriminate|]. cbn [negb]. rewrite (Hjob eq_refl).
      destruct (ExecuteLaunched compress errText key recsAfterFailure TrimSpace
                                c (setPid (pr_pid pr) job) actualCwd
                                (pr_now pr + Time (Requirements job)) pe evs w)
        as [[j2 ret] tr].
      repeat split.
Qed.

Lemma envAndRun_stage (c : Client) (job : Job) (h : HostInfo)
      (shell actualCwd tmpDir dir : string)
      (pr : PreEnv) (pe : ProcEnv) (evs : list SupEvent) (w : Waited) :
  if is_nil (snd (pr_env pr))
  then ER c job h shell actualCwd tmpDir dir pr pe evs w
       = SR c job h shell actualCwd tmpDir dir
            (cmdEnv envOverride job actualCwd tmpDir (fst (pr_env pr)))
            pr pe evs w
  else exists e,
      snd (fst (ER c job h shell actualCwd tmpDir dir pr pe evs w))
      = Returns (Some e).
Proof.
  unfold ER, envAndRun.
  destruct (pr_env pr) as [env [e|]]; cbn [fst snd is_nil].
  - destruct (Bury compress errText key c job None FailReasonEnv []
                   (pr_failX pr)) as [j1 errb].
    eexists. reflexivity.
  - reflexivity.
Qed.

Lemma mountAndRun_stage (c : Client) (job : Job) (h : HostInfo)
      (shell actualCwd tmpDir dir : string)
      (pr : PreEnv) (pe : ProcEnv) (evs : list SupEvent) (w : Waited) :
  if is_nil (mountError errText pr) && is_nil (snd (pr_env pr))
  then exists pre,
      forallb isEarly pre = true /\
      MR c job h shell actualCwd tmpDir dir pr pe evs w
      = prepend pre (SR c job h shell actualCwd tmpDir dir
                        (cmdEnv envOverride job actualCwd tmpDir (fst (pr_env pr)))
                        pr pe evs w)
  else exists e,
      snd (fst (MR c job h shell actualCwd tmpDir dir pr pe evs w))
      = Returns (Some e).
Proof.
  unfold MR, mountAndRun.
  assert (Hm : forall (mounts : list PreEffect) (errm : option error),
             forallb isEarly mounts = true ->
             let r :=
               match errm with
               | Some e =>
                   let buryErr :=
                     Errorf "failed to mount remote file system(s): %s" [FErr e] in
                   let '(job0, errb) :=
                     Bury compress errText key c job None FailReasonMount
                          [Some buryErr] (pr_failX pr) in
                   (job0, h, Returns (Some (withBuryNote errText buryErr errb)),
                    mounts ++ [PBury FailReasonMount (Some buryErr)])
               | None =>
                   let '(job0, h0, ending, tr) :=
                     envAndRun compress errText key recsAfterFailure TrimSpace
                               envOverride c job h shell actualCwd tmpDir dir
                               pr pe evs w in
                   (job0, h0, ending, mounts ++ tr)
               end in
             if is_nil errm && is_nil (snd (pr_env pr))
             then exists pre,
                 forallb isEarly pre = true /\
                 r = prepend pre
                       (SR c job h shell actualCwd tmpDir dir
                           (cmdEnv envOverride job actualCwd tmpDir
                                   (fst (pr_env pr)))
                           pr pe evs w)
             else exists e, snd (fst r) = Returns (Some e)).
  { intros mounts errm Hmounts. cbv zeta.
    destruct errm as [e|]; cbn [is_nil andb].
    - destruct (Bury compress errText key c job None FailReasonMount
                     [Some (Errorf "failed to mount remote file system(s): %s" [FErr e])]
                     (pr_failX pr)) as [j1 errb].
      cbn [fst snd]. eexists. reflexivity.
    - pose proof (envAndRun_stage c job h shell actualCwd tmpDir dir pr pe evs w)
        as Hs.
      unfold ER in Hs.
      destruct (is_nil (snd (pr_env pr))).
      + exists mounts. split; [exact Hmounts|]. rewrite Hs. reflexivity.
      + destruct (envAndRun compress errText key recsAfterFailure TrimSpace
                            envOverride c job h shell actualCwd tmpDir dir
                            pr pe evs w) as [[[j1 h1] ret] tr].
        exact Hs. }
  unfold mountError.
  destruct (pr_mount pr) as [e|].
  - destruct (Strings.Contains (errText e) "fusermount exited with code 256").
    + exact (Hm [PMount; PWait5s; PMount] (pr_mountAgain pr) eq_refl).
    + exact (Hm [PMount] (Some e) eq_refl).
  - exact (Hm [PMount] None eq_refl).
Qed.

(** Execute either returns an error before the command is started, or does
    what [startAndRun] does after some early steps. *)
Lemma Execute_stage (c : Client) (job : Job) (h : HostInfo) (shell : string)
      (pr : PreEnv) (pe : ProcEnv) (evs : list SupEvent) (w : Waited) :
  if reachesStart errText c job pr
  then exists pre,
      forallb isEarly pre = true /\
      Exec c job h shell pr pe evs w
      = prepend pre
          (SR c (jobAtStart job pr) h shell (actualCwdOf job pr)
              (tmpDirOf job pr) (workDir job pr)
              (cmdEnv envOverride job (actualCwdOf job pr) (tmpDirOf job pr)
                      (fst (pr_env pr)))
              pr pe evs w)
  else exists e, snd (fst (Exec c job h shell pr pe evs w)) = Returns (Some e).
Proof.
  unfold Exec, Execute, reachesStart, reachesMount, workDir, actualCwdOf,
    tmpDirOf, jobAtStart.
  destruct (N.eqb (clientid c) (ReservedBy job)); cbn [negb andb];
    [|eexists; reflexivity].
  destruct (pr_stderrPipe pr) as [e|]; cbn [is_nil andb];
    [eexists; reflexivity|].
  destruct (pr_stdoutPipe pr) as [e|]; cbn [is_nil andb];
    [eexists; reflexivity|].
  destruct (pr_cwdIsDir pr); cbn [negb andb].
  2:{ destruct (Bury compress errText key c job None FailReasonCwd []
                     (pr_failX pr)) as [j1 errb].
      eexists; reflexivity. }
  destruct (CwdMatters job) eqn:Hcm; cbn [orb andb].
  - apply mountAndRun_stage.
  - destruct (pr_hashedDir pr) as [[actualCwd tmpDir] [e|]]; cbn [fst snd is_nil andb].
    + destruct (Bury compress errText key c job None FailReasonCwd
                     [Some (Errorf "could not create working directory: %s" [FErr e])]
                     (pr_failX pr)) as [j1 errb].
      cbn [fst snd]. eexists. reflexivity.
    + exact (mountAndRun_stage c (JobSet.actualCwd actualCwd job) h shell
                               actualCwd tmpDir actualCwd pr pe evs w).
Qed.

Lemma count_zero_In (f : PreEffect -> bool) (tr : list PreEffect) (x : PreEffect) :
  count f tr = 0%nat -> In x tr -> f x = false.
Proof.
  unfold count. induction tr as [|y tr IH]; simpl; [tauto|].
  destruct (f y) eqn:Hy; simpl; [discriminate|].
  intros H [-> | Hin]; [exact Hy | exact (IH H Hin)].
Qed.

Lemma forallb_In (f : PreEffect -> bool) (tr : list PreEffect) (x : PreEffect) :
  forallb f tr = true -> In x tr -> f x = true.
Proof. intros H Hin. rewrite forallb_forall in H. exact (H x Hin). Qed.

(** Where the start, the deferred calls and the steps in between can be in
    a trace of the given shape. *)
Lemma shape_In (args : list string) (dir : string) (env : list string)
      (tmpDir : string) (started : bool) (tr : list PreEffect) (x : PreEffect) :
  shape args dir env tmpDir started tr -> In x tr -> isEarly x = false ->
  started = true /\
  (x = PNotify \/ x = PStart args dir env \/ isMid x = true \/
   x = PSignalStop \/ (x = PRemoveAll tmpDir /\ tmpDir <> ""%string)).
Proof.
  unfold shape. destruct started.
  - intros (pre & mid & -> & Hp & Hm) Hin Hx. split; [reflexivity|].
    apply in_app_or in Hin. destruct Hin as [Hin | Hin].
    { rewrite (forallb_In _ _ _ Hp Hin) in Hx. discriminate. }
    simpl in Hin. destruct Hin as [<- | [<- | Hin]]; [auto | auto |].
    apply in_app_or in Hin. destruct Hin as [Hin | Hin].
    { right. right. left. exact (forallb_In _ _ _ Hm Hin). }
    destruct Hin as [<- | Hin]; [auto|].
    destruct (String.eqb_spec tmpDir ""%string) as [Heq | Hne];
      [destruct Hin|].
    destruct Hin as [<- | []]. right. right. right. right. split; auto.
  - intros Htr Hin Hx. rewrite (forallb_In _ _ _ Htr Hin) in Hx. discriminate.
Qed.

End ExecuteWhole.

(* ===================================================================== *)
(** ** Execute: from the reservation check to the deferred calls *)

Lemma count_none_of (f g : PreEffect -> bool) (l : list PreEffect) :
  (forall x, f x = true -> g x = false) ->
  forallb f l = true -> count g l = 0%nat.
Proof.
  intros Hfg. unfold count. induction l as [|x l IH]; simpl; [reflexivity|].
  intros H. apply andb_prop in H. destruct H as [Hx Hl].
  rewrite (Hfg x Hx). exact (IH Hl).
Qed.

Section ExecuteProperties.

Variable compress : bytes -> bytes * option error.
Variable errText : error -> string.
Variable key : Job -> string.
Variable recsAfterFailure : Job -> scheduler_Requirements.
Variable TrimSpace : bytes -> bytes.
Variable envOverride : list string -> list string -> list string.
Variable ErrMustReserve : string.

Let Exec := Execute compress errText key recsAfterFailure TrimSpace
                    envOverride ErrMustReserve.

(** X12: Execute starts the command at most once, and only when the job
    was reserved by this client, the pipes could be made, the working
    directory is there (and, unless CwdMatters, the hashed directory could
    be made), the mount worked and the environment could be read.  The
    command is started as [shell -c cmd], cmd with its pipefail prefix, in
    job.Cwd if CwdMatters and in the hashed directory otherwise; with
    CwdMatters its environment is that of job.Env() as it is, whatever
    ChangeHome says. *)
Theorem Execute_starts_command_once
        (c : Client) (job : Job) (h : HostInfo) (shell : string)
        (pr : PreEnv) (pe : ProcEnv) (evs : list SupEvent) (w : Waited) :
  let tr := snd (Exec c job h shell pr pe evs w) in
  count isStart tr = b2n (reachesStart errText c job pr) /\
  forall args dir env,
    In (PStart args dir env) tr ->
    reachesStart errText c job pr = true /\
    args = [shell; "-c"%string; shellCommand (Cmd job)] /\
    dir = (if CwdMatters job then Cwd job else fst (fst (pr_hashedDir pr))) /\
    env = cmdEnv envOverride job (actualCwdOf job pr) (tmpDirOf job pr)
                 (fst (pr_env pr)) /\
    (CwdMatters job = true -> env = fst (pr_env pr)).
Proof.
  intros tr. subst tr. split.
  - apply (Execute_counts compress errText key recsAfterFailure TrimSpace
                          envOverride ErrMustReserve c job h shell pr pe evs w).
  - intros args dir env Hin.
    destruct (shape_In _ _ _ _ _ _ _
                (Execute_shape compress errText key recsAfterFailure TrimSpace
                               envOverride ErrMustReserve c job h shell pr pe evs w)
                Hin eq_refl)
      as (Hs & [Hx | [Hx | [Hx | [Hx | [Hx _]]]]]); try discriminate.
    injection Hx as -> -> ->.
    split; [exact Hs|]. split; [reflexivity|]. split; [reflexivity|].
    split; [reflexivity|].
    intros Hcm. unfold cmdEnv, tmpDirOf. rewrite Hcm. reflexivity.
Qed.

(** X13: Execute calls job.Mount() at most twice, and twice only when the
    first call failed with the fusermount error.  The job is unmounted at
    most once and never unless the mount worked in the end; when it did,
    the job is unmounted exactly once whatever happens after it (the
    environment cannot be read, the command does not start, Started
    fails, or the command runs and its exit is collected), with one
    exception: when the wait for the started command fails and peakmem
    is still 0 (no memory sample above 0 was read), Execute panics before
    it reaches the unmount and the job is left mounted. *)
Theorem Execute_unmounts_what_it_mounted
        (c : Client) (job : Job) (h : HostInfo) (shell : string)
        (pr : PreEnv) (pe : ProcEnv) (evs : list SupEvent) (w : Waited) :
  let tr := snd (Exec c job h shell pr pe evs w) in
  let mounted := reachesMount c job pr && is_nil (mountError errText pr) in
  count isUnmount tr
  = (if reachesStart errText c job pr
        && skipsUnmount key c (jobAtStart job pr) pr pe evs w
     then 0%nat else b2n mounted) /\
  (waitFailed w = false -> count isUnmount tr = b2n mounted) /\
  (count isUnmount tr <= count isMount tr <= 2)%nat /\
  (count isMount tr = 2%nat <->
   reachesMount c job pr = true /\
   exists e, pr_mount pr = Some e /\
             Strings.Contains (errText e) "fusermount exited with code 256"
             = true).
Proof.
  intros tr mounted. subst tr mounted.
  destruct (Execute_counts compress errText key recsAfterFailure TrimSpace
                           envOverride ErrMustReserve c job h shell pr pe evs w)
    as (_ & Hm & Hu & _).
  fold Exec in Hm, Hu. rewrite Hm, Hu.
  assert (Hsk : waitFailed w = false ->
                skipsUnmount key c (jobAtStart job pr) pr pe evs w = false).
  { intros Hw. unfold skipsUnmount. rewrite Hw.
    rewrite andb_false_r. apply andb_false_l. }
  unfold reachesStart, mountCalls, mountError.
  split; [|split].
  - destruct (reachesMount c job pr); cbn [andb b2n]; [|reflexivity].
    destruct (is_nil match pr_mount pr with
                     | Some e =>
                         if Strings.Contains (errText e)
                                             "fusermount exited with code 256"
                         then pr_mountAgain pr else Some e
                     | None => None
                     end); cbn [andb b2n]; [|reflexivity].
    destruct (is_nil (snd (pr_env pr))); cbn [andb negb b2n]; [|reflexivity].
    destruct (skipsUnmount key c (jobAtStart job pr) pr pe evs w); reflexivity.
  - intros Hw. rewrite (Hsk Hw), andb_false_r, andb_true_r. reflexivity.
  - destruct (reachesMount c job pr); cbn [andb b2n].
    + destruct (pr_mount pr) as [e|]; cbn [is_nil b2n].
      * destruct (Strings.Contains (errText e) "fusermount exited with code 256")
          eqn:Hc.
        -- split.
           ++ destruct (is_nil (pr_mountAgain pr)); cbn [andb b2n]; [|lia].
              destruct (negb _); cbn [b2n]; lia.
           ++ split; [intros _; split; [reflexivity | exists e; auto]
                     | reflexivity].
        -- cbn [is_nil andb b2n]. split; [lia|]. split; [discriminate|].
           intros (_ & e' & He' & Hc'). injection He' as <-. congruence.
      * cbn [andb].
        split; [destruct (negb _); cbn [b2n]; lia|]. split; [discriminate|].
        intros (_ & e' & He' & _). discriminate.
    + split; [lia|]. split; [discriminate | intros (Hf & _); discriminate].
Qed.

(** X14: the signals are intercepted exactly when the command is about to
    be started, and then the deferred calls come last on every way out:
    signal.Stop, followed by the removal of the temp directory when one
    was made.  Nothing else stops the interception or removes a
    directory, and a job for which CwdMatters has no directory removed. *)
Theorem Execute_deferred_cleanup
        (c : Client) (job : Job) (h : HostInfo) (shell : string)
        (pr : PreEnv) (pe : ProcEnv) (evs : list SupEvent) (w : Waited) :
  let tr := snd (Exec c job h shell pr pe evs w) in
  count isNotify tr = b2n (reachesStart errText c job pr) /\
  count isSignalStop tr = b2n (reachesStart errText c job pr) /\
  (if reachesStart errText c job pr
   then exists body,
       tr = body ++ deferred (tmpDirOf job pr) /\
       count isSignalStop body = 0%nat /\ count isRemoveAll body = 0%nat
   else count isRemoveAll tr = 0%nat) /\
  forall d, In (PRemoveAll d) tr ->
            CwdMatters job = false /\ d = snd (fst (pr_hashedDir pr)) /\
            d <> ""%string.
Proof.
  intros tr. subst tr.
  destruct (Execute_counts compress errText key recsAfterFailure TrimSpace
                           envOverride ErrMustReserve c job h shell pr pe evs w)
    as (_ & _ & _ & Hn & Hs & _).
  fold Exec in Hn, Hs.
  pose proof (Execute_shape compress errText key recsAfterFailure TrimSpace
                            envOverride ErrMustReserve c job h shell pr pe evs w)
    as Hsh.
  fold Exec in Hsh.
  split; [exact Hn|]. split; [exact Hs|]. split.
  - unfold shape in Hsh. destruct (reachesStart errText c job pr).
    + destruct Hsh as (pre & mid & Heq & Hp & Hm).
      exists (pre ++ [PNotify;
                      PStart [shell; "-c"%string; shellCommand (Cmd job)]
                             (workDir job pr)
                             (cmdEnv envOverride job (actualCwdOf job pr)
                                     (tmpDirOf job pr) (fst (pr_env pr)))]
                  ++ mid).
      split.
      * rewrite Heq. unfold deferred. rewrite <- !app_assoc. reflexivity.
      * rewrite !count_app.
        rewrite (count_none_of isEarly isSignalStop pre),
          (count_none_of isEarly isRemoveAll pre),
          (count_none_of isMid isSignalStop mid),
          (count_none_of isMid isRemoveAll mid);
          try assumption; try (intros [] Hx; (reflexivity || discriminate)).
        split; reflexivity.
    + apply (count_none_of isEarly); [|exact Hsh].
      intros [] Hx; (reflexivity || discriminate).
  - intros d Hin.
    destruct (shape_In _ _ _ _ _ _ _ Hsh Hin eq_refl)
      as (_ & [Hx | [Hx | [Hx | [Hx | [Hx Hne]]]]]); try discriminate.
    injection Hx as ->. unfold tmpDirOf in *.
    destruct (CwdMatters job); [congruence|]. repeat split. exact Hne.
Qed.

(** X15: Execute tells the server the job's fate (by Bury, Release or
    Archive) unless it gave up before doing anything for the job (not
    reserved by this client, or a pipe could not be made), or the command
    was started and then either Started failed or the wait for the command
    failed.  When Started fails the command is killed, the failure
    behaviours are triggered, the job is unmounted and an error is
    returned; when the wait fails Execute panics.  Either way no
    end-state call is made for the job. *)
Theorem Execute_unreported_job
        (c : Client) (job : Job) (h : HostInfo) (shell : string)
        (pr : PreEnv) (pe : ProcEnv) (evs : list SupEvent) (w : Waited) :
  let r := Exec c job h shell pr pe evs w in
  (count isReport (snd r) = 0%nat <->
   refusedAtOnce c job pr = true \/
   (reachesStart errText c job pr = true /\ pr_start pr = None /\
    (startedFails (pr_host pr) (pr_startedX pr) = true \/
     waitFailed w = true))) /\
  (reachesStart errText c job pr = true -> pr_start pr = None ->
   startedFails (pr_host pr) (pr_startedX pr) = true ->
   In PKill (snd r) /\ In PTriggerFailure (snd r) /\
   count isUnmount (snd r) = 1%nat /\
   exists e, snd (fst r) = Returns (Some e)) /\
  (reachesStart errText c job pr = true -> pr_start pr = None ->
   startedFails (pr_host pr) (pr_startedX pr) = false ->
   waitFailed w = true ->
   snd (fst r) = Panics).
Proof.
  intros r. subst r.
  destruct (Execute_counts compress errText key recsAfterFailure TrimSpace
                           envOverride ErrMustReserve c job h shell pr pe evs w)
    as (_ & _ & Hu & _ & _ & Hr).
  fold Exec in Hu, Hr.
  split; [exact Hr|].
  pose proof (Execute_stage compress errText key recsAfterFailure TrimSpace
                            envOverride ErrMustReserve c job h shell pr pe evs w)
    as Hstage.
  fold Exec in Hstage.
  pose proof (startAndRun_counts compress errText key recsAfterFailure TrimSpace
                c (jobAtStart job pr) h shell (actualCwdOf job pr)
                (tmpDirOf job pr) (workDir job pr)
                (cmdEnv envOverride job (actualCwdOf job pr) (tmpDirOf job pr)
                        (fst (pr_env pr))) pr pe evs w)
    as (_ & _ & _ & _ & _ & _ & Hk).
  pose proof (startAndRun_stage compress errText key recsAfterFailure TrimSpace
                c (jobAtStart job pr) h shell (actualCwdOf job pr)
                (tmpDirOf job pr) (workDir job pr)
                (cmdEnv envOverride job (actualCwdOf job pr) (tmpDirOf job pr)
                        (fst (pr_env pr))) pr pe evs w)
    as Hret.
  cbv zeta in Hk, Hret.
  split.
  - intros Hs Hst Hf.
    rewrite Hs in Hstage. destruct Hstage as (pre & _ & Heq).
    rewrite Hst, Hf in Hret. cbn [is_nil negb andb] in Hret.
    destruct (Hk Hst Hf) as [Hkill Htrig].
    rewrite Hu, Heq.
    unfold skipsUnmount. rewrite Hf. cbn [negb andb].
    rewrite andb_false_r. cbn [andb]. rewrite andb_false_r. cbn [negb].
    rewrite andb_true_r.
    unfold reachesStart in Hs.
    apply andb_prop in Hs. destruct Hs as [Hs _].
    rewrite Hs. cbn [b2n].
    destruct (startAndRun compress errText key recsAfterFailure TrimSpace
                c (jobAtStart job pr) h shell (actualCwdOf job pr)
                (tmpDirOf job pr) (workDir job pr)
                (cmdEnv envOverride job (actualCwdOf job pr) (tmpDirOf job pr)
                        (fst (pr_env pr))) pr pe evs w)
      as [[[j1 h1] ret] tr].
    cbn [prepend fst snd] in *.
    split; [apply in_or_app; right; exact Hkill|].
    split; [apply in_or_app; right; exact Htrig|].
    split; [reflexivity | exact Hret].
  - intros Hs Hst Hf Hw.
    rewrite Hs in Hstage. destruct Hstage as (pre & _ & Heq).
    rewrite Hst, Hf in Hret. cbn [is_nil negb andb] in Hret.
    destruct Hret as (_ & Hend & _).
    rewrite Heq.
    destruct (startAndRun compress errText key recsAfterFailure TrimSpace
                c (jobAtStart job pr) h shell (actualCwdOf job pr)
                (tmpDirOf job pr) (workDir job pr)
                (cmdEnv envOverride job (actualCwdOf job pr) (tmpDirOf job pr)
                        (fst (pr_env pr))) pr pe evs w)
      as [[[j1 h1] ret] tr].
    cbn [prepend fst snd] in *. rewrite Hend.
    destruct w as [po | e]; [discriminate|].
    unfold ExecuteLaunched.
    destruct (peakmem _ =? 0); reflexivity.
Qed.

(** X16: Execute returns no error only if the job was reserved by this
    client and the pipes, the working directory, the mount, the
    environment, the start of the command and Started all worked, and the
    wait for the command collected its exit. *)
Theorem Execute_nil_only_after_start
        (c : Client) (job : Job) (h : HostInfo) (shell : string)
        (pr : PreEnv) (pe : ProcEnv) (evs : list SupEvent) (w : Waited) :
  snd (fst (Exec c job h shell pr pe evs w)) = Returns None ->
  N.eqb (clientid c) (ReservedBy job) = true /\
  pr_stderrPipe pr = None /\ pr_stdoutPipe pr = None /\
  pr_cwdIsDir pr = true /\
  (CwdMatters job = false -> snd (pr_hashedDir pr) = None) /\
  mountError errText pr = None /\ snd (pr_env pr) = None /\
  pr_start pr = None /\
  snd (hp_ip (pr_host pr)) = None /\ exchangeOk (pr_startedX pr) = true /\
  waitFailed w = false.
Proof.
  intros Hnil.
  pose proof (Execute_stage compress errText key recsAfterFailure TrimSpace
                            envOverride ErrMustReserve c job h shell pr pe evs w)
    as Hstage.
  fold Exec in Hstage.
  destruct (reachesStart errText c job pr) eqn:Hs;
    [|destruct Hstage as [e He]; congruence].
  destruct Hstage as (pre & _ & Heq).
  pose proof (startAndRun_stage compress errText key recsAfterFailure TrimSpace
                c (jobAtStart job pr) h shell (actualCwdOf job pr)
                (tmpDirOf job pr) (workDir job pr)
                (cmdEnv envOverride job (actualCwdOf job pr) (tmpDirOf job pr)
                        (fst (pr_env pr))) pr pe evs w)
    as Hret.
  cbv zeta in Hret. rewrite Heq in Hnil.
  destruct (startAndRun compress errText key recsAfterFailure TrimSpace
              c (jobAtStart job pr) h shell (actualCwdOf job pr)
              (tmpDirOf job pr) (workDir job pr)
              (cmdEnv envOverride job (actualCwdOf job pr) (tmpDirOf job pr)
                      (fst (pr_env pr))) pr pe evs w)
    as [[[j1 h1] ret] tr].
  cbn [prepend fst snd] in *.
  destruct (is_nil (pr_start pr)
            && negb (startedFails (pr_host pr) (pr_startedX pr))) eqn:Hok;
    [|destruct Hret as [e He]; congruence].
  destruct Hret as (_ & Hend & _).
  assert (Hw : waitFailed w = false).
  { destruct w as [po | e]; [reflexivity|].
    rewrite Hnil in Hend. unfold ExecuteLaunched in Hend.
    destruct (peakmem _ =? 0) in Hend; discriminate. }
  apply andb_prop in Hok. destruct Hok as [Hstart Hstarted].
  unfold reachesStart, reachesMount in Hs.
  repeat (apply andb_prop in Hs; destruct Hs as [Hs ?]).
  unfold startedFails in Hstarted.
  apply negb_true_iff in Hstarted. apply orb_false_iff in Hstarted.
  destruct Hstarted as [Hip Hx].
  apply negb_false_iff in Hip. apply negb_false_iff in Hx.
  assert (Hnone : forall o : option error, is_nil o = true -> o = None)
    by (intros [e|]; [discriminate | reflexivity]).
  repeat split; try (apply Hnone; assumption); try assumption.
  intros Hcm. apply Hnone. rewrite Hcm in *. assumption.
Qed.


End ExecuteProperties.

Lemma Execute_starts_command_once_witness :
  let tr := snd (Execute storeCompress plainText cmdKey sameRecs idTrim
                         prependEnv "must reserve" sampleClient
                         (inPlaceJob "zcat in.gz | wc -l") noHost "/bin/bash"
                         quietPre quietProc (overrunEvents 1000)
                         (Collected overrunPost)) in
  In (PStart ["/bin/bash"; "-c"; "set -o pipefail; zcat in.gz | wc -l"]%string
             "/data/run1" ["PATH=/bin"; "HOME=/home/u"]%string) tr /\
  count isStart tr = 1%nat.
Proof.
  intros tr.
  assert (Hin : In (PStart ["/bin/bash"; "-c";
                            "set -o pipefail; zcat in.gz | wc -l"]%string
                           "/data/run1" ["PATH=/bin"; "HOME=/home/u"]%string) tr)
    by (vm_compute; auto).
  split; [exact Hin|].
  exact (proj1 (Execute_starts_command_once storeCompress plainText cmdKey
                  sameRecs idTrim prependEnv "must reserve" sampleClient
                  (inPlaceJob "zcat in.gz | wc -l") noHost "/bin/bash"
                  quietPre quietProc (overrunEvents 1000)
                  (Collected overrunPost))).
Defined.

Lemma Execute_unmounts_what_it_mounted_witness :
  waitFailed (Collected overrunPost) = false /\
  count isUnmount
        (snd (Execute storeCompress plainText cmdKey sameRecs idTrim
                      prependEnv "must reserve" sampleClient
                      (sampleJob "sleep 3; exit 0") noHost "/bin/bash"
                      remountPre quietProc (overrunEvents 1000)
                      (Collected overrunPost)))
  = 1%nat /\
  count isUnmount
        (snd (Execute storeCompress plainText cmdKey sameRecs idTrim
                      prependEnv "must reserve" sampleClient
                      (sampleJob "sleep 3; exit 0") noHost "/bin/bash"
                      remountPre quietProc [] lostChild))
  = 0%nat.
Proof.
  split; [reflexivity|]. split.
  - exact (proj1 (proj2 (Execute_unmounts_what_it_mounted storeCompress plainText
                           cmdKey sameRecs idTrim prependEnv "must reserve"
                           sampleClient (sampleJob "sleep 3; exit 0") noHost
                           "/bin/bash" remountPre quietProc (overrunEvents 1000)
                           (Collected overrunPost)))
                 eq_refl).
  - exact (proj1 (Execute_unmounts_what_it_mounted storeCompress plainText
                    cmdKey sameRecs idTrim prependEnv "must reserve"
                    sampleClient (sampleJob "sleep 3; exit 0") noHost
                    "/bin/bash" remountPre quietProc [] lostChild)).
Defined.

Lemma Execute_deferred_cleanup_witness :
  let tr := snd (Execute storeCompress plainText cmdKey sameRecs idTrim
                         prependEnv "must reserve" sampleClient
                         (sampleJob "sleep 3; exit 0") noHost "/bin/bash"
                         quietPre quietProc (overrunEvents 1000)
                         (Collected overrunPost)) in
  In (PRemoveAll "/tmp/a/b/c/key/tmp") tr /\
  "/tmp/a/b/c/key/tmp"%string = snd (fst (pr_hashedDir quietPre)).
Proof.
  intros tr.
  assert (Hin : In (PRemoveAll "/tmp/a/b/c/key/tmp") tr) by (vm_compute; auto 20).
  split; [exact Hin|].
  exact (proj1 (proj2 (proj2 (proj2 (proj2
           (Execute_deferred_cleanup storeCompress plainText cmdKey
              sameRecs idTrim prependEnv "must reserve" sampleClient
              (sampleJob "sleep 3; exit 0") noHost "/bin/bash"
              quietPre quietProc (overrunEvents 1000) (Collected overrunPost))))
           "/tmp/a/b/c/key/tmp"%string Hin))).
Defined.

Lemma Execute_unreported_job_witness :
  let r := Execute storeCompress plainText cmdKey sameRecs idTrim
                   prependEnv "must reserve" sampleClient
                   (sampleJob "sleep 3; exit 0") noHost "/bin/bash"
                   deafPre quietProc (overrunEvents 1000)
                   (Collected overrunPost) in
  let r' := Execute storeCompress plainText cmdKey sameRecs idTrim
                    prependEnv "must reserve" sampleClient
                    (sampleJob "sleep 3; exit 0") noHost "/bin/bash"
                    quietPre quietProc (overrunEvents 1000) lostChild in
  reachesStart plainText sampleClient (sampleJob "sleep 3; exit 0") deafPre
  = true /\
  In PKill (snd r) /\ (exists e, snd (fst r) = Returns (Some e)) /\
  snd (fst r') = Panics.
Proof.
  intros r r'.
  split; [reflexivity|].
  destruct (proj1 (proj2 (Execute_unreported_job storeCompress plainText cmdKey
                     sameRecs idTrim prependEnv "must reserve" sampleClient
                     (sampleJob "sleep 3; exit 0") noHost "/bin/bash"
                     deafPre quietProc (overrunEvents 1000)
                     (Collected overrunPost)))
                  eq_refl eq_refl eq_refl)
    as (Hk & _ & _ & Hr).
  split; [exact Hk|]. split; [exact Hr|].
  exact (proj2 (proj2 (Execute_unreported_job storeCompress plainText cmdKey
                     sameRecs idTrim prependEnv "must reserve" sampleClient
                     (sampleJob "sleep 3; exit 0") noHost "/bin/bash"
                     quietPre quietProc (overrunEvents 1000) lostChild))
               eq_refl eq_refl eq_refl eq_refl).
Defined.

Lemma Execute_nil_only_after_start_witness :
  snd (fst (Execute storeCompress plainText cmdKey sameRecs idTrim
                    prependEnv "must reserve" sampleClient
                    (sampleJob "sleep 3; exit 0") noHost "/bin/bash"
                    remountPre quietProc (overrunEvents 1000)
                    (Collected overrunPost)))
  = Returns None /\
  mountError plainText remountPre = None.
Proof.
  assert (Hnil : snd (fst (Execute storeCompress plainText cmdKey sameRecs idTrim
                             prependEnv "must reserve" sampleClient
                             (sampleJob "sleep 3; exit 0") noHost "/bin/bash"
                             remountPre quietProc (overrunEvents 1000)
                             (Collected overrunPost))) = Returns None)
    by reflexivity.
  split; [exact Hnil|].
  destruct (Execute_nil_only_after_start storeCompress plainText cmdKey
              sameRecs idTrim prependEnv "must reserve" sampleClient
              (sampleJob "sleep 3; exit 0") noHost "/bin/bash"
              remountPre quietProc (overrunEvents 1000) (Collected overrunPost)
              Hnil)
    as (_ & _ & _ & _ & _ & Hm & _).
  exact Hm.
Defined.


(* ===================================================================== *)
(** ** Started *)

(** X18: Started returns an error exactly when the host's IP could not be
    found or the exchange with the server failed.  A failing os.Hostname
    is tolerated: the host is then "localhost".  When the IP cannot be
    found the error is CurrentIP's and Pid, Attempts and StartTime stay as
    they were, though Host and HostIP have been written; once the IP is
    known, the Pid is set (nothing else of the job changes), Attempts is
    incremented and StartTime is set, whether or not the server can be
    reached. *)
Theorem Started_outcome
        (key : Job -> string) (c : Client) (job : Job) (h : HostInfo) (pid : Z)
        (hp : HostProbe) (x : Exchange) :
  let r := Started key c job h pid hp x in
  let job' := fst (fst r) in
  let h' := snd (fst r) in
  (snd r = None <-> snd (hp_ip hp) = None /\ exchangeOk x = true) /\
  Host h' = (if is_nil (snd (hp_hostname hp)) then fst (hp_hostname hp)
             else "localhost"%string) /\
  HostIP h' = fst (hp_ip hp) /\
  (if is_nil (snd (hp_ip hp))
   then job' = setPid pid job /\ Attempts h' = Attempts h + 1 /\
        StartTime h' = hp_now hp
   else job' = job /\ Attempts h' = Attempts h /\ StartTime h' = StartTime h /\
        snd r = snd (hp_ip hp)).
Proof.
  intros r job' h'. subst r job' h'. unfold Started.
  destruct (hp_hostname hp) as [host [eh|]];
    destruct (hp_ip hp) as [ip [e|]]; cbn [fst snd is_nil];
      try (split; [split; [discriminate | intros [H _]; discriminate]|];
           repeat split);
      (split; [|repeat split]);
      destruct x as [e|e|e|e|sr]; cbn;
        try (split; [discriminate | intros [_ H]; discriminate]);
        destruct (sr_Err sr =? "")%string; cbn;
          (split; [auto; discriminate | intros [_ H]; (reflexivity || discriminate)]).
Qed.

(* ===================================================================== *)
(** ** Connect and BackupDB *)

Lemma append_tmp_differs (path : string) : (path ++ ".tmp")%string <> path.
Proof.
  intros H. apply (f_equal String.length) in H.
  rewrite StringsFacts.length_append in H. simpl in H. lia.
Qed.

Ltac conn_done :=
  repeat match goal with
         | |- _ /\ _ => split
         | |- _ <-> _ => split
         | |- forall _, _ => intro
         | H : _ /\ _ |- _ => destruct H
         | H : _ \/ _ |- _ => destruct H
         | H : False |- _ => destruct H
         | H : In _ (_ ++ _) |- _ => apply in_app_or in H
         | H : In _ (_ :: _) |- _ => cbn [In] in H
         | H : In _ [] |- _ => destruct H
         | |- In CClose (_ ++ _) => apply in_or_app; right; simpl
         end;
  try discriminate; try congruence;
  try (eexists; (reflexivity || (split; [reflexivity | auto])));
  auto.

Section ConnectingFacts.

Variable errText : error -> string.
Variable key : Job -> string.
Variable ServerInfo : Type.
Variable SInfo : serverResponse -> option ServerInfo.
Variable DB : serverResponse -> bytes.
Variable ErrNoServer : string.
Variable ErrPermissionDenied : string.

Let Conn := Connect key ServerInfo SInfo ErrNoServer ErrPermissionDenied.

(** X19: Connect returns no error exactly when the socket could be made,
    set up and dialled, the client id could be drawn and the server
    answered the ping without an error; an unreadable CA file is not an
    error (the server is then dialled without root CAs, and with the
    file's content as root CAs otherwise).  The client it returns then carries
    the given token and the drawn id and has not reserved.  The socket is
    closed exactly when the ping failed; when that Close fails too, a
    client is returned together with the error, which is the only case in
    which both are non-nil.  Otherwise a failed ping is reported as
    Error{"Connect", "", msg}. *)
Theorem Connect_outcome
        (addr caFile certDomain : string) (tok : bytes) (timeout : Duration)
        (ce : ConnEnv) :
  let r := Conn addr caFile certDomain tok timeout ce in
  let cl := fst (fst r) in
  let err := snd (fst r) in
  let pinged := is_nil (ce_newSocket ce) && is_nil (ce_maxRecv ce)
                && is_nil (ce_deadline ce) && is_nil (ce_dial ce)
                && is_nil (snd (ce_uuid ce)) in
  (err = None <-> pinged = true /\ exchangeOk (ce_ping ce) = true) /\
  (err = None ->
   exists si, cl = Some ({| clientid := fst (ce_uuid ce); hasReserved := false;
                            token := tok |}, si)) /\
  (In CClose (snd r) <-> pinged = true /\ exchangeOk (ce_ping ce) = false) /\
  (cl <> None /\ err <> None <->
   pinged = true /\ exchangeOk (ce_ping ce) = false /\ ce_close ce <> None) /\
  (pinged = true -> exchangeOk (ce_ping ce) = false -> ce_close ce = None ->
   exists msg, err = Some (Error "Connect" "" msg) /\
               (msg = ErrNoServer \/ msg = ErrPermissionDenied)) /\
  (forall url serverName rootCAs,
      In (CDial url serverName rootCAs) (snd r) ->
      url = ("tls+tcp://" ++ addr)%string /\ serverName = certDomain /\
      rootCAs = match snd (ce_readCA ce) with
                | None => Some (fst (ce_readCA ce))
                | Some _ => None
                end).
Proof.
  intros r cl err pinged. subst r cl err pinged. unfold Conn, Connect, Ping.
  destruct (ce_newSocket ce) as [e|]; cbn [is_nil andb fst snd];
    [conn_done|].
  destruct (ce_maxRecv ce) as [e|]; cbn [is_nil andb fst snd];
    [conn_done|].
  destruct (ce_deadline ce) as [e|]; cbn [is_nil andb fst snd];
    [conn_done|].
  destruct (ce_dial ce) as [e|]; cbn [is_nil andb fst snd];
    [conn_done|].
  destruct (ce_uuid ce) as [u [e|]]; cbn [is_nil andb fst snd];
    [conn_done|].
  destruct (ce_ping ce) as [e|e|e|e|sr]; cbn [request snd exchangeOk];
    try (destruct (sr_Err sr =? "")%string eqn:Herr; cbn [negb]);
    try (destruct (ce_close ce) as [errc|] eqn:Hclose); cbn [fst snd];
    try (destruct e as [t | f a | op it reason]);
    try (destruct (reason =? ErrPermissionDenied)%string);
    try (destruct (sr_Err sr =? ErrPermissionDenied)%string);
    conn_done.
Qed.

(** X20: BackupDB never writes to the given path itself: the database is
    written to path.tmp and moved over.  So when BackupDB returns an error
    what was under the path is still there, when it returns none the path
    holds the database the server sent and path.tmp is gone, and no other
    path is changed in either case.  After a failed write path.tmp is
    removed, unless the removal fails as well. *)
Theorem BackupDB_atomic
        (c : Client) (path : string) (be : BackupEnv) (fs : FS) :
  let r := BackupDB errText key DB c path be fs in
  let tmp := (path ++ ".tmp")%string in
  (forall q, q <> path -> q <> tmp -> fst r q = fs q) /\
  (snd r <> None -> fst r path = fs path) /\
  (snd r = None ->
   exists resp, bk_net be = Decoded resp /\
                fst r path = Some (DB resp) /\ fst r tmp = None) /\
  (bk_write be <> None -> bk_remove be = None -> exchangeOk (bk_net be) = true ->
   fst r tmp = None).
Proof.
  intros r tmp. subst r tmp. unfold BackupDB.
  pose proof (append_tmp_differs path) as Hne.
  assert (Hpt : (path =? path ++ ".tmp")%string = false)
    by (apply String.eqb_neq; congruence).
  destruct (bk_net be) as [e|e|e|e|sr]; cbn [request snd exchangeOk];
    try (repeat split; try discriminate; auto; fail).
  destruct (sr_Err sr =? "")%string eqn:Herr; cbn [negb];
    [|repeat split; try discriminate; auto].
  destruct (bk_write be) as [[e partial]|].
  - destruct (bk_remove be) as [rerr|]; cbn [fst snd].
    + split.
      { intros q Hq Hqt. unfold writeAt.
        apply String.eqb_neq in Hqt. rewrite Hqt. reflexivity. }
      split; [intros _; unfold writeAt; rewrite Hpt; reflexivity|].
      split; [discriminate|]. intros _ H. discriminate.
    + split.
      { intros q Hq Hqt. unfold writeAt.
        apply String.eqb_neq in Hqt. rewrite Hqt. reflexivity. }
      split; [intros _; unfold writeAt; rewrite Hpt; reflexivity|].
      split; [discriminate|]. intros _ _ _.
      unfold writeAt. rewrite String.eqb_refl. reflexivity.
  - destruct (bk_rename be) as [e|]; cbn [fst snd].
    + split.
      { intros q Hq Hqt. unfold writeAt.
        apply String.eqb_neq in Hqt. rewrite Hqt. reflexivity. }
      split; [intros _; unfold writeAt; rewrite Hpt; reflexivity|].
      split; [discriminate|]. intros H. congruence.
    + split.
      { intros q Hq Hqt. unfold writeAt.
        apply String.eqb_neq in Hq. apply String.eqb_neq in Hqt.
        rewrite Hq, Hqt. reflexivity. }
      split; [intros H; congruence|].
      split; [|intros H; congruence].
      intros _. exists sr. split; [reflexivity|].
      unfold writeAt. rewrite !String.eqb_refl.
      assert (Htp : (path ++ ".tmp" =? path)%string = false)
        by (apply String.eqb_neq; exact Hne).
      rewrite Htp. split; reflexivity.
Qed.

End ConnectingFacts.

Lemma Connect_outcome_witness :
  let r := Connect cmdKey unit noInfo "no server" "permission denied"
                   "localhost:1234" "ca.pem" "localhost" [Byte.x2a] 5000000000
                   quietConn in
  snd (fst r) = None /\
  exists si, fst (fst r) = Some ({| clientid := 7%N; hasReserved := false;
                                    token := [Byte.x2a] |}, si).
Proof.
  intros r.
  assert (Hnil : snd (fst r) = None) by reflexivity.
  split; [exact Hnil|].
  exact (proj1 (proj2 (Connect_outcome cmdKey unit noInfo "no server"
                         "permission denied" "localhost:1234" "ca.pem"
                         "localhost" [Byte.x2a] 5000000000 quietConn)) Hnil).
Defined.

Lemma BackupDB_atomic_witness :
  let r := BackupDB plainText cmdKey dbOf sampleClient "/backup/db" fullDisk
                    oldBackup in
  snd r <> None /\ fst r "/backup/db"%string = Some [Byte.xff] /\
  fst r "/backup/db.tmp"%string = None.
Proof.
  intros r.
  assert (Herr : snd r <> None) by discriminate.
  split; [exact Herr|].
  destruct (BackupDB_atomic plainText cmdKey dbOf sampleClient "/backup/db"
                            fullDisk oldBackup)
    as (_ & Hkeep & _ & Hgone).
  split.
  - exact (Hkeep Herr).
  - apply Hgone; [discriminate | reflexivity | reflexivity].
Defined.

(* ===================================================================== *)
(** * minfys *)

Module MinfysFacts.
Import Minfys.

Lemma put_same {A : Type} (k : string) (v : A) (m : smap A) :
  put k v m k = Some v.
Proof. unfold put. rewrite String.eqb_refl. reflexivity. Qed.

Lemma put_other {A : Type} (k q : string) (v : A) (m : smap A) :
  q <> k -> put k v m q = m q.
Proof. intros H. unfold put. apply String.eqb_neq in H. rewrite H. reflexivity. Qed.

Lemma put_not_None {A : Type} (k q : string) (v : A) (m : smap A) :
  m q <> None -> put k v m q <> None.
Proof. unfold put. destruct (q =? k)%string; [discriminate | auto]. Qed.

Lemma extends_refl (fs : MinFys) : extends fs fs.
Proof. unfold extends. repeat split; auto. Qed.

Lemma extends_trans (a b c : MinFys) : extends a b -> extends b c -> extends a c.
Proof.
  unfold extends.
  intros (A1 & A2 & A3 & A4 & A5 & A6 & A7 & A8 & A9 & A10 & A11 & A12)
         (B1 & B2 & B3 & B4 & B5 & B6 & B7 & B8 & B9 & B10 & B11 & B12).
  repeat split; try congruence; auto.
Qed.

Lemma extends_setDir (k : string) (fs : MinFys) : extends fs (setDir k fs).
Proof.
  unfold extends, setDir, isDirCached. cbn.
  repeat split; auto.
  - intros q. unfold put. destruct (q =? k)%string; auto.
  - intros q. apply put_not_None.
Qed.

Lemma extends_setFile (k : string) (a : Attr) (fs : MinFys) :
  extends fs (setFile k a fs).
Proof.
  unfold extends, setFile, isDirCached. cbn.
  repeat split; auto.
  - intros q. apply put_not_None.
  - intros q. unfold put. destruct (q =? k)%string; [discriminate | auto].
Qed.

Lemma extends_setDirContents (k : string) (es : list DirEntry) (fs : MinFys) :
  extends fs (setDirContents k es fs).
Proof.
  unfold extends, setDirContents, isDirCached. cbn.
  repeat split; auto.
  intros q. apply put_not_None.
Qed.

Section MethodsFacts.

Variable Join : string -> string -> string.
Variable Dir : string -> string.
Variable remote : nat -> string -> list ObjectInfo.

Let passL := pass Join.
Let loop := attemptLoop Join remote.

(** One pass over a listing only adds to what is known of directories and
    files and leaves the cached contents alone; [isDir] is set, and
    [entries] is not empty, exactly when an entry was seen on this or an
    earlier pass, and as long as none was the file system is untouched. *)
Lemma pass_spec (name fullPath : string) (objs : list ObjectInfo)
      (fs : MinFys) (entries : list DirEntry) (isDir : bool) :
  let r := passL name fullPath objs fs entries isDir in
  let fs' := snd (fst (fst r)) in
  let entries' := snd (fst r) in
  let isDir' := snd r in
  extends fs fs' /\ dirContents fs' = dirContents fs /\
  (isDir = true -> isDir' = true) /\
  (isDir' = false -> fs' = fs /\ entries' = entries) /\
  ((isDir = true -> entries <> []) -> isDir' = true -> entries' <> []).
Proof.
  unfold passL. revert fs entries isDir.
  induction objs as [|o rest IH]; intros fs entries isDir; cbn [pass].
  - cbn. repeat split; auto using extends_refl.
  - destruct (o_Err o) as [e|].
    { cbn. repeat split; auto using extends_refl. }
    destruct (o_Key o =? name)%string; [apply IH|].
    destruct (String.length (o_Key o) <? String.length fullPath)%nat.
    { cbn. repeat split; auto using extends_refl. }
    assert (Happ : forall d : DirEntry, entries ++ [d] <> [])
      by (intros d H; destruct entries; discriminate).
    destruct (HasSuffix _ "/").
    + match goal with
      | |- context [pass Join name fullPath rest ?f ?es true] =>
          specialize (IH f es true)
      end.
      cbv zeta in IH. destruct IH as (I1 & I2 & I3 & I4 & I5).
      rewrite (I3 eq_refl) in *.
      split; [eapply extends_trans; [apply extends_setDir | exact I1]|].
      split; [rewrite I2; reflexivity|].
      split; [reflexivity|]. split; [discriminate|].
      intros _ _. apply I5; auto.
    + match goal with
      | |- context [pass Join name fullPath rest ?f ?es true] =>
          specialize (IH f es true)
      end.
      cbv zeta in IH. destruct IH as (I1 & I2 & I3 & I4 & I5).
      rewrite (I3 eq_refl) in *.
      split; [eapply extends_trans; [apply extends_setFile | exact I1]|].
      split; [rewrite I2; reflexivity|].
      split; [reflexivity|]. split; [discriminate|].
      intros _ _. apply I5; auto.
Qed.

(** What the loop of openDir returns, for fuel that covers the attempts
    left. *)
Lemma attemptLoop_spec (name fullPath : string) (fuel : nat) :
  forall (attempts : Z) (fs : MinFys) (calls : nat) (entries : list DirEntry)
         (isDir : bool),
    (1 <= fuel)%nat -> maxAttempts fs - attempts <= Z.of_nat fuel ->
    (isDir = true -> entries <> []) ->
    (isDir = false -> entries = []) ->
    let r := loop fuel name fullPath attempts fs calls entries isDir in
    let fs' := snd (fst r) in
    let calls' := snd r in
    extends fs fs' /\
    (calls < calls')%nat /\
    Z.of_nat (calls' - calls) <= Z.max 1 (maxAttempts fs - attempts) /\
    match fst (fst r) with
    | Ret (es, OK) =>
        isDirCached fs' name = true /\ dirContents fs' name = Some es /\
        es <> [] /\
        (forall k, k <> name -> dirContents fs' k = dirContents fs k)
    | Ret (es, ENOENT) =>
        es = [] /\ fs' = fs /\ isDir = false
    | Ret (es, EIO) =>
        dirContents fs' = dirContents fs /\
        Z.max 1 (maxAttempts fs - attempts) <= Z.of_nat (calls' - calls) /\
        exists o e, In o (remote (calls' - 1) fullPath) /\ o_Err o = Some e
    | Ret (_, Errno _) => False
    | Panic => True
    | OutOfFuel => False
    end.
Proof.
  unfold loop.
  induction fuel as [|fuel IH]; intros attempts fs calls entries isDir Hf Hm He1 He2;
    [lia|].
  cbn [attemptLoop].
  pose proof (pass_spec name fullPath (remote calls fullPath) fs entries isDir)
    as Hp.
  unfold passL in Hp. cbv zeta in Hp.
  assert (Herr : forall e, fst (fst (fst (pass Join name fullPath
                                               (remote calls fullPath) fs entries
                                               isDir))) = PassErr e ->
                           exists o, In o (remote calls fullPath) /\
                                     o_Err o = Some e).
  { clear. revert fs entries isDir.
    induction (remote calls fullPath) as [|o rest IHr]; intros fs entries isDir e;
      cbn [pass]; [discriminate|].
    destruct (o_Err o) as [e0|] eqn:Ho.
    - cbn. intros [= <-]. exists o. split; [left; reflexivity | exact Ho].
    - destruct (o_Key o =? name)%string.
      { intros H. destruct (IHr _ _ _ _ H) as (o' & Hin & Ho').
        exists o'. split; [right; exact Hin | exact Ho']. }
      destruct (String.length (o_Key o) <? String.length fullPath)%nat;
        [discriminate|].
      destruct (HasSuffix _ "/"); intros H;
        destruct (IHr _ _ _ _ H) as (o' & Hin & Ho');
        exists o'; (split; [right; exact Hin | exact Ho']). }
  destruct (pass Join name fullPath (remote calls fullPath) fs entries isDir)
    as [[[pe fs1] es1] isDir1].
  cbn [fst snd] in Hp, Herr.
  destruct Hp as (Hext & Hdc & Hkeep & Hnone & Hsome).
  assert (Hmax : maxAttempts fs1 = maxAttempts fs) by apply Hext.
  destruct pe as [|e|].
  - (* the channel was drained *)
    destruct isDir1.
    + cbn [fst snd].
      split.
      { eapply extends_trans; [exact Hext|].
        eapply extends_trans; [apply extends_setDir|].
        apply extends_setDirContents. }
      split; [lia|]. split; [lia|].
      split; [unfold isDirCached; cbn; rewrite put_same; reflexivity|].
      split; [cbn; apply put_same|].
      split; [apply Hsome; auto|].
      intros k Hk. cbn. rewrite put_other by exact Hk. rewrite Hdc. reflexivity.
    + cbn [fst snd]. destruct (Hnone eq_refl) as [-> ->].
      split; [apply extends_refl|]. split; [lia|]. split; [lia|].
      split; [reflexivity|]. split; [reflexivity|].
      destruct isDir; [specialize (Hkeep eq_refl); discriminate | reflexivity].
  - (* an object with an error *)
    rewrite Hmax.
    destruct (attempts + 1 <? maxAttempts fs) eqn:Hlt.
    + apply Z.ltb_lt in Hlt.
      assert (Hes1 : isDir1 = false -> es1 = []).
      { intros H. destruct (Hnone H) as [_ ->]. apply He2.
        destruct isDir; [specialize (Hkeep eq_refl); congruence | reflexivity]. }
      specialize (IH (attempts + 1) fs1 (S calls) es1 isDir1
                     ltac:(lia) ltac:(lia) (Hsome He1) Hes1).
      cbv zeta in IH.
      destruct (attemptLoop Join remote fuel name fullPath (attempts + 1) fs1
                            (S calls) es1 isDir1) as [[r fs2] calls2].
      cbn [fst snd] in *.
      destruct IH as (Hext2 & Hc & Hn & Hres).
      rewrite Hmax in Hn, Hres.
      split; [eapply extends_trans; eassumption|].
      split; [lia|]. split; [lia|].
      destruct r as [[es [| | |n]]| |]; try exact Hres.
      * destruct Hres as (R1 & R2 & R3 & R4).
        repeat split; try assumption.
        intros k Hk. rewrite (R4 k Hk), Hdc. reflexivity.
      * destruct Hres as (R1 & R2 & R3). subst fs2 isDir1 es.
        destruct (Hnone eq_refl) as [-> _].
        repeat split.
        destruct isDir; [specialize (Hkeep eq_refl); discriminate | reflexivity].
      * destruct Hres as (R1 & R2 & R3).
        split; [rewrite R1; exact Hdc|]. split; [lia|]. exact R3.
    + apply Z.ltb_ge in Hlt. cbn [fst snd].
      split; [exact Hext|]. split; [lia|]. split; [lia|].
      split; [exact Hdc|]. split; [lia|].
      destruct (Herr e eq_refl) as (o & Hin & Ho).
      exists o, e. replace (S calls - 1)%nat with calls by lia.
      split; assumption.
  - cbn [fst snd]. split; [exact Hext|]. split; [lia|]. split; [lia|]. exact I.
Qed.

Lemma openDir_spec (name : string) (fs : MinFys) (calls : nat) :
  let r := openDir Join remote name fs calls in
  let fs' := snd (fst r) in
  let calls' := snd r in
  extends fs fs' /\
  (calls < calls')%nat /\
  Z.of_nat (calls' - calls) <= Z.max 1 (maxAttempts fs) /\
  match fst (fst r) with
  | Ret (es, OK) =>
      isDirCached fs' name = true /\ dirContents fs' name = Some es /\
      es <> [] /\
      (forall k, k <> name -> dirContents fs' k = dirContents fs k)
  | Ret (es, ENOENT) => es = [] /\ fs' = fs
  | Ret (es, EIO) =>
      dirContents fs' = dirContents fs /\
      Z.of_nat (calls' - calls) = Z.max 1 (maxAttempts fs)
  | Ret (_, Errno _) => False
  | Panic => True
  | OutOfFuel => False
  end.
Proof.
  unfold openDir.
  match goal with
  | |- context [attemptLoop Join remote ?fuel name ?fp 0 fs calls [] false] =>
      pose proof (attemptLoop_spec name fp fuel 0 fs calls [] false
                    ltac:(lia) ltac:(lia) ltac:(discriminate) ltac:(reflexivity))
        as H;
      unfold loop in H; cbv zeta in H;
      destruct (attemptLoop Join remote fuel name fp 0 fs calls [] false)
        as [[r fs'] calls']
  end.
  cbn [fst snd] in *. rewrite Z.sub_0_r in H.
  destruct H as (H1 & H2 & H3 & H4).
  split; [exact H1|]. split; [exact H2|]. split; [exact H3|].
  destruct r as [[es [| | |n]]| |]; try exact H4.
  - destruct H4 as (R1 & R2 & _). split; assumption.
  - destruct H4 as (R1 & R2 & _). split; [exact R1 | lia].
Qed.

Lemma maybeDir_spec (name : string) (fs : MinFys) (calls : nat) :
  let r := maybeDir Join remote name fs calls in
  let fs' := snd (fst r) in
  let calls' := snd r in
  extends fs fs' /\
  (calls <= calls')%nat /\
  Z.of_nat (calls' - calls) <= Z.max 1 (maxAttempts fs) /\
  match fst (fst r) with
  | Ret (attr, OK) => isDirCached fs' name = true /\ attr = dirAttr fs'
  | Ret (attr, ENOENT) | Ret (attr, EIO) => attr = None
  | Ret (_, Errno _) => False
  | Panic => True
  | OutOfFuel => False
  end.
Proof.
  unfold maybeDir.
  pose proof (openDir_spec name fs calls) as H. cbv zeta in H.
  destruct (openDir Join remote name fs calls) as [[r fs'] calls'].
  cbn [fst snd] in *. destruct H as (H1 & H2 & H3 & H4).
  destruct r as [[es [| | |n]]| |]; cbn [fst snd isOK];
    (split; [exact H1|]); (split; [lia|]); (split; [exact H3|]);
    try exact H4; try reflexivity.
  split; [apply H4 | reflexivity].
Qed.

Lemma maybeFile_spec (name : string) (fs : MinFys) (calls : nat) :
  let r := maybeFile Join Dir remote name fs calls in
  let fs' := snd (fst r) in
  let calls' := snd r in
  extends fs fs' /\
  (calls <= calls')%nat /\
  Z.of_nat (calls' - calls) <= Z.max 1 (maxAttempts fs) /\
  match fst (fst r) with
  | Ret (attr, OK) => files fs' name = Some attr /\ attr <> None
  | Ret (attr, ENOENT) => attr = None
  | Ret (_, EIO) | Ret (_, Errno _) => False
  | Panic => True
  | OutOfFuel => False
  end.
Proof.
  unfold maybeFile.
  destruct (dirContents fs name) as [es|].
  { cbn [fst snd]. split; [apply extends_refl|]. split; [lia|]. split; [lia|].
    reflexivity. }
  match goal with
  | |- context [openDir Join remote ?parent fs calls] =>
      pose proof (openDir_spec parent fs calls) as H; cbv zeta in H;
      destruct (openDir Join remote parent fs calls) as [[r fs'] calls']
  end.
  cbn [fst snd] in *. destruct H as (H1 & H2 & H3 & H4).
  destruct r as [[es st]| |]; cbn [fst snd];
    (split; [exact H1|]); (split; [lia|]); (split; [exact H3|]).
  - destruct (files fs' name) as [[a|]|]; cbn.
    + split; [reflexivity | discriminate].
    + reflexivity.
    + reflexivity.
  - exact I.
  - destruct H4.
Qed.

(** What a GetAttr that returned OK leaves in the caches. *)
Definition answered (fs' : MinFys) (name : string) (attr : option Attr) : Prop :=
  (isDirCached fs' name = true /\ attr = dirAttr fs') \/
  files fs' name = Some attr.

Lemma GetAttr_spec (name : string) (fs : MinFys) (calls : nat) :
  let r := GetAttr Join Dir remote name fs calls in
  let fs' := snd (fst r) in
  let calls' := snd r in
  extends fs fs' /\
  (calls <= calls')%nat /\
  Z.of_nat (calls' - calls) <= 2 * Z.max 1 (maxAttempts fs) /\
  ((isDirCached fs name = true \/ files fs name <> None) ->
   calls' = calls /\ fs' = fs /\ exists attr, fst (fst r) = Ret (attr, OK)) /\
  match fst (fst r) with
  | Ret (attr, OK) => answered fs' name attr
  | Ret (attr, ENOENT) | Ret (attr, EIO) => attr = None
  | Ret (_, Errno _) => False
  | Panic => True
  | OutOfFuel => False
  end.
Proof.
  unfold GetAttr, answered.
  destruct (isDirCached fs name) eqn:Hd.
  { cbn [fst snd]. split; [apply extends_refl|]. split; [lia|]. split; [lia|].
    split; [intros _; repeat split; eexists; reflexivity|].
    left. split; [exact Hd | reflexivity]. }
  destruct (files fs name) as [attr|] eqn:Hf.
  { cbn [fst snd]. split; [apply extends_refl|]. split; [lia|]. split; [lia|].
    split; [intros _; repeat split; eexists; reflexivity|].
    right. exact Hf. }
  destruct (Strings.Contains name "."); unfold orElse.
  - pose proof (maybeFile_spec name fs calls) as H1. cbv zeta in H1.
    destruct (maybeFile Join Dir remote name fs calls) as [[r1 fs1] calls1].
    cbn [fst snd] in H1. destruct H1 as (E1 & C1 & N1 & R1).
    assert (Hmax : maxAttempts fs1 = maxAttempts fs) by apply E1.
    destruct r1 as [[attr1 [| | |n]]| |]; cbn [isOK negb fst snd];
      try (destruct R1; fail);
      try (split; [exact E1|]; split; [lia|]; split; [lia|];
           split; [intros [H | H]; congruence|]; try exact I;
           right; apply R1).
    pose proof (maybeDir_spec name fs1 calls1) as H2. cbv zeta in H2.
    destruct (maybeDir Join remote name fs1 calls1) as [[r2 fs2] calls2].
    cbn [fst snd] in *. destruct H2 as (E2 & C2 & N2 & R2).
    rewrite Hmax in N2.
    split; [eapply extends_trans; eassumption|]. split; [lia|]. split; [lia|].
    split; [intros [H | H]; congruence|].
    destruct r2 as [[attr2 [| | |n]]| |]; try exact R2. left. exact R2.
  - pose proof (maybeDir_spec name fs calls) as H1. cbv zeta in H1.
    destruct (maybeDir Join remote name fs calls) as [[r1 fs1] calls1].
    cbn [fst snd] in H1. destruct H1 as (E1 & C1 & N1 & R1).
    assert (Hmax : maxAttempts fs1 = maxAttempts fs) by apply E1.
    destruct r1 as [[attr1 [| | |n]]| |]; cbn [isOK negb fst snd];
      try (destruct R1; fail);
      try (split; [exact E1|]; split; [lia|]; split; [lia|];
           split; [intros [H | H]; congruence|]; try exact I;
           left; exact R1).
    + pose proof (maybeFile_spec name fs1 calls1) as H2. cbv zeta in H2.
      destruct (maybeFile Join Dir remote name fs1 calls1) as [[r2 fs2] calls2].
      cbn [fst snd] in *. destruct H2 as (E2 & C2 & N2 & R2).
      rewrite Hmax in N2.
      split; [eapply extends_trans; eassumption|]. split; [lia|]. split; [lia|].
      split; [intros [H | H]; congruence|].
      destruct r2 as [[attr2 [| | |n]]| |]; try exact R2;
        try (destruct R2; fail). right. apply R2.
    + pose proof (maybeFile_spec name fs1 calls1) as H2. cbv zeta in H2.
      destruct (maybeFile Join Dir remote name fs1 calls1) as [[r2 fs2] calls2].
      cbn [fst snd] in *. destruct H2 as (E2 & C2 & N2 & R2).
      rewrite Hmax in N2.
      split; [eapply extends_trans; eassumption|]. split; [lia|]. split; [lia|].
      split; [intros [H | H]; congruence|].
      destruct r2 as [[attr2 [| | |n]]| |]; try exact R2;
        try (destruct R2; fail). right. apply R2.
Qed.

End MethodsFacts.

End MinfysFacts.

(** X21: openDir ends after at least one and at most max(1, maxAttempts)
    calls of ListObjectsV2 (the fuel of the model is never used up), it
    returns no status other than OK, ENOENT and EIO, and EIO only when all
    the attempts were used. *)
Theorem minfys_openDir_attempts
        (Join : string -> string -> string)
        (remote : nat -> string -> list Minfys.ObjectInfo)
        (name : string) (fs : Minfys.MinFys) (calls : nat) :
  let r := Minfys.openDir Join remote name fs calls in
  let n := Z.of_nat (snd r - calls) in
  fst (fst r) <> Minfys.OutOfFuel /\
  1 <= n <= Z.max 1 (Minfys.maxAttempts fs) /\
  (forall es st, fst (fst r) = Minfys.Ret (es, st) ->
                 st = Minfys.OK \/ st = Minfys.ENOENT \/ st = Minfys.EIO) /\
  (forall es, fst (fst r) = Minfys.Ret (es, Minfys.EIO) ->
              n = Z.max 1 (Minfys.maxAttempts fs)).
Proof.
  intros r n. subst r n.
  pose proof (MinfysFacts.openDir_spec Join remote name fs calls) as H.
  cbv zeta in H.
  destruct (Minfys.openDir Join remote name fs calls) as [[r fs'] calls'].
  cbn [fst snd] in *. destruct H as (H1 & H2 & H3 & H4).
  split; [intros ->; exact H4|]. split; [lia|]. split.
  - intros es st ->. destruct st; auto. destruct H4.
  - intros es ->. apply H4.
Qed.

(** X22: openDir only ever adds to the caches and leaves the configuration
    alone.  When it returns OK the entries it returns are not empty, the
    name is known as a directory and the entries are cached as its
    contents, no other directory's contents being changed; when it returns
    ENOENT it returns no entries and has changed nothing at all; when it
    returns EIO no directory's contents have been cached (though files and
    directories seen before the error have been). *)
Theorem minfys_openDir_caches
        (Join : string -> string -> string)
        (remote : nat -> string -> list Minfys.ObjectInfo)
        (name : string) (fs : Minfys.MinFys) (calls : nat) :
  let r := Minfys.openDir Join remote name fs calls in
  let fs' := snd (fst r) in
  Minfys.extends fs fs' /\
  (forall es, fst (fst r) = Minfys.Ret (es, Minfys.OK) ->
              es <> [] /\ Minfys.isDirCached fs' name = true /\
              Minfys.dirContents fs' name = Some es /\
              forall k, k <> name ->
                        Minfys.dirContents fs' k = Minfys.dirContents fs k) /\
  (forall es, fst (fst r) = Minfys.Ret (es, Minfys.ENOENT) ->
              es = [] /\ fs' = fs) /\
  (forall es, fst (fst r) = Minfys.Ret (es, Minfys.EIO) ->
              Minfys.dirContents fs' = Minfys.dirContents fs).
Proof.
  intros r fs'. subst r fs'.
  pose proof (MinfysFacts.openDir_spec Join remote name fs calls) as H.
  cbv zeta in H.
  destruct (Minfys.openDir Join remote name fs calls) as [[r fs'] calls'].
  cbn [fst snd] in *. destruct H as (H1 & H2 & H3 & H4).
  split; [exact H1|]. split; [|split].
  - intros es ->. destruct H4 as (R1 & R2 & R3 & R4). auto.
  - intros es ->. exact H4.
  - intros es ->. apply H4.
Qed.

(** X23: an OpenDir that returned OK is answered from the cache the next
    time: called again on the file system it left, it returns the same
    entries, calls ListObjectsV2 no more and changes nothing. *)
Theorem minfys_OpenDir_cached
        (Join : string -> string -> string)
        (remote : nat -> string -> list Minfys.ObjectInfo)
        (name : string) (fs : Minfys.MinFys) (calls : nat)
        (es : list Minfys.DirEntry) :
  let r := Minfys.OpenDir Join remote name fs calls in
  fst (fst r) = Minfys.Ret (es, Minfys.OK) ->
  Minfys.OpenDir Join remote name (snd (fst r)) (snd r)
  = (Minfys.Ret (es, Minfys.OK), snd (fst r), snd r).
Proof.
  intros r. subst r. unfold Minfys.OpenDir.
  destruct (Minfys.dirs fs name) as [b|] eqn:Hd; [|discriminate].
  destruct (Minfys.dirContents fs name) as [es0|] eqn:Hc.
  - cbn [fst snd]. intros [= ->]. rewrite Hd, Hc. reflexivity.
  - pose proof (MinfysFacts.openDir_spec Join remote name fs calls) as H.
    cbv zeta in H.
    destruct (Minfys.openDir Join remote name fs calls) as [[r fs'] calls'].
    cbn [fst snd] in *. destruct H as (H1 & H2 & H3 & H4).
    intros ->. destruct H4 as (R1 & R2 & _).
    unfold Minfys.isDirCached in R1.
    destruct (Minfys.dirs fs' name) as [b'|]; [|discriminate].
    rewrite R2. reflexivity.
Qed.

Lemma minfys_OpenDir_cached_witness :
  let r := Minfys.OpenDir Minfys.slashJoin Minfys.flakyRemote "" Minfys.sampleFs 0 in
  snd r = 2%nat /\
  exists es,
    fst (fst r) = Minfys.Ret (es, Minfys.OK) /\
    Minfys.OpenDir Minfys.slashJoin Minfys.flakyRemote "" (snd (fst r)) (snd r)
    = (Minfys.Ret (es, Minfys.OK), snd (fst r), snd r).
Proof.
  intros r. split; [reflexivity|].
  eexists. split; [reflexivity|].
  exact (minfys_OpenDir_cached Minfys.slashJoin Minfys.flakyRemote ""
           Minfys.sampleFs 0 _ eq_refl).
Defined.

(** X24: a GetAttr that returned OK is answered from the cache the next
    time: called again on the file system it left, it returns OK, calls
    ListObjectsV2 no more and changes nothing.  The attributes are those
    returned before, unless the name has been cached both as a file and as
    a directory, in which case the directory's are returned. *)
Theorem minfys_GetAttr_cached
        (Join : string -> string -> string) (Dir : string -> string)
        (remote : nat -> string -> list Minfys.ObjectInfo)
        (name : string) (fs : Minfys.MinFys) (calls : nat)
        (attr : option Minfys.Attr) :
  let r := Minfys.GetAttr Join Dir remote name fs calls in
  fst (fst r) = Minfys.Ret (attr, Minfys.OK) ->
  let fs' := snd (fst r) in
  exists attr2,
    Minfys.GetAttr Join Dir remote name fs' (snd r)
    = (Minfys.Ret (attr2, Minfys.OK), fs', snd r) /\
    attr2 = (if Minfys.isDirCached fs' name then Minfys.dirAttr fs' else attr).
Proof.
  intros r Hr fs'. subst r fs'.
  pose proof (MinfysFacts.GetAttr_spec Join Dir remote name fs calls) as H.
  cbv zeta in H.
  destruct (Minfys.GetAttr Join Dir remote name fs calls) as [[r fs'] calls'].
  cbn [fst snd] in *. destruct H as (_ & _ & _ & _ & H). subst r.
  unfold MinfysFacts.answered in H. unfold Minfys.GetAttr.
  destruct (Minfys.isDirCached fs' name) eqn:Hd.
  - eexists. split; reflexivity.
  - destruct H as [[H _] | H]; [discriminate|].
    rewrite H. eexists. split; reflexivity.
Qed.

Lemma minfys_GetAttr_cached_witness :
  let r := Minfys.GetAttr Minfys.slashJoin Minfys.parentOf Minfys.flakyRemote
                          "data/a.txt" Minfys.sampleFs 0 in
  snd r = 2%nat /\
  exists attr,
    fst (fst r) = Minfys.Ret (Some attr, Minfys.OK) /\
    Minfys.a_Size attr = 12 /\
    exists attr2,
      Minfys.GetAttr Minfys.slashJoin Minfys.parentOf Minfys.flakyRemote
                     "data/a.txt" (snd (fst r)) (snd r)
      = (Minfys.Ret (attr2, Minfys.OK), snd (fst r), snd r).
Proof.
  intros r. split; [reflexivity|].
  eexists. split; [reflexivity|]. split; [reflexivity|].
  destruct (minfys_GetAttr_cached Minfys.slashJoin Minfys.parentOf
              Minfys.flakyRemote "data/a.txt" Minfys.sampleFs 0 _ eq_refl)
    as (attr2 & H & _).
  exists attr2. exact H.
Defined.

(** X25: GetAttr ends after at most 2 * max(1, maxAttempts) calls of
    ListObjectsV2, and after none when the name is already cached as a
    directory or as a file, in which case it returns OK and changes
    nothing.  It only ever adds to the caches, returns no status other
    than OK, ENOENT and EIO, and returns no attributes with a status that
    is not OK. *)
Theorem minfys_GetAttr_bounded
        (Join : string -> string -> string) (Dir : string -> string)
        (remote : nat -> string -> list Minfys.ObjectInfo)
        (name : string) (fs : Minfys.MinFys) (calls : nat) :
  let r := Minfys.GetAttr Join Dir remote name fs calls in
  let fs' := snd (fst r) in
  fst (fst r) <> Minfys.OutOfFuel /\
  Minfys.extends fs fs' /\
  (calls <= snd r)%nat /\
  Z.of_nat (snd r - calls) <= 2 * Z.max 1 (Minfys.maxAttempts fs) /\
  ((Minfys.isDirCached fs name = true \/ Minfys.files fs name <> None) ->
   snd r = calls /\ fs' = fs /\
   exists attr, fst (fst r) = Minfys.Ret (attr, Minfys.OK)) /\
  (forall attr st, fst (fst r) = Minfys.Ret (attr, st) ->
                   st = Minfys.OK \/
                   ((st = Minfys.ENOENT \/ st = Minfys.EIO) /\ attr = None)).
Proof.
  intros r fs'. subst r fs'.
  pose proof (MinfysFacts.GetAttr_spec Join Dir remote name fs calls) as H.
  cbv zeta in H.
  destruct (Minfys.GetAttr Join Dir remote name fs calls) as [[r fs'] calls'].
  cbn [fst snd] in *. destruct H as (H1 & H2 & H3 & H4 & H5).
  split; [intros ->; exact H5|].
  split; [exact H1|]. split; [exact H2|]. split; [exact H3|].
  split; [exact H4|].
  intros attr st ->. destruct st; auto. destruct H5.
Qed.

Ltac open_done :=
  repeat match goal with
         | |- _ /\ _ => split
         | |- forall _, _ => intro
         | H : _ = Minfys.Ret _ |- _ => discriminate H
         | H : _ = true |- _ => discriminate H
         | H : _ = false |- _ => discriminate H
         | H : _ = None |- _ => discriminate H
         | H : Minfys.Ret _ = Minfys.Ret _ |- _ => injection H as <- <-
         | |- exists _, _ => eexists
         | |- Some _ = Some _ => reflexivity
         | |- (_ <= _)%nat => lia
         | |- _ \/ _ =>
             first [ left; split; [reflexivity | congruence]
                   | right; split; [reflexivity|];
                     split; [reflexivity | congruence] ]
         end;
  try discriminate; try reflexivity; try congruence.

(** X26: Open without CacheData touches no local file and hands out an
    S3File for the remote path with the size that was stat'ed.  With
    CacheData it downloads at most once, each download comes right after
    the removal of the local file, and it hands out the local file only
    when os.Open worked and the last os.Stat reported the size that was
    stat'ed for the remote file: the first one when nothing was
    downloaded, the one after the download otherwise.  A name that was
    never stat'ed is ENOENT, nothing being touched. *)
Theorem minfys_Open_outcome
        (Join : string -> string -> string)
        (ToStatus : error -> Minfys.Status)
        (fs : Minfys.MinFys) (name : string) (cv : Minfys.CacheEnv) :
  let r := Minfys.Open Join ToStatus fs name cv in
  let dst := Join (Minfys.cacheDir fs) (Minfys.GetPath Join fs name) in
  (Minfys.downloads (snd r) <= 1)%nat /\
  Minfys.freshDownloads None (snd r) = true /\
  (Minfys.files fs name = None ->
   r = (Minfys.Ret (None, Minfys.ENOENT), [])) /\
  (Minfys.cacheData fs = false ->
   snd r = [] /\
   forall f st, fst r = Minfys.Ret (Some f, st) ->
                st = Minfys.OK /\
                exists info, Minfys.files fs name = Some (Some info) /\
                             f = Minfys.S3File (Minfys.GetPath Join fs name)
                                               (Minfys.a_Size info)) /\
  (Minfys.cacheData fs = true ->
   forall f st, fst r = Minfys.Ret (Some f, st) ->
                st = Minfys.OK /\ f = Minfys.LoopbackFile dst /\
                Minfys.cv_open cv = None /\
                exists info,
                  Minfys.files fs name = Some (Some info) /\
                  ((Minfys.downloads (snd r) = 0%nat /\
                    Minfys.cv_stat1 cv = inl (Minfys.int64 (Minfys.a_Size info))) \/
                   (Minfys.downloads (snd r) = 1%nat /\
                    Minfys.cv_fget cv = None /\
                    Minfys.cv_stat2 cv = inl (Minfys.int64 (Minfys.a_Size info))))).
Proof.
  intros r dst. subst r dst. unfold Minfys.Open, Minfys.openCached.
  destruct (Minfys.files fs name) as [[info|]|] eqn:Hf;
    destruct (Minfys.cacheData fs) eqn:Hc;
    destruct (Minfys.cv_stat1 cv) as [s1|e1] eqn:H1;
    destruct (Minfys.cv_fget cv) as [eg|] eqn:Hg;
    destruct (Minfys.cv_stat2 cv) as [s2|e2] eqn:H2;
    destruct (Minfys.cv_open cv) as [eo|] eqn:Ho;
    try (destruct (Z.eqb_spec s1 (Minfys.int64 (Minfys.a_Size info))));
    try (destruct (Z.eqb_spec s2 (Minfys.int64 (Minfys.a_Size info))));
    cbn [negb fst snd app Minfys.downloads filter List.length
         Minfys.freshDownloads andb];
    rewrite ?String.eqb_refl;
    open_done.
Qed.

Lemma minfys_Open_outcome_witness :
  let r := Minfys.Open Minfys.slashJoin Minfys.eioStatus Minfys.statedFs
                       "data/a.txt" Minfys.staleCache in
  fst r = Minfys.Ret (Some (Minfys.LoopbackFile "/cache/base/data/a.txt"),
                      Minfys.OK) /\
  Minfys.cv_open Minfys.staleCache = None.
Proof.
  intros r.
  assert (Hr : fst r = Minfys.Ret (Some (Minfys.LoopbackFile
                                           "/cache/base/data/a.txt"),
                                   Minfys.OK)) by reflexivity.
  split; [exact Hr|].
  destruct (proj2 (proj2 (proj2 (proj2
             (minfys_Open_outcome Minfys.slashJoin Minfys.eioStatus
                Minfys.statedFs "data/a.txt" Minfys.staleCache))))
             eq_refl _ _ Hr) as (_ & _ & Ho & _).
  exact Ho.
Defined.

(* ===================================================================== *)
(** ** More on Execute, Reserve and request *)

Lemma In_retriesFrom (m : EndCall) (i k : nat) (e : Effect) :
  In e (retriesFrom m i k) -> e = ECall m \/ exists d, e = ESleep d.
Proof.
  unfold retriesFrom. intros H. apply in_flat_map in H.
  destruct H as (n & _ & [<- | [<- | []]]); [left; reflexivity | right; eauto].
Qed.

(** X27: the order of a run.  The supervisory task only kills, touches and
    closes the readers.  When the wait collected the child's exit, the
    behaviours are then triggered once, with success exactly when the wait
    returned nil and neither the kill nor the closing of the readers
    failed; then the job is unmounted; only then is the server told the
    job's fate.  Nothing but end-state calls and sleeps follows, except the
    failure behaviours, which are triggered again only together with an
    error being returned.  When the wait failed, Execute panics: at once if
    peakmem is still 0 (no memory sample above 0 was read), and else after
    it has triggered the failure behaviours and unmounted the job; the
    server is told nothing. *)
Theorem Execute_order_of_steps
        (compress : bytes -> bytes * option error) (errText : error -> string)
        (key : Job -> string) (recsAfterFailure : Job -> scheduler_Requirements)
        (TrimSpace : bytes -> bytes)
        (c : Client) (job : Job) (actualCwd : string) (endT : Z)
        (pe : ProcEnv) (evs : list SupEvent) (w : Waited) :
  let s := supervise key c job endT pe evs supInit in
  let r := ExecuteLaunched compress errText key recsAfterFailure TrimSpace
                           c job actualCwd endT pe evs w in
  Forall supKind (trace s) /\
  match w with
  | Collected po =>
      exists (success : bool) (tail : list Effect),
        snd r = trace s ++ [ETrigger success; EUnmount] ++ tail /\
        (success = true <->
         (exists status, po_exit po = ExitNil status) /\
         killErr s = None /\ closeErr s = None) /\
        (forall e, In e tail ->
                   (exists m, e = ECall m) \/ (exists d, e = ESleep d) \/
                   (e = ETrigger false /\
                    exists err, snd (fst r) = Returns (Some err)))
  | WaitFailed _ =>
      snd (fst r) = Panics /\
      snd r = (if peakmem s =? 0 then trace s
               else trace s ++ [ETrigger false; EUnmount])
  end.
Proof.
  intros s r.
  pose proof (supervise_kinds key c job endT pe evs supInit (Forall_nil _)) as Hk.
  fold s in Hk. split; [exact Hk|].
  assert (Hnil : forall o : option error, is_nil o = true <-> o = None)
    by (intros [e|]; split; (reflexivity || discriminate)).
  destruct w as [po | e0].
  2:{ subst r. unfold ExecuteLaunched. fold s.
      assert (Hf : is_nil (myerr (decided errText key (WaitOther e0) job s))
                   = false).
      { destruct (is_nil (myerr (decided errText key (WaitOther e0) job s)))
          eqn:Hd; [|reflexivity].
        apply Hnil in Hd. unfold decided in Hd. cbn [myerr withMyerr] in Hd.
        rewrite !alsoFailed_nil, classify_myerr_nil in Hd.
        destruct Hd as (_ & _ & status & Hd). discriminate. }
      rewrite Hf. destruct (peakmem s =? 0); split; reflexivity. }
  destruct (ExecuteRun_trace compress errText key recsAfterFailure TrimSpace
              c job actualCwd endT pe evs po) as (m & k & _ & Hcase & _).
  fold s in Hcase.
  assert (Hr : r = (let '(j, ret, tr) :=
                      ExecuteRun compress errText key recsAfterFailure TrimSpace
                                 c job actualCwd endT pe evs po in
                    (j, Returns ret, tr))) by reflexivity.
  assert (Hsuccess :
            is_nil (myerr (beforeBehaviours errText key job s po)) = true <->
            (exists status, po_exit po = ExitNil status) /\
            killErr s = None /\ closeErr s = None).
  { rewrite Hnil. unfold beforeBehaviours, decided. cbn [myerr withMyerr].
    rewrite !alsoFailed_nil, classify_myerr_nil. unfold po_wait.
    assert (He : (exists status, waitOf (po_exit po) = WaitNil status) <->
                 exists status, po_exit po = ExitNil status).
    { destruct (po_exit po) as [st | st e]; simpl; split;
        intros [status H]; try discriminate; eauto. }
    rewrite He.
    split; [intros (H1 & H2 & H3) | intros (H1 & H2 & H3)]; auto. }
  rewrite Hr.
  destruct (ExecuteRun compress errText key recsAfterFailure TrimSpace
                       c job actualCwd endT pe evs po) as [[j ret] tr].
  cbn [fst snd] in *.
  destruct Hcase as [(_ & Heq & _) | (_ & Heq & (err & extra & Hret))].
  - exists (is_nil (myerr (beforeBehaviours errText key job s po))),
           (retries m k ++ [ECall m]).
    split; [exact Heq|]. split; [exact Hsuccess|].
    intros e Hin. apply in_app_or in Hin. destruct Hin as [Hin | [<- | []]].
    + apply In_retriesFrom in Hin. destruct Hin as [-> | Hd]; eauto.
    + eauto.
  - exists (is_nil (myerr (beforeBehaviours errText key job s po))),
           (retries m 300 ++ [ETrigger false]).
    split; [exact Heq|]. split; [exact Hsuccess|].
    intros e Hin. apply in_app_or in Hin. destruct Hin as [Hin | [<- | []]].
    + apply In_retriesFrom in Hin. destruct Hin as [-> | Hd]; eauto.
    + right. right. split; [reflexivity|]. rewrite Hret. eauto.
Qed.

(** X28: what the server is sent as the command's output.  Stderr and
    Stdout always begin with the trimmed output that was captured, and
    Stdout is just that unless its filter failed.  For a command whose wait
    returned nil, and whose behaviours had no problem, Stderr is the
    trimmed output followed only by the problems of its filter: the mount
    logs are left out, even if the unmount failed and the job is released
    for it. *)
Theorem reported_output
        (errText : error -> string) (key : Job -> string)
        (TrimSpace : bytes -> bytes)
        (job : Job) (s : SupState) (po : PostEnv) :
  (exists rest, finalStdErr errText key TrimSpace job s po
                = TrimSpace (po_stderr po) ++ rest) /\
  (exists rest, finalStdOut errText TrimSpace po
                = TrimSpace (po_stdout po) ++ rest) /\
  (po_errsow po = None ->
   finalStdOut errText TrimSpace po = TrimSpace (po_stdout po)) /\
  ((exists status, po_wait po = WaitNil status) -> po_berr po = None ->
   finalStdErr errText key TrimSpace job s po
   = TrimSpace (po_stderr po)
       ++ match po_errsew po with
          | Some e => header "STDERR handling problems:"
                        ++ list_byte_of_string (errText e)
          | None => []
          end).
Proof.
  split; [|split; [|split]].
  - unfold finalStdErr.
    destruct ((dobury (beforeUnmount errText key job s po)
               || dorelease (beforeUnmount errText key job s po))
              && negb (fst (po_unmount po) =? "")%string);
      destruct (po_berr po) as [be|];
      try destruct (dobury (settled errText key job s po)
                    || dorelease (settled errText key job s po));
      destruct (po_errsew po) as [e|];
      rewrite <- ?app_assoc; eexists; try reflexivity;
        symmetry; apply app_nil_r.
  - unfold finalStdOut. destruct (po_errsow po) as [e|]; eexists;
      [reflexivity | symmetry; apply app_nil_r].
  - intros H. unfold finalStdOut. rewrite H. reflexivity.
  - intros [status Hw] Hb. unfold finalStdErr. rewrite Hb.
    unfold beforeUnmount, beforeBehaviours, decided. rewrite Hw.
    cbn [classify withMyerr dobury dorelease orb andb].
    destruct (po_errsew po) as [e|]; [reflexivity|].
    symmetry. apply app_nil_r.
Qed.

(** X29: Reserve is ReserveScheduled for the blank scheduler group.  After
    either the client has reserved, whether or not the call worked, and has
    the id and token it had; the request is a "reserve" with the caller's
    timeout, stamped with that id and token; an error is returned exactly
    when the exchange failed, and then no job is. *)
Theorem Reserve_as_ReserveScheduled
        (key : Job -> string) (c : Client) (timeout : Duration) (x : Exchange) :
  Reserve key c timeout x = ReserveScheduled key c timeout "" x /\
  forall (group : string),
    let r := ReserveScheduled key c timeout group x in
    let c' := fst (fst r) in
    let cr := snd (fst r) in
    hasReserved c' = true /\ clientid c' = clientid c /\ token c' = token c /\
    rq_Method cr = "reserve"%string /\ rq_Timeout cr = timeout /\
    rq_SchedulerGroup cr = group /\
    rq_ClientID cr = clientid c /\ rq_Token cr = token c /\
    rq_FirstReserve cr = negb (hasReserved c) /\
    (snd (snd r) = None <-> exchangeOk x = true) /\
    (snd (snd r) <> None -> fst (snd r) = None).
Proof.
  split; [reflexivity|].
  intros group r c' cr. subst r c' cr.
  unfold ReserveScheduled, firstReserve.
  destruct (hasReserved c) eqn:Hh; cbn [negb];
    destruct x as [e|e|e|e|sr]; cbn [request fst snd exchangeOk];
      try (destruct (sr_Err sr =? "")%string; cbn [negb fst snd]);
      cbn [hasReserved clientid token rq_Method rq_Timeout rq_SchedulerGroup
           rq_ClientID rq_Token rq_FirstReserve];
      repeat match goal with
             | |- _ /\ _ => split
             | |- _ <-> _ => split
             | |- _ -> _ => intro
             end;
      try reflexivity; try discriminate; try congruence; try assumption.
Qed.

(** X30: request stamps the client's id and token on what it sends,
    whatever the caller had put there, and leaves the rest of the request
    alone.  It returns no error exactly when a response was decoded whose
    Err is empty; a response with an Err comes back together with
    Error{method, key, Err}, key being the job's or blank when the request
    has no job; when the codec or the socket fails, their error comes back
    without a response. *)
Theorem request_outcome
        (key : Job -> string) (c : Client) (cr : clientRequest) (x : Exchange) :
  let r := request key c cr x in
  rq_ClientID (fst r) = clientid c /\ rq_Token (fst r) = token c /\
  rq_Method (fst r) = rq_Method cr /\ rq_Job (fst r) = rq_Job cr /\
  rq_JobEndState (fst r) = rq_JobEndState cr /\
  rq_Timeout (fst r) = rq_Timeout cr /\
  rq_FirstReserve (fst r) = rq_FirstReserve cr /\
  rq_SchedulerGroup (fst r) = rq_SchedulerGroup cr /\
  (reply_err (snd r) = None <-> exchangeOk x = true) /\
  (forall sr, snd r = Succeeded sr ->
              x = Decoded sr /\ sr_Err sr = ""%string) /\
  (forall sr e, snd r = ServerErr sr e ->
                x = Decoded sr /\ sr_Err sr <> ""%string /\
                e = Error (rq_Method cr)
                          (match rq_Job cr with
                           | Some j => key j
                           | None => ""%string
                           end)
                          (sr_Err sr)) /\
  (forall e, snd r = Failed e ->
             x = EncodeFailed e \/ x = SendFailed e \/ x = RecvFailed e \/
             x = DecodeFailed e).
Proof.
  intros r. subst r. unfold request.
  destruct x as [e|e|e|e|sr]; cbn [fst snd reply_err exchangeOk rq_ClientID
                                   rq_Token rq_Method rq_Job rq_JobEndState
                                   rq_Timeout rq_FirstReserve rq_SchedulerGroup];
    try (destruct (String.eqb_spec (sr_Err sr) ""); cbn [negb fst snd reply_err]);
    repeat match goal with
           | |- _ /\ _ => split
           | |- _ <-> _ => split
           | |- forall _, _ => intro
           | H : Succeeded _ = Succeeded _ |- _ => injection H as <-
           | H : ServerErr _ _ = ServerErr _ _ |- _ => injection H as <- <-
           | H : Failed _ = Failed _ |- _ => injection H as <-
           end;
    try reflexivity; try discriminate; try congruence; auto.
Qed.
(* ===================================================================== *)
(** * The run as a whole: what is reported for the job *)

Section RunFacts.

Variable compress : bytes -> bytes * option error.
Variable errText : error -> string.
Variable key : Job -> string.
Variable recsAfterFailure : Job -> scheduler_Requirements.
Variable TrimSpace : bytes -> bytes.

(** Whether [ended] fails depends on the end state alone. *)
Lemma ended_error_same (job job2 : Job) (jes : option JobEndState) :
  snd (ended compress job2 jes) = snd (ended compress job jes).
Proof.
  unfold ended. destruct jes as [e|]; [|reflexivity].
  destruct (jes_Exited e); cbn [negb]; [|reflexivity].
  destruct (negb (jes_Cwd e =? "")%string);
    destruct (nonempty (jes_Stdout e));
    try destruct (compress (jes_Stdout e)) as [z1 [e1|]];
    try reflexivity;
    destruct (nonempty (jes_Stderr e));
    try destruct (compress (jes_Stderr e)) as [z2 e2]; reflexivity.
Qed.

(** The fail reason that one call of the report loop's chain leaves. *)
Lemma reportOnce_FailReason (c : Client) (v : Verdict) (jes : JobEndState)
      (job : Job) (err : option error) (x : Exchange) (m : EndCall) :
  dispatch v = Some m ->
  let j' := fst (fst (reportOnce compress errText key recsAfterFailure
                                 c v jes job err x)) in
  (m = CallArchive -> FailReason j' = FailReason job) /\
  (m <> CallArchive -> snd (ended compress job (Some jes)) = None ->
   FailReason j' = failreason v).
Proof.
  intros Hd. unfold reportOnce. rewrite Hd. destruct m.
  - pose proof (Bury_state compress errText key c job (Some jes) (failreason v)
                           [] x) as (_ & _ & _ & Hb & _).
    cbv zeta in Hb.
    destruct (Bury compress errText key c job (Some jes) (failreason v) [] x)
      as [j1 e1].
    cbn [fst snd] in *. split; [discriminate | intros _ Hok; exact (Hb Hok)].
  - pose proof (Release_FailReason compress key recsAfterFailure c job
                                   (Some jes) (failreason v) x) as (Hr & _).
    cbv zeta in Hr.
    destruct (Release compress key recsAfterFailure c job (Some jes)
                      (failreason v) x) as [j1 e1].
    cbn [fst snd] in *. split; [discriminate | intros _ Hok; exact (Hr Hok)].
  - pose proof (Archive_state compress key c job (Some jes) x)
      as (_ & _ & _ & Ha & _).
    cbv zeta in Ha.
    destruct (Archive compress key c job (Some jes) x) as [j1 e1].
    cbn [fst snd] in *. split; [intros _; exact Ha | congruence].
Qed.

(** ... and the one that the report loop leaves. *)
Lemma reportLoop_FailReason (c : Client) (v : Verdict) (jes : JobEndState)
      (net : Z -> Exchange) (m : EndCall) :
  dispatch v = Some m ->
  forall (n : nat) (r : Z) (job : Job) (err : option error),
    let j' := fst (fst (fst (reportLoop compress errText key recsAfterFailure
                                        n r c v jes net job err))) in
    (m = CallArchive -> FailReason j' = FailReason job) /\
    (m <> CallArchive -> snd (ended compress job (Some jes)) = None ->
     (0 < n)%nat \/ FailReason job = failreason v ->
     FailReason j' = failreason v).
Proof.
  intros Hd. induction n as [|n IH]; intros r job err.
  - simpl. split; [reflexivity|]. intros _ _ [H | H]; [lia | exact H].
  - cbn [reportLoop].
    pose proof (reportOnce_FailReason c v jes job err (net r) m Hd) as [Ha Hb].
    cbv zeta in Ha, Hb.
    destruct (reportOnce compress errText key recsAfterFailure c v jes job err
                         (net r)) as [[j1 e1] eff1].
    cbn [fst snd] in Ha, Hb.
    destruct e1 as [e1|].
    + specialize (IH (r + 1) j1 (Some e1)). cbv zeta in IH.
      destruct (reportLoop compress errText key recsAfterFailure n (r + 1) c v
                           jes net j1 (Some e1)) as [[[j2 e2] w2] eff2].
      cbn [fst snd] in IH |- *. destruct IH as [IHa IHb].
      split.
      * intros Hm. rewrite (IHa Hm). exact (Ha Hm).
      * intros Hm Hok _. apply IHb; [exact Hm | |].
        -- rewrite (ended_error_same job j1). exact Hok.
        -- right. exact (Hb Hm Hok).
    + cbn [fst snd]. split; [exact Ha|]. intros Hm Hok _. exact (Hb Hm Hok).
Qed.

Let Run := ExecuteRun compress errText key recsAfterFailure TrimSpace.

(** What a run whose exit was collected tells the server and leaves on the
    job: one or more calls of the method of the decision it settled on,
    the exit code of that decision, and its fail reason unless the method
    is Archive or [ended] fails; and the flag of the first trigger. *)
Lemma ExecuteRun_reports (c : Client) (job : Job) (actualCwd : string)
      (endT : Z) (pe : ProcEnv) (evs : list SupEvent) (po : PostEnv) :
  let s := supervise key c job endT pe evs supInit in
  let v := settled errText key job s po in
  let jes := endState errText key TrimSpace job actualCwd s po in
  let r := Run c job actualCwd endT pe evs po in
  let job' := fst (fst r) in
  exists (m : EndCall) (n : nat),
    dispatch v = Some m /\
    (n < 300)%nat /\
    endCalls (snd r) = repeat m (S n) /\
    recorded jes job' /\
    (m = CallArchive -> FailReason job' = FailReason job) /\
    (m <> CallArchive -> snd (ended compress job (Some jes)) = None ->
     FailReason job' = failreason v) /\
    hd_error (triggers (snd r))
    = Some (is_nil (myerr (beforeBehaviours errText key job s po))) /\
    (snd (fst r) = None -> myerr v = None).
Proof.
  intros s v jes r job'.
  destruct (ExecuteRun_trace compress errText key recsAfterFailure TrimSpace
              c job actualCwd endT pe evs po) as (m & k & Hm & Hcase & _).
  fold s in Hm, Hcase. fold v in Hm, Hcase. fold Run in Hcase. fold r in Hcase.
  destruct (supervise_endCalls key c job endT pe evs supInit) as (Hec & Htg & _).
  fold s in Hec, Htg. simpl in Hec, Htg.
  pose proof (endState_exited errText key TrimSpace job actualCwd s po) as Hex.
  fold jes in Hex.
  pose proof (reportLoop_job compress errText key recsAfterFailure c v jes
                (po_net po) m (UntilBuried job) (State job) (Cmd job) Hm Hex
                300 0 job (waitErr (po_wait po)) eq_refl eq_refl eq_refl)
    as (_ & Hrec & _ & _).
  pose proof (reportLoop_FailReason c v jes (po_net po) m Hm 300 0 job
                                    (waitErr (po_wait po))) as [Hfa Hfb].
  pose proof (ExecuteRun_result compress errText key recsAfterFailure TrimSpace
                c job actualCwd endT pe evs po) as (Hjob & _ & _).
  fold s in Hjob. fold v in Hjob. fold jes in Hjob. fold Run in Hjob.
  fold r in Hjob. fold job' in Hjob.
  cbv zeta in Hrec, Hfa, Hfb. rewrite <- Hjob in Hrec, Hfa, Hfb.
  assert (H300 : (0 < 300)%nat) by lia.
  assert (Hcalls : exists n, (n < 300)%nat /\ endCalls (snd r) = repeat m (S n)).
  { destruct Hcase as [(Hk & Htr & _) | (Hk & Htr & _)]; rewrite Htr.
    - exists k. split; [exact Hk|]. rewrite !endCalls_app, Hec. unfold retries.
      rewrite endCalls_retriesFrom. cbn [endCalls app].
      change [m] with (repeat m 1).
      rewrite <- repeat_app. rewrite Nat.add_1_r. reflexivity.
    - exists 299%nat. split; [lia|]. rewrite !endCalls_app, Hec. unfold retries.
      rewrite endCalls_retriesFrom. cbn [endCalls app].
      rewrite app_nil_r. reflexivity. }
  destruct Hcalls as (n & Hn & Hcalls).
  exists m, n. split; [exact Hm|]. split; [exact Hn|]. split; [exact Hcalls|].
  split; [apply Hrec; left; exact H300|]. split; [exact Hfa|].
  split; [intros Hne Hok; apply Hfb; auto|].
  split.
  - destruct Hcase as [(_ & Htr & _) | (_ & Htr & _)]; rewrite Htr;
      rewrite triggers_app, Htg; reflexivity.
  - intros Hnil.
    destruct Hcase as [(_ & _ & Hret) | (_ & _ & err & extra & Hret)];
      rewrite Hret in Hnil; [exact Hnil | discriminate].
Qed.

(** The decision when the report loop starts, from the classification of
    the exit and the unmount. *)
Lemma settled_decision (job : Job) (s : SupState) (po : PostEnv) :
  let v0 := classify key job (po_wait po) s in
  let v := settled errText key job s po in
  match snd (po_unmount po) with
  | Some ue =>
      if Strings.Contains (errText ue) "failed to upload"
      then dispatch v = Some (if dobury v0 then CallBury else CallRelease) /\
           failreason v = (if (failreason v0 =? "")%string
                           then FailReasonUpload else failreason v0) /\
           exitcode v = (if exitcode v0 =? 0 then -2 else exitcode v0)
      else dispatch v = dispatch v0 /\ failreason v = failreason v0 /\
           exitcode v = exitcode v0
  | None => dispatch v = dispatch v0 /\ failreason v = failreason v0 /\
            exitcode v = exitcode v0
  end.
Proof.
  intros v0 v. subst v v0. unfold settled.
  destruct (snd (po_unmount po)) as [ue|]; [|repeat split].
  destruct (Strings.Contains (errText ue) "failed to upload") eqn:Hc.
  - exact (afterUnmount_upload errText ue _ Hc).
  - unfold afterUnmount. rewrite Hc. repeat split.
Qed.

End RunFacts.

Section RunDecision.

Variable errText : error -> string.
Variable key : Job -> string.



End RunDecision.




(** C2: the supervisory task never kills the child for overrunning
    Requirements.Time.  A touch tick after endT whose touch carries no kill
    request latches ranoutTime, leaves the child alone and lets the task go
    on; an iteration kills exactly at the three kill sites (a signal, a
    touch reporting a kill request, a new memory peak above the limit);
    without those the child is never killed, however late the ticks.  So a
    job that exits 0 is reported whatever the supervisor latched, overrun
    included: every end-state call Execute makes is Archive and the exit
    code left on the job is 0, unless the unmount fails to upload, in which
    case every call is Release and the exit code is -2. *)
Theorem time_overrun_never_kills
        (compress : bytes -> bytes * option error) (errText : error -> string)
        (key : Job -> string) (recsAfterFailure : Job -> scheduler_Requirements)
        (TrimSpace : bytes -> bytes)
        (c : Client) (job : Job) (endT : Z) (pe : ProcEnv) :
  (forall now x s,
      endT < now -> fst (Touch key c job x) = false ->
      supStep key c job endT pe (TouchTick now x) s
      = ({| peakmem := peakmem s; ranoutMem := ranoutMem s; ranoutTime := true;
            signalled := signalled s; killCalled := killCalled s;
            killErr := killErr s; closeErr := closeErr s;
            trace := trace s ++ [ETouch] |}, true)) /\
  (forall ev s,
      kills (trace (fst (supStep key c job endT pe ev s)))
      = (kills (trace s) + if killSite key c job ev s then 1 else 0)%nat) /\
  (forall evs,
      (forall ev s', In ev evs -> killSite key c job ev s' = false) ->
      kills (trace (supervise key c job endT pe evs supInit)) = 0%nat) /\
  (forall evs po actualCwd,
      po_exit po = ExitNil 0 ->
      let r := ExecuteRun compress errText key recsAfterFailure TrimSpace
                          c job actualCwd endT pe evs po in
      let uploadFailed :=
        match snd (po_unmount po) with
        | Some ue => Strings.Contains (errText ue) "failed to upload"
        | None => false
        end in
      endCalls (snd r) <> [] /\
      (forall m, In m (endCalls (snd r)) ->
                 m = if uploadFailed then CallRelease else CallArchive) /\
      Exitcode (fst (fst r)) = (if uploadFailed then -2 else 0)).
Proof.
  split; [|split; [|split]].
  - intros now x s. apply supStep_late_tick.
  - intros ev s. apply supStep_kills.
  - intros evs Hq.
    destruct (supervise_no_kill key c job endT pe evs supInit Hq) as [H _].
    exact H.
  - intros evs po actualCwd Hx r uploadFailed.
    pose proof (ExecuteRun_reports compress errText key recsAfterFailure
                  TrimSpace c job actualCwd endT pe evs po)
      as (m & n & Hm & _ & Hcalls & Hrec & _).
    fold r in Hcalls, Hrec.
    pose proof (settled_decision errText key job
                  (supervise key c job endT pe evs supInit) po) as Hdec.
    cbv zeta in Hdec.
    assert (Hw : po_wait po = WaitNil 0) by (unfold po_wait; rewrite Hx; reflexivity).
    rewrite Hw in Hdec. cbn [classify dobury failreason exitcode] in Hdec.
    destruct Hrec as (_ & R2 & _). cbn [endState jes_Exitcode] in R2.
    assert (Hboth : m = (if uploadFailed then CallRelease else CallArchive) /\
                    exitcode (settled errText key job
                                (supervise key c job endT pe evs supInit) po)
                    = (if uploadFailed then -2 else 0)).
    { subst uploadFailed. destruct (snd (po_unmount po)) as [ue|].
      - destruct (Strings.Contains (errText ue) "failed to upload");
          destruct Hdec as (Hd & _ & He); rewrite Hd in Hm;
          unfold dispatch in Hm; cbn in Hm;
          (split; [congruence | exact He]).
      - destruct Hdec as (Hd & _ & He). rewrite Hd in Hm.
        unfold dispatch in Hm; cbn in Hm.
        split; [congruence | exact He]. }
    destruct Hboth as [Hmeq Hcode].
    split; [rewrite Hcalls; discriminate|]. split.
    + intros m' Hin. rewrite Hcalls in Hin. apply repeat_spec in Hin.
      rewrite Hin. exact Hmeq.
    + rewrite R2. exact Hcode.
Qed.

Lemma time_overrun_never_kills_witness :
  let s := supervise cmdKey sampleClient (sampleJob "sleep 3; exit 0") 1000
                     quietProc (overrunEvents 1000) supInit in
  let r := ExecuteRun storeCompress plainText cmdKey sameRecs idTrim
                      sampleClient (sampleJob "sleep 3; exit 0") "/tmp/w/cwd"
                      1000 quietProc (overrunEvents 1000) overrunPost in
  ranoutTime s = true /\
  kills (trace s) = 0%nat /\
  endCalls (snd r) = [CallArchive] /\
  Exitcode (fst (fst r)) = 0 /\
  State (fst (fst r)) = JobStateComplete.
Proof.
  intros s r.
  pose proof (time_overrun_never_kills storeCompress plainText cmdKey sameRecs
                idTrim sampleClient (sampleJob "sleep 3; exit 0") 1000 quietProc)
    as (_ & _ & Hquiet & Hrun).
  split; [reflexivity|]. split.
  - apply Hquiet.
    intros ev s' [<-|[<-|[<-|[<-|[]]]]]; simpl;
      try rewrite andb_false_r; reflexivity.
  - destruct (Hrun (overrunEvents 1000) overrunPost "/tmp/w/cwd"%string eq_refl)
      as (_ & _ & Hcode).
    split; [reflexivity|]. split; [exact Hcode | reflexivity].
Defined.

(** C2 as stated fails in its last part: a job that overruns its Time,
    with no signal, no kill request and no memory breach, and exits 0, is
    not archived when the unmount cannot upload its files.  It is released
    with exit code -2, and counted as a failed attempt. *)
Lemma overrun_exit0_released :
  let job := sampleJob "sleep 3; exit 0" in
  let s := supervise cmdKey sampleClient job 1000 quietProc
                     (overrunEvents 1000) supInit in
  let r := ExecuteRun storeCompress plainText cmdKey sameRecs idTrim
                      sampleClient job "/tmp/w/cwd" 1000 quietProc
                      (overrunEvents 1000) uploadFailPost in
  ranoutTime s = true /\ kills (trace s) = 0%nat /\
  signalled s = false /\ killCalled s = false /\ ranoutMem s = false /\
  po_exit uploadFailPost = ExitNil 0 /\
  endCalls (snd r) = [CallRelease] /\
  Exitcode (fst (fst r)) = -2 /\
  State (fst (fst r)) = JobStateDelayed /\
  UntilBuried (fst (fst r)) = UntilBuried job - 1.
Proof.
  intros job s r.
  do 9 (split; [reflexivity|]). reflexivity.
Qed.

(** C7: when the post-run Unmount returns an error whose text contains
    "failed to upload", Execute reports a run that was classified as
    archive by Release, one classified as bury still by Bury (and one
    classified as release by Release); the exit code left on the job is -2
    exactly when the child's was 0, and the child's otherwise; the fail
    reason becomes the upload-failure reason exactly when the
    classification had set none, and stays that of the classification
    otherwise, and it is the one left on the job (unless [ended] fails
    before the method writes it); and Execute returns an error. *)
Theorem unmount_upload_failure
        (compress : bytes -> bytes * option error) (errText : error -> string)
        (key : Job -> string) (recsAfterFailure : Job -> scheduler_Requirements)
        (TrimSpace : bytes -> bytes)
        (c : Client) (job : Job) (actualCwd : string) (endT : Z)
        (pe : ProcEnv) (evs : list SupEvent) (po : PostEnv) (ue : error) :
  snd (po_unmount po) = Some ue ->
  Strings.Substring "failed to upload" (errText ue) ->
  let s := supervise key c job endT pe evs supInit in
  let was := classify key job (po_wait po) s in
  let r := ExecuteRun compress errText key recsAfterFailure TrimSpace
                      c job actualCwd endT pe evs po in
  let job' := fst (fst r) in
  endCalls (snd r) <> [] /\
  (forall m, In m (endCalls (snd r)) ->
             (dispatch was = Some CallArchive -> m = CallRelease) /\
             (dispatch was = Some CallBury -> m = CallBury) /\
             (dispatch was = Some CallRelease -> m = CallRelease)) /\
  (exitcode was = 0 -> Exitcode job' = -2) /\
  (exitcode was <> 0 -> Exitcode job' = exitcode was) /\
  (failreason was = ""%string ->
   failreason (settled errText key job s po) = FailReasonUpload) /\
  (failreason was <> ""%string ->
   failreason (settled errText key job s po) = failreason was) /\
  (snd (ended compress job
              (Some (endState errText key TrimSpace job actualCwd s po))) = None ->
   (failreason was = ""%string -> FailReason job' = FailReasonUpload) /\
   (failreason was <> ""%string -> FailReason job' = failreason was)) /\
  snd (fst r) <> None.
Proof.
  intros Hue Hsub s was r job'.
  apply StringsFacts.Contains_Substring in Hsub.
  pose proof (ExecuteRun_reports compress errText key recsAfterFailure
                TrimSpace c job actualCwd endT pe evs po)
    as (m & n & Hm & _ & Hcalls & Hrec & _ & Hfb & _ & Hret).
  fold s in Hm, Hcalls, Hrec, Hfb, Hret. fold r in Hcalls, Hrec, Hfb, Hret.
  fold job' in Hrec, Hfb.
  pose proof (settled_decision errText key job s po) as Hdec.
  cbv zeta in Hdec. rewrite Hue, Hsub in Hdec. fold was in Hdec.
  destruct Hdec as (Hd & Hf & He).
  rewrite Hd in Hm. injection Hm as Hm.
  destruct Hrec as (_ & R2 & _). cbn [endState jes_Exitcode] in R2.
  split; [rewrite Hcalls; discriminate|].
  split; [|split; [|split; [|split; [|split; [|split]]]]].
  - intros m' Hin. rewrite Hcalls in Hin. apply repeat_spec in Hin.
    rewrite Hin, <- Hm. unfold dispatch.
    destruct (dobury was); [repeat split; intros; congruence|].
    destruct (dorelease was); [repeat split; intros; congruence|].
    destruct (doarchive was); repeat split; intros; congruence.
  - intros Hz. rewrite R2, He, Hz. reflexivity.
  - intros Hnz. rewrite R2, He.
    destruct (Z.eqb_spec (exitcode was) 0); [contradiction | reflexivity].
  - intros Hz. rewrite Hf, Hz. reflexivity.
  - intros Hnz. rewrite Hf.
    destruct (String.eqb_spec (failreason was) ""%string);
      [contradiction | reflexivity].
  - intros Hok.
    assert (Hne : m <> CallArchive) by (rewrite <- Hm; destruct (dobury was); discriminate).
    rewrite (Hfb Hne Hok), Hf. split.
    + intros ->. reflexivity.
    + intros Hnz. destruct (String.eqb_spec (failreason was) ""%string);
        [contradiction | reflexivity].
  - intros Hnil. specialize (Hret Hnil).
    apply (settled_myerr_nil errText key job s po) in Hret.
    destruct Hret as (_ & _ & _ & _ & Hu). congruence.
Qed.

Lemma unmount_upload_failure_witness :
  let job := sampleJob "sleep 3; exit 0" in
  let r := ExecuteRun storeCompress plainText cmdKey sameRecs idTrim
                      sampleClient job "/tmp/w/cwd" 1000 quietProc
                      (overrunEvents 1000) uploadFailPost in
  snd (po_unmount uploadFailPost)
  = Some (Opaque "unmount: failed to upload 3 files") /\
  Strings.Substring "failed to upload"
    (plainText (Opaque "unmount: failed to upload 3 files")) /\
  endCalls (snd r) = [CallRelease] /\
  Exitcode (fst (fst r)) = -2 /\
  FailReason (fst (fst r)) = FailReasonUpload.
Proof.
  intros job r.
  assert (Hu : snd (po_unmount uploadFailPost)
               = Some (Opaque "unmount: failed to upload 3 files"))
    by reflexivity.
  assert (H : Strings.Substring "failed to upload"
                (plainText (Opaque "unmount: failed to upload 3 files"))).
  { exists "unmount: "%string, " 3 files"%string. reflexivity. }
  split; [exact Hu|]. split; [exact H|]. split; [reflexivity|].
  destruct (unmount_upload_failure storeCompress plainText cmdKey sameRecs idTrim
              sampleClient job "/tmp/w/cwd" 1000 quietProc (overrunEvents 1000)
              uploadFailPost _ Hu H)
    as (_ & _ & Hcode & _ & _ & _ & Hreason & _).
  split; [exact (Hcode eq_refl)|].
  exact (proj1 (Hreason eq_refl) eq_refl).
Defined.

(** C3, as the code has it: the peak memory that Execute reports in the
    end state, and leaves on the job, is the child's peak plus the runner's
    own memory, added in Go's int.  The child's peak is the largest sample the
    supervisory task read without an error or, when that is 0, the rusage
    maximum resident set brought to MiB (KiB / 1024, and bytes / 1024 / 1024
    on darwin).  The runner's own memory is its current RSS when the probe
    succeeds and 10 MiB only when the probe fails.  So, for a non-negative
    rusage value and own memory and a sum within Go's int, the report is at
    least every sample taken, and it is at least 10 MiB when the probe
    fails or reports 10 MiB or more. *)
Theorem reported_peakmem_bounds
        (compress : bytes -> bytes * option error) (errText : error -> string)
        (key : Job -> string) (recsAfterFailure : Job -> scheduler_Requirements)
        (TrimSpace : bytes -> bytes)
        (c : Client) (job : Job) (actualCwd : string) (endT : Z)
        (pe : ProcEnv) (evs : list SupEvent) (po : PostEnv) :
  let taken := handled key c job endT pe evs supInit in
  let child :=
    if largestSample taken =? 0
    then (if po_darwin po then Z.quot (Z.quot (po_maxrss po) 1024) 1024
          else Z.quot (po_maxrss po) 1024)
    else largestSample taken in
  let own := match snd (po_selfmem po) with
             | Some _ => 10
             | None => fst (po_selfmem po)
             end in
  let r := ExecuteRun compress errText key recsAfterFailure TrimSpace
                      c job actualCwd endT pe evs po in
  let reported := PeakRAM (fst (fst r)) in
  reported
  = jes_PeakRAM (endState errText key TrimSpace job actualCwd
                          (supervise key c job endT pe evs supInit) po) /\
  reported = wrap64 (child + own) /\
  (0 <= po_maxrss po -> 0 <= own -> child + own < 2 ^ 63 ->
   reported = child + own /\
   largestSample taken <= reported /\
   (forall m, In (MemTick m None) taken -> m <= reported) /\
   (snd (po_selfmem po) <> None \/ 10 <= fst (po_selfmem po) ->
    10 <= reported)).
Proof.
  intros taken child own r reported.
  pose proof (ExecuteRun_reports compress errText key recsAfterFailure
                TrimSpace c job actualCwd endT pe evs po)
    as (m & n & _ & _ & _ & Hrec & _).
  fold r in Hrec. destruct Hrec as (_ & _ & R3 & _).
  fold reported in R3.
  pose proof (ranoutMem_peak key c job endT pe evs) as [Hpeak Hpos].
  fold taken in Hpeak.
  assert (Hchild : seedPeakmem (po_darwin po) (po_maxrss po)
                     (peakmem (supervise key c job endT pe evs supInit))
                   = child).
  { unfold seedPeakmem, child. rewrite Hpeak. reflexivity. }
  assert (Hown : ourmem (po_selfmem po) = own) by reflexivity.
  assert (Hrep : reported = wrap64 (child + own)).
  { rewrite R3. cbn [endState jes_PeakRAM].
    unfold reportedPeakmem, addOurmem. rewrite Hchild, Hown. reflexivity. }
  split; [exact R3|]. split; [exact Hrep|].
  intros Hrss Hown0 Hfit.
  assert (Hls : 0 <= largestSample taken) by (rewrite <- Hpeak; exact Hpos).
  assert (Hge : largestSample taken <= child).
  { unfold child. destruct (Z.eqb_spec (largestSample taken) 0) as [Hz|Hnz];
      [|lia].
    rewrite Hz. destruct (po_darwin po).
    - apply Z.quot_pos; [apply Z.quot_pos|]; lia.
    - apply Z.quot_pos; lia. }
  assert (Hsum : reported = child + own).
  { rewrite Hrep. apply wrap64_small. lia. }
  split; [exact Hsum|]. split; [lia|]. split.
  - intros m0 Hin.
    destruct (Z_le_gt_dec m0 (largestSample taken)) as [Hle|Hgt]; [lia|].
    assert (Habove : largestSample taken < largestSample taken).
    { apply (largestSample_above taken (largestSample taken) Hls).
      exists m0. split; [exact Hin | lia]. }
    lia.
  - intros [Hfail | Hbig].
    + assert (own = 10)
        by (unfold own; destruct (snd (po_selfmem po)); [reflexivity | congruence]).
      lia.
    + unfold own in *. destruct (snd (po_selfmem po)); lia.
Qed.

Lemma reported_peakmem_bounds_witness :
  let job := sampleJob "sleep 3; exit 0" in
  let r := ExecuteRun storeCompress plainText cmdKey sameRecs idTrim
                      sampleClient job "/tmp/w/cwd" 1000 quietProc
                      (overrunEvents 1000) overrunPost in
  largestSample (handled cmdKey sampleClient job 1000 quietProc
                         (overrunEvents 1000) supInit) = 3 /\
  PeakRAM (fst (fst r)) = 3 + 4.
Proof.
  intros job r.
  split; [reflexivity|].
  destruct (reported_peakmem_bounds storeCompress plainText cmdKey sameRecs
              idTrim sampleClient job "/tmp/w/cwd" 1000 quietProc
              (overrunEvents 1000) overrunPost) as (_ & _ & Hb).
  destruct Hb as (Hsum & _); [vm_compute; discriminate | vm_compute; discriminate
                              | vm_compute; reflexivity |].
  exact Hsum.
Defined.

(** C3 as stated fails: with a largest child sample of 3 MiB and a
    self-memory probe that succeeds with 4 MiB, Execute reports 7 MiB,
    which is below 10 MiB. *)
Lemma reported_peakmem_below_floor :
  let job := sampleJob "sleep 3; exit 0" in
  let r := ExecuteRun storeCompress plainText cmdKey sameRecs idTrim
                      sampleClient job "/tmp/w/cwd" 1000 quietProc
                      (overrunEvents 1000) overrunPost in
  let reported := PeakRAM (fst (fst r)) in
  In (MemTick 3 None)
     (handled cmdKey sampleClient job 1000 quietProc (overrunEvents 1000) supInit) /\
  snd (po_selfmem overrunPost) = None /\
  endCalls (snd r) = [CallArchive] /\
  reported = 7 /\
  ~ (10 <= reported).
Proof.
  intros job r reported.
  split; [left; reflexivity|]. split; [reflexivity|]. split; [reflexivity|].
  assert (H : reported = 7) by reflexivity.
  split; [exact H|]. rewrite H. lia.
Qed.

Section CommandLine.

Variable compress : bytes -> bytes * option error.
Variable errText : error -> string.
Variable key : Job -> string.
Variable recsAfterFailure : Job -> scheduler_Requirements.
Variable TrimSpace : bytes -> bytes.
Variable envOverride : list string -> list string -> list string.
Variable ErrMustReserve : string.

Let Exec := Execute compress errText key recsAfterFailure TrimSpace
                    envOverride ErrMustReserve.

(** C8: whenever Execute starts the command it runs [shell -c jc], where jc
    is the job's command prefixed with "set -o pipefail; " if and only if
    the command contains the three characters space, pipe, space, and is
    the command as it is otherwise; and it does start the command, once,
    whenever it gets as far as the start. *)
Theorem shellCommand_pipefail
        (c : Client) (job : Job) (h : HostInfo) (shell : string)
        (pr : PreEnv) (pe : ProcEnv) (evs : list SupEvent) (w : Waited) :
  let tr := snd (Exec c job h shell pr pe evs w) in
  let piped := ("set -o pipefail; " ++ Cmd job)%string in
  (reachesStart errText c job pr = true ->
   exists jc dir env, In (PStart [shell; "-c"%string; jc] dir env) tr) /\
  (forall args dir env,
      In (PStart args dir env) tr ->
      exists jc,
        args = [shell; "-c"%string; jc] /\
        (jc = piped <-> Strings.Substring " | " (Cmd job)) /\
        (jc = Cmd job <-> ~ Strings.Substring " | " (Cmd job)) /\
        (jc = piped \/ jc = Cmd job)).
Proof.
  intros tr piped.
  pose proof (Execute_shape compress errText key recsAfterFailure TrimSpace
                            envOverride ErrMustReserve c job h shell pr pe evs w)
    as Hsh.
  fold Exec in Hsh. fold tr in Hsh.
  split.
  - intros Hs. rewrite Hs in Hsh. unfold shape in Hsh.
    destruct Hsh as (pre & mid & Heq & _).
    exists (shellCommand (Cmd job)), (workDir job pr),
           (cmdEnv envOverride job (actualCwdOf job pr) (tmpDirOf job pr)
                   (fst (pr_env pr))).
    rewrite Heq. apply in_or_app. right. right. left. reflexivity.
  - intros args dir env Hin.
    destruct (shape_In _ _ _ _ _ _ _ Hsh Hin eq_refl)
      as (_ & [Hx | [Hx | [Hx | [Hx | [Hx _]]]]]); try discriminate.
    injection Hx as -> _ _.
    exists (shellCommand (Cmd job)). split; [reflexivity|].
    destruct (shellCommand_prefix (Cmd job)) as [Hp Hv].
    split; [exact Hp|]. split; [exact Hv|].
    unfold shellCommand, piped, pipefailPrefix.
    destruct (Strings.Contains (Cmd job) " | "); auto.
Qed.

End CommandLine.

Lemma shellCommand_pipefail_witness :
  let run cmd :=
    snd (Execute storeCompress plainText cmdKey sameRecs idTrim prependEnv
                 "must reserve" sampleClient (inPlaceJob cmd) noHost "/bin/bash"
                 quietPre quietProc (overrunEvents 1000)
                 (Collected overrunPost)) in
  In (PStart ["/bin/bash"; "-c"; "set -o pipefail; zcat in.gz | wc -l"]%string
             "/data/run1" ["PATH=/bin"; "HOME=/home/u"]%string)
     (run "zcat in.gz | wc -l"%string) /\
  In (PStart ["/bin/bash"; "-c"; "echo a|b"]%string
             "/data/run1" ["PATH=/bin"; "HOME=/home/u"]%string)
     (run "echo a|b"%string) /\
  Strings.Substring " | " "zcat in.gz | wc -l" /\
  ~ Strings.Substring " | " "echo a|b".
Proof.
  intros run.
  assert (H1 : In (PStart ["/bin/bash"; "-c";
                           "set -o pipefail; zcat in.gz | wc -l"]%string
                          "/data/run1" ["PATH=/bin"; "HOME=/home/u"]%string)
                  (run "zcat in.gz | wc -l"%string))
    by (vm_compute; auto).
  assert (H2 : In (PStart ["/bin/bash"; "-c"; "echo a|b"]%string
                          "/data/run1" ["PATH=/bin"; "HOME=/home/u"]%string)
                  (run "echo a|b"%string))
    by (vm_compute; auto).
  split; [exact H1|]. split; [exact H2|].
  destruct (proj2 (shellCommand_pipefail storeCompress plainText cmdKey sameRecs
                     idTrim prependEnv "must reserve" sampleClient
                     (inPlaceJob "zcat in.gz | wc -l") noHost "/bin/bash"
                     quietPre quietProc (overrunEvents 1000)
                     (Collected overrunPost)) _ _ _ H1)
    as (jc1 & Ha1 & Hp1 & _).
  destruct (proj2 (shellCommand_pipefail storeCompress plainText cmdKey sameRecs
                     idTrim prependEnv "must reserve" sampleClient
                     (inPlaceJob "echo a|b") noHost "/bin/bash"
                     quietPre quietProc (overrunEvents 1000)
                     (Collected overrunPost)) _ _ _ H2)
    as (jc2 & Ha2 & _ & Hv2 & _).
  injection Ha1 as <-. injection Ha2 as <-.
  split; [apply Hp1; reflexivity | apply Hv2; reflexivity].
Defined.

